(** * SunCast: sunrise and sunset times over a digital elevation model

  A shallow embedding of [SolarCalculator.cpp] (the NOAA-style solar
  position model) and of [ProcessDEM.cpp] (the raster driver with its
  streaming and raster output modes), and the properties of both.

  Conventions of the embedding:
  - a C++ [double] is a primitive binary64 [float]; its arithmetic and
    comparisons are the IEEE 754 ones of [PrimFloat], NaN included;
  - a C++ [float] is a [float] that holds a binary32 value, and
    [static_cast<float>] is the rounding [to_f32];
  - a C++ [int] is a [Z]; [/] and [%] are [Z.quot] and [Z.rem];
  - the transcendental functions of [<cmath>] are not part of the
    repository: they are the fields of a [Libm] record, and every theorem
    holds for every such record; the examples run on [RefLibm];
  - a [while] loop takes fuel and returns [None] when it runs out;
  - where C++ leaves the run undefined or aborts it (an [int] product out
    of range, an array of that size), the run has no result: [None]. *)

From Stdlib Require Import ZArith List Bool Lia Floats Permutation.
From Stdlib Require Import Strings.Byte Strings.String FinFun Finite.
Import ListNotations.

Set Warnings "-inexact-float".

Local Open Scope Z_scope.

(* ================================================================= *)
(** ** Machine numbers *)

Module Num.

(** [int] to [double] conversion (exact below 2^53). *)
Definition of_int (z : Z) : float :=
  SF2Prim (binary_normalize prec emax z 0 false).

(** [std::floor] on a [double]: exact, and the identity on integers,
    infinities and NaN. *)
Definition floor (x : float) : float :=
  match Prim2SF x with
  | S754_finite s m e =>
      if 0 <=? e then x
      else
        let z := if s then Z.neg m else Z.pos m in
        SF2Prim (binary_normalize prec emax (Z.shiftr z (- e)) 0 s)
  | _ => x
  end.

(** [std::round] on a [double]: to the nearest integer, halves away from
    zero. *)
Definition round (x : float) : float :=
  match Prim2SF x with
  | S754_finite s m e =>
      if 0 <=? e then x
      else
        let q := Z.shiftr (Z.pos m + Z.shiftl 1 (- e - 1)) (- e) in
        SF2Prim (binary_normalize prec emax (if s then - q else q) 0 s)
  | _ => x
  end.

(** [static_cast<float>] of a [double]: round to nearest even in
    binary32 (24 bits of precision, infinities at exponent 128). *)
Definition to_f32 (x : float) : float :=
  match Prim2SF x with
  | S754_finite s m e => SF2Prim (binary_round 24 128 s m e)
  | _ => x
  end.

(** Two's complement reduction of an integer to [w] bits. *)
Definition wrap (w : Z) (z : Z) : Z :=
  (z + 2 ^ (w - 1)) mod 2 ^ w - 2 ^ (w - 1).

(** Truncation of a [double] toward zero, as an integer. *)
Definition trunc (x : float) : Z :=
  match Prim2SF x with
  | S754_finite s m e =>
      let a := if 0 <=? e then Z.shiftl (Z.pos m) e
               else Z.shiftr (Z.pos m) (- e) in
      if s then - a else a
  | _ => 0
  end.

(** [static_cast<int16_t>] of a [double].  The conversion is only defined
    by C++ when the truncated value fits; outside that range the model
    keeps the low 16 bits. *)
Definition to_int16 (x : float) : Z := wrap 16 (trunc x).

End Num.

(* ================================================================= *)
(** ** Loops and partial results *)

(** [while (cond s) s = body s;] with fuel. *)
Fixpoint while_loop {A : Type} (fuel : nat) (cond : A -> bool)
  (body : A -> A) (s : A) : option A :=
if cond s then
  match fuel with
  | O => None
  | S n => while_loop n cond body (body s)
  end
else Some s.

Definition bind {A B : Type} (x : option A) (f : A -> option B) : option B :=
match x with
| Some a => f a
| None => None
end.

Notation "'let?' x ':=' e 'in' k" := (bind e (fun x => k))
(at level 10, x pattern, e at level 100, k at level 200).

(* ================================================================= *)
(** ** The math library *)

(** The functions of [<cmath>] that [SolarCalculator.cpp] calls and that
  IEEE 754 does not define.  [std::sqrt], [std::floor] and [std::round]
  are exact and are not fields. *)
Record Libm : Type := {
m_sin : float -> float;
m_cos : float -> float;
m_tan : float -> float;
m_asin : float -> float;
m_acos : float -> float
}.

(* ================================================================= *)
(** ** SolarCalculator *)

Module SolarCalculator.
Section Calculator.

Local Open Scope float_scope.

Variable libm : Libm.
(** Fuel given to each [while] loop. *)
Variable fuel : nat.
(** The member [timezoneOffset_]. *)
Variable timezoneOffset_ : float.

Definition M_PI : float := 3.14159265358979323846.
Definition SOLAR_DEPRESSION : float := 0.833.

(** The value returned when the event does not occur. *)
Definition NO_EVENT : float := -9999.0.

Definition julianDay (year month day : Z) : float :=
  let '(year, month) :=
    if (month <=? 2)%Z then ((year - 1)%Z, (month + 12)%Z)
    else (year, month) in
  let A := (year ÷ 100)%Z in
  let B := (2 - A + (A ÷ 4))%Z in
  let JD := Num.floor (365.25 * Num.of_int (year + 4716))
            + Num.floor (30.6001 * Num.of_int (month + 1))
            + Num.of_int day + Num.of_int B - 1524.5 in
  JD.

Definition julianCentury (jd : float) : float :=
  (jd - 2451545.0) / 36525.0.

Definition sunGeomMeanLongitude (t : float) : option float :=
  let L0 := 280.46646 + t * (36000.76983 + t * 0.0003032) in
  let? L0 := while_loop fuel (fun L0 => 360.0 <? L0)
               (fun L0 => L0 - 360.0) L0 in
  let? L0 := while_loop fuel (fun L0 => L0 <? 0.0)
               (fun L0 => L0 + 360.0) L0 in
  Some L0.

Definition sunGeomMeanAnomaly (t : float) : float :=
  357.52911 + t * (35999.05029 - 0.0001537 * t).

Definition earthOrbitEccentricity (t : float) : float :=
  0.016708634 - t * (0.000042037 + 0.0000001267 * t).

Definition sunEquationOfCenter (t : float) : float :=
  let m := sunGeomMeanAnomaly t in
  let mrad := m * M_PI / 180.0 in
  let sinm := m_sin libm mrad in
  let sin2m := m_sin libm (2.0 * mrad) in
  let sin3m := m_sin libm (3.0 * mrad) in
  sinm * (1.914602 - t * (0.004817 + 0.000014 * t))
  + sin2m * (0.019993 - 0.000101 * t)
  + sin3m * 0.000289.

Definition sunTrueLongitude (t : float) : option float :=
  let? l0 := sunGeomMeanLongitude t in
  Some (l0 + sunEquationOfCenter t).

Definition sunApparentLongitude (t : float) : option float :=
  let? o := sunTrueLongitude t in
  Some (o - 0.00569
        - 0.00478 * m_sin libm ((125.04 - 1934.136 * t) * M_PI / 180.0)).

Definition meanObliquityOfEcliptic (t : float) : float :=
  23.0 + (26.0 + ((21.448 - t * (46.815 + t * (0.00059 - t * 0.001813))))
                 / 60.0) / 60.0.

Definition obliquityCorrection (t : float) : float :=
  let e0 := meanObliquityOfEcliptic t in
  let omega := 125.04 - 1934.136 * t in
  e0 + 0.00256 * m_cos libm (omega * M_PI / 180.0).

Definition sunDeclination (t : float) : option float :=
  let e := obliquityCorrection t in
  let? lambda := sunApparentLongitude t in
  let sint := m_sin libm (e * M_PI / 180.0)
              * m_sin libm (lambda * M_PI / 180.0) in
  Some (m_asin libm sint * 180.0 / M_PI).

Definition equationOfTime (t : float) : option float :=
  let epsilon := obliquityCorrection t in
  let? l0 := sunGeomMeanLongitude t in
  let e := earthOrbitEccentricity t in
  let m := sunGeomMeanAnomaly t in
  let y := m_tan libm ((epsilon / 2.0) * M_PI / 180.0) in
  let y := y * y in
  let sin2l0 := m_sin libm (2.0 * l0 * M_PI / 180.0) in
  let sinm := m_sin libm (m * M_PI / 180.0) in
  let cos2l0 := m_cos libm (2.0 * l0 * M_PI / 180.0) in
  let sin4l0 := m_sin libm (4.0 * l0 * M_PI / 180.0) in
  let sin2m := m_sin libm (2.0 * m * M_PI / 180.0) in
  let Etime := y * sin2l0 - 2.0 * e * sinm + 4.0 * e * y * sinm * cos2l0
               - 0.5 * y * y * sin4l0 - 1.25 * e * e * sin2m in
  Some (4.0 * Etime * 180.0 / M_PI).

(** The local [cosHA] of [hourAngleSunrise]. *)
Definition cosHourAngle (latitude declination elevation : float) : float :=
  let latRad := latitude * M_PI / 180.0 in
  let declRad := declination * M_PI / 180.0 in
  let elevationCorrection := -2.076 * sqrt elevation / 60.0 in
  let zenith := 90.0 + SOLAR_DEPRESSION + elevationCorrection in
  (m_cos libm (zenith * M_PI / 180.0)
     / (m_cos libm latRad * m_cos libm declRad))
  - m_tan libm latRad * m_tan libm declRad.

Definition hourAngleSunrise (latitude declination elevation : float)
  : float :=
  let cosHA := cosHourAngle latitude declination elevation in
  if 1.0 <? cosHA then -1.0
  else if cosHA <? -1.0 then -2.0
  else m_acos libm cosHA * 180.0 / M_PI.

(** The local [solarTime] of [calculateSolarTime] before the two
    normalising loops. *)
Definition localSolarTime (longitude eqTime ha : float) (isSunrise : bool)
  : float :=
  let solarNoon := (720.0 - 4.0 * longitude - eqTime) / 60.0 in
  let solarTime :=
    if isSunrise then solarNoon - ha * 4.0 / 60.0
    else solarNoon + ha * 4.0 / 60.0 in
  solarTime + timezoneOffset_.

(** The two loops that close [calculateSolarTime]. *)
Definition normalizeHours (solarTime : float) : option float :=
  let? solarTime := while_loop fuel (fun s => s <? 0.0)
                      (fun s => s + 24.0) solarTime in
  while_loop fuel (fun s => 24.0 <=? s) (fun s => s - 24.0) solarTime.

Definition calculateSolarTime (latitude longitude elevation : float)
    (year month day : Z) (isSunrise : bool) : option float :=
  let jd := julianDay year month day in
  let t := julianCentury jd in
  let? eqTime := equationOfTime t in
  let? declination := sunDeclination t in
  let ha := hourAngleSunrise latitude declination elevation in
  if ha <? 0.0 then Some NO_EVENT
  else normalizeHours (localSolarTime longitude eqTime ha isSunrise).

Definition calculateSunrise (latitude longitude elevation : float)
    (year month day : Z) : option float :=
  calculateSolarTime latitude longitude elevation year month day true.

Definition calculateSunset (latitude longitude elevation : float)
    (year month day : Z) : option float :=
  calculateSolarTime latitude longitude elevation year month day false.

End Calculator.
End SolarCalculator.

(* ================================================================= *)
(** ** Bytes on the output stream *)

Module Wire.

Definition byte_of_Z (z : Z) : byte :=
  match Byte.of_N (Z.to_N (z mod 256)) with
  | Some b => b
  | None => Byte.x00
  end.

Definition Z_of_byte (b : byte) : Z := Z.of_N (Byte.to_N b).

(** The [n] low bytes of [z], least significant first: the image in memory
    of an [n]-byte integer in two's complement on a little-endian host. *)
Fixpoint le_bytes (n : nat) (z : Z) : list byte :=
  match n with
  | O => []
  | S n' => byte_of_Z (z mod 256) :: le_bytes n' (z / 256)
  end.

Fixpoint le_value (bs : list byte) : Z :=
  match bs with
  | [] => 0
  | b :: rest => Z_of_byte b + 256 * le_value rest
  end.

Definition int32_bytes (z : Z) : list byte := le_bytes 4 z.
Definition int16_bytes (z : Z) : list byte := le_bytes 2 z.

(** The binary64 encoding of a [double]: sign, 11 bits of biased exponent,
    52 bits of fraction.  The model has one NaN, encoded as the quiet NaN
    with an empty payload. *)
Definition bits_of_double (f : float) : Z :=
  match Prim2SF f with
  | S754_zero s => if s then 9223372036854775808 else 0
  | S754_infinity s =>
      (if s then 9223372036854775808 else 0) + 2047 * 4503599627370496
  | S754_nan => 2047 * 4503599627370496 + 2251799813685248
  | S754_finite s m e =>
      (if s then 9223372036854775808 else 0)
      + (if Z.pos m <? 4503599627370496 then Z.pos m
         else (e + 1075) * 4503599627370496
              + (Z.pos m - 4503599627370496))
  end.

Definition double_of_bits (b : Z) : float :=
  let s := 9223372036854775808 <=? b in
  let r := b mod 9223372036854775808 in
  let ex := r / 4503599627370496 in
  let mant := r mod 4503599627370496 in
  SF2Prim
    (if ex =? 0 then
       if mant =? 0 then S754_zero s
       else S754_finite s (Z.to_pos mant) (-1074)
     else if ex =? 2047 then
       if mant =? 0 then S754_infinity s else S754_nan
     else S754_finite s (Z.to_pos (mant + 4503599627370496)) (ex - 1075)).

Definition double_bytes (f : float) : list byte :=
  le_bytes 8 (bits_of_double f).

Definition double_of_bytes (bs : list byte) : float :=
  double_of_bits (le_value bs).

(** The five characters of ["SOLAR"]. *)
Definition magic : list byte :=
  [Byte.x53; Byte.x4f; Byte.x4c; Byte.x41; Byte.x52].

(** [n] doubles read from the front of a stream. *)
Fixpoint doubles_of_bytes (n : nat) (bs : list byte) : list float :=
  match n with
  | O => []
  | S n' => double_of_bytes (firstn 8 bs) :: doubles_of_bytes n' (skipn 8 bs)
  end.

(** [n] bytes of a stream from offset [off]. *)
Definition slice {A : Type} (off n : nat) (l : list A) : list A :=
  firstn n (skipn off l).

End Wire.

(* ================================================================= *)
(** ** Memory written by a pixel pass *)

(** [lo; lo + 1; ...; lo + n - 1], nothing when [n <= 0]. *)
Definition zrange (lo n : Z) : list Z :=
  map (fun k => lo + Z.of_nat k) (seq 0 (Z.to_nat n)).

Module Mem.
Section Store.

Variables L V : Type.
Variable eqb : L -> L -> bool.

(** An array (or several) as a map from locations to values, and an
    assignment [a[i] = v] as the pair of its location and value. *)
Definition store (mem : L -> V) (w : L * V) : L -> V :=
  fun l => if eqb l (fst w) then snd w else mem l.

(** A sequence of assignments, in program order. *)
Definition run (ws : list (L * V)) (mem : L -> V) : L -> V :=
  fold_left store ws mem.

(** A sequential loop over pixels: each pixel yields its assignments and
    the number of calculator calls it made, or does not return. *)
Fixpoint for_pixels (body : Z -> option (list (L * V) * nat))
    (pixels : list Z) (mem : L -> V) (calls : nat)
  : option ((L -> V) * nat) :=
  match pixels with
  | [] => Some (mem, calls)
  | i :: rest =>
      let? (ws, c) := body i in
      for_pixels body rest (run ws mem) (calls + c)%nat
  end.

(** The assignments of one thread that runs the iterations [chunk]. *)
Fixpoint thread_writes (body : Z -> option (list (L * V) * nat))
    (chunk : list Z) : option (list (L * V)) :=
  match chunk with
  | [] => Some []
  | i :: rest =>
      let? (ws, _) := body i in
      let? more := thread_writes body rest in
      Some (ws ++ more)
  end.

End Store.

Arguments store {L V} eqb mem w _.
Arguments run {L V} eqb ws mem _.
Arguments for_pixels {L V} eqb body pixels mem calls.
Arguments thread_writes {L V} body chunk.

(** The executions of several threads: every interleaving of their
    sequences that keeps each thread's own order. *)
Inductive interleave {A : Type} : list (list A) -> list A -> Prop :=
| interleave_done : forall ts,
    Forall (fun t => t = []) ts -> interleave ts []
| interleave_step : forall ts1 a t ts2 tr,
    interleave (ts1 ++ t :: ts2) tr ->
    interleave (ts1 ++ (a :: t) :: ts2) (a :: tr).

(** [schedule(static)] with [N] threads over [n] iterations: thread [t]
    gets one contiguous chunk, the first [n mod N] chunks one longer. *)
Fixpoint static_chunks (start : Z) (n N : nat) : list (list Z) :=
  match N with
  | O => []
  | S N' =>
      let len := (n / N + (if (n mod N =? 0)%nat then 0 else 1))%nat in
      zrange start (Z.of_nat len)
      :: static_chunks (start + Z.of_nat len) (n - len) N'
  end.

(** [#pragma omp parallel for schedule(static)] over the iterations
    [0 .. n - 1] with [threads] threads, from the memory [mem]: each thread
    runs its chunk in order, the assignments of the threads interleave in
    some way, and [mem'] is the memory they leave. *)
Definition parallel_for {L V : Type} (eqb : L -> L -> bool)
    (body : Z -> option (list (L * V) * nat)) (n : Z) (threads : nat)
    (mem mem' : L -> V) : Prop :=
  exists tws trace,
    Forall2 (fun c w => thread_writes body c = Some w)
      (static_chunks 0 (Z.to_nat n) threads) tws /\
    interleave tws trace /\
    forall l, mem' l = run eqb trace mem l.

End Mem.

(* ================================================================= *)
(** ** DemProcessor *)

Module DemProcessor.

Import SolarCalculator.

(** The six coefficients of a GDAL geotransform. *)
Record GeoTransform : Type := mkGeo {
  gt0 : float; gt1 : float; gt2 : float;
  gt3 : float; gt4 : float; gt5 : float
}.

Definition geo_list (g : GeoTransform) : list float :=
  [gt0 g; gt1 g; gt2 g; gt3 g; gt4 g; gt5 g].

(** What GDAL gives for an opened raster: its size, georeferencing, the
    no-data value of band 1, and [RasterIO(GF_Read, x, y, w, h)] on band 1,
    [None] when the read fails, else the [w * h] values in row order. *)
Record Dataset : Type := mkDataset {
  ds_width : Z;
  ds_height : Z;
  ds_geo : GeoTransform;
  ds_projection : string;
  ds_nodata : float;
  ds_read : Z -> Z -> Z -> Z -> option (Z -> float)
}.

(** Everything outside the program: the result of [GDALOpen] on the input
    path, whether the GTiff driver exists, whether [Create] succeeds,
    whether the [RasterIO(GF_Write)] of the tile at an origin succeeds, and
    the contents of freshly allocated arrays. *)
Record World : Type := mkWorld {
  w_open : option Dataset;
  w_gtiff : bool;
  w_create : bool;
  w_write : Z -> Z -> bool;
  w_new_float : Z -> float;
  w_new_int16 : bool * Z -> Z
}.

(** Messages on the side channel. *)
Inductive Event : Type :=
| ErrOpenInput
| ErrReadDEM
| ErrNoDriver
| ErrCreateOutput
| ErrReadBlock (x y : Z)
| ErrWriteBlock (x y : Z)
| ProgressDay (day total : Z)
| ProgressBlock (done total : Z).

(** The output raster as created: size, bands, georeferencing, and for
    each band its no-data value and its description (day, sunrise?). *)
Record OutDataset : Type := mkOut {
  od_width : Z;
  od_height : Z;
  od_numBands : Z;
  od_geo : GeoTransform;
  od_projection : string;
  od_bands : list (float * (Z * bool))
}.

(** One successful multi-band [RasterIO(GF_Write)]: the window and the
    band-sequential buffer handed to GDAL. *)
Record TileWrite : Type := mkTile {
  tw_x : Z;
  tw_y : Z;
  tw_xsize : Z;
  tw_ysize : Z;
  tw_data : Z -> float
}.

Record StreamResult : Type := mkStream {
  st_ok : bool;
  st_stdout : list byte;
  st_log : list Event;
  st_calls : nat
}.

Record ProcessResult : Type := mkProcess {
  pr_ok : bool;
  pr_dataset : option OutDataset;
  pr_written : list TileWrite;
  pr_log : list Event;
  pr_calls : nat
}.

Definition NODATA_VALUE : float := (-9999.0)%float.

(** The largest [int]. *)
Definition INT_MAX : Z := 2147483647.

Definition pixelToGeo (geoTransform : GeoTransform) (pixelX pixelY : Z)
  : float * float :=
  let lon := (gt0 geoTransform + Num.of_int pixelX * gt1 geoTransform
              + Num.of_int pixelY * gt2 geoTransform)%float in
  let lat := (gt3 geoTransform + Num.of_int pixelX * gt4 geoTransform
              + Num.of_int pixelY * gt5 geoTransform)%float in
  (lon, lat).

(** The leap-year test [(year % 4 == 0 && year % 100 != 0) ||
    (year % 400 == 0)], written out in [streamBinaryOutput] and again in
    [processDEM]. *)
Definition isLeapYear (year : Z) : bool :=
  ((Z.rem year 4 =? 0) && negb (Z.rem year 100 =? 0))
  || (Z.rem year 400 =? 0).

Definition daysInMonth (isLeap : bool) (m : Z) : Z :=
  if (m =? 4) || (m =? 6) || (m =? 9) || (m =? 11) then 30
  else if m =? 2 then (if isLeap then 29 else 28)
  else 31.

(** [currentDayOfYear] is incremented before each day is used. *)
Fixpoint number_days (currentDayOfYear : Z) (days : list (Z * Z))
  : list (Z * (Z * Z)) :=
  match days with
  | [] => []
  | md :: rest =>
      (currentDayOfYear + 1, md) :: number_days (currentDayOfYear + 1) rest
  end.

(** The two nested loops [for m in 1..12] and [for d in 1..daysInMonth]:
    the days of the year in order, each with its [currentDayOfYear]. *)
Definition calendar (isLeap : bool) : list (Z * (Z * Z)) :=
  number_days 0
    (flat_map (fun m => map (fun d => (m, d))
                          (zrange 1 (daysInMonth isLeap m)))
              (zrange 1 12)).

Definition loc_eqb (a b : bool * Z) : bool :=
  Bool.eqb (fst a) (fst b) && (snd a =? snd b).

(** The test that guards the model in [streamBinaryOutput]. *)
Definition masked_stream (elevation demNodata : float) : bool :=
  (is_nan elevation || (elevation =? demNodata) || (elevation =? 0.0))%float.

(** The test that guards the model in [processDEM]. *)
Definition masked_raster (elevation demNodata : float) : bool :=
  (is_nan elevation || (elevation =? demNodata))%float.

(** Hours to the 16-bit minutes of the stream. *)
Definition to_minutes (t : float) : Z :=
  if (t <? 0)%float then -1
  else Num.to_int16 (Num.round (t * 60.0)%float).

(** The five writes that open the stream: the magic, the three sizes and
    the geotransform. *)
Definition stream_header (width height daysInYear : Z)
    (geoTransform : GeoTransform) : list byte :=
  Wire.magic ++ Wire.int32_bytes width ++ Wire.int32_bytes height
  ++ Wire.int32_bytes daysInYear
  ++ flat_map Wire.double_bytes (geo_list geoTransform).

Definition createOutputDataset (world : World) (width height numBands : Z)
    (geoTransform : GeoTransform) (projection : string)
  : option OutDataset * list Event :=
  if negb (w_gtiff world) then (None, [ErrNoDriver])
  else if negb (w_create world) then (None, [ErrCreateOutput])
  else
    (Some {| od_width := width;
             od_height := height;
             od_numBands := numBands;
             od_geo := geoTransform;
             od_projection := projection;
             od_bands :=
               map (fun i => (NODATA_VALUE,
                              ((i - 1) ÷ 2 + 1, negb (Z.rem i 2 =? 0))))
                   (zrange 1 numBands) |},
     []).

Definition is_some {A : Type} (x : option A) : bool :=
  match x with
  | Some _ => true
  | None => false
  end.

(** The origins [0, 512, ...] below [n] of a loop [v += 512]. *)
Definition block_starts (n : Z) : list Z :=
  map (fun k => 512 * k) (zrange 0 ((n + 511) / 512)).

(** The origins [(y, x)] of the blocks in the order of the two loops of
    [processDEM]: rows of blocks from the top, each from the left. *)
Definition block_origins (width height : Z) : list (Z * Z) :=
  flat_map (fun y => map (fun x => (y, x)) (block_starts width))
           (block_starts height).

(** The read of the block at [(y, x)], clipped to the raster. *)
Definition block_read (ds : Dataset) (yx : Z * Z) : option (Z -> float) :=
  ds_read ds (snd yx) (fst yx)
    (Z.min 512 (ds_width ds - snd yx)) (Z.min 512 (ds_height ds - fst yx)).

(** Errors, as opposed to progress reports. *)
Definition is_error (ev : Event) : bool :=
  match ev with
  | ProgressDay _ _ | ProgressBlock _ _ => false
  | _ => true
  end.

(** What the block at [(y, x)] should leave on the error channel. *)
Definition block_errors (world : World) (ds : Dataset) (yx : Z * Z)
  : list Event :=
  match block_read ds yx with
  | None => [ErrReadBlock (snd yx) (fst yx)]
  | Some _ =>
      if w_write world (snd yx) (fst yx) then []
      else [ErrWriteBlock (snd yx) (fst yx)]
  end.

(** The block at [(y, x)] reaches the output raster. *)
Definition block_written (world : World) (ds : Dataset) (yx : Z * Z)
  : bool :=
  is_some (block_read ds yx) && w_write world (snd yx) (fst yx).

(** The locations a pixel of the stream assigns. *)
Definition stream_locs (i : Z) : list (bool * Z) := [(true, i); (false, i)].

(** The locations a pixel of a block of [size] pixels assigns: its cell
    in every band. *)
Definition raster_locs (size numBands i : Z) : list Z :=
  map (fun b => b * size + i) (zrange 0 numBands).

Section Driver.

Variable libm : Libm.
Variable fuel : nat.
Variable world : World.

(** The body of the parallel loop of [streamBinaryOutput] for pixel [i]
    on the day [d] of month [m]: its assignments to [sunriseBuffer]
    (locations [(true, i)]) and [sunsetBuffer] (locations [(false, i)]),
    and the number of calculator calls. *)
Definition stream_pixel (timezoneOffset : float) (demData : Z -> float)
    (demNodata : float) (width : Z) (geoTransform : GeoTransform)
    (year m d : Z) (i : Z) : option (list ((bool * Z) * Z) * nat) :=
  let elevation := demData i in
  if masked_stream elevation demNodata then
    Some ([((true, i), -1); ((false, i), -1)], 0%nat)
  else
    let y := i ÷ width in
    let x := Z.rem i width in
    let '(lon, lat) := pixelToGeo geoTransform x y in
    let? sunrise :=
      calculateSunrise libm fuel timezoneOffset lat lon elevation year m d in
    let? sunset :=
      calculateSunset libm fuel timezoneOffset lat lon elevation year m d in
    Some ([((true, i), to_minutes sunrise); ((false, i), to_minutes sunset)],
          2%nat).

(** One block of the stream: the day index and the two arrays. *)
Definition stream_block (totalPixels : Z) (currentDayOfYear : Z)
    (mem : bool * Z -> Z) : list byte :=
  Wire.int32_bytes currentDayOfYear
  ++ flat_map (fun i => Wire.int16_bytes (mem (true, i)))
       (zrange 0 totalPixels)
  ++ flat_map (fun i => Wire.int16_bytes (mem (false, i)))
       (zrange 0 totalPixels).

(** The loop over days of [streamBinaryOutput]; the state is the two
    buffers, the bytes written so far, the log and the call count. *)
Fixpoint stream_days (timezoneOffset : float) (demData : Z -> float)
    (demNodata : float) (width totalPixels : Z)
    (geoTransform : GeoTransform) (year daysInYear : Z)
    (days : list (Z * (Z * Z)))
    (st : (bool * Z -> Z) * list byte * list Event * nat)
  : option ((bool * Z -> Z) * list byte * list Event * nat) :=
  match days with
  | [] => Some st
  | (currentDayOfYear, (m, d)) :: rest =>
      let '(mem, out, log, calls) := st in
      let? (mem', calls') :=
        Mem.for_pixels loc_eqb
          (stream_pixel timezoneOffset demData demNodata width geoTransform
             year m d)
          (zrange 0 totalPixels) mem calls in
      stream_days timezoneOffset demData demNodata width totalPixels
        geoTransform year daysInYear rest
        (mem',
         out ++ stream_block totalPixels currentDayOfYear mem',
         log ++ (if Z.rem currentDayOfYear 10 =? 0
                 then [ProgressDay currentDayOfYear daysInYear] else []),
         calls')
  end.

(** [int totalPixels = width * height] and [new float[totalPixels]] come
    before the read: a product that is no [int], or is negative, leaves the
    run without a result. *)
Definition streamBinaryOutput (year : Z) (timezoneOffset : float)
  : option StreamResult :=
  match w_open world with
  | None => Some (mkStream false [] [ErrOpenInput] 0)
  | Some inputDataset =>
      let width := ds_width inputDataset in
      let height := ds_height inputDataset in
      let totalPixels := width * height in
      if negb ((0 <=? totalPixels) && (totalPixels <=? INT_MAX)) then None
      else
      let geoTransform := ds_geo inputDataset in
      match ds_read inputDataset 0 0 width height with
      | None => Some (mkStream false [] [ErrReadDEM] 0)
      | Some demData =>
          let demNodata := Num.to_f32 (ds_nodata inputDataset) in
          let isLeap := isLeapYear year in
          let daysInYear := if isLeap then 366 else 365 in
          let header :=
            stream_header width height daysInYear geoTransform in
          let? (_, out, log, calls) :=
            stream_days timezoneOffset demData demNodata width totalPixels
              geoTransform year daysInYear (calendar isLeap)
              (w_new_int16 world, header, [], 0%nat) in
          Some (mkStream true out log calls)
      end
  end.

(** The loop over days inside the pixel loop of [processDEM]: the
    assignments to [outputBlock] for pixel [i] of a block of [size] pixels. *)
Fixpoint raster_days (timezoneOffset lat lon elevation : float)
    (year size i : Z) (days : list (Z * (Z * Z)))
  : option (list (Z * float) * nat) :=
  match days with
  | [] => Some ([], 0%nat)
  | (currentDayOfYear, (m, d)) :: rest =>
      let? sunrise :=
        calculateSunrise libm fuel timezoneOffset lat lon elevation
          year m d in
      let? sunset :=
        calculateSunset libm fuel timezoneOffset lat lon elevation
          year m d in
      let sunriseBandIdx := (currentDayOfYear - 1) * 2 in
      let sunsetBandIdx := sunriseBandIdx + 1 in
      let? (ws, c) :=
        raster_days timezoneOffset lat lon elevation year size i rest in
      Some ((sunriseBandIdx * size + i, Num.to_f32 sunrise)
            :: (sunsetBandIdx * size + i, Num.to_f32 sunset) :: ws,
            (2 + c)%nat)
  end.

(** The body of the parallel loop of [processDEM] for pixel [i] of the
    block at [(x, y)]. *)
Definition raster_pixel (timezoneOffset : float) (demBlock : Z -> float)
    (demNodata : float) (geoTransform : GeoTransform) (year : Z)
    (isLeap : bool) (numBands x y currentBlockX currentBlockY : Z) (i : Z)
  : option (list (Z * float) * nat) :=
  let localY := i ÷ currentBlockX in
  let localX := Z.rem i currentBlockX in
  let globalX := x + localX in
  let globalY := y + localY in
  let elevation := demBlock i in
  if masked_raster elevation demNodata then
    Some (map (fun b => (b * (currentBlockX * currentBlockY) + i,
                         NODATA_VALUE))
              (zrange 0 numBands),
          0%nat)
  else
    let '(lon, lat) := pixelToGeo geoTransform globalX globalY in
    raster_days timezoneOffset lat lon elevation year
      (currentBlockX * currentBlockY) i (calendar isLeap).

(** One iteration of the loop over blocks; the state is [outputBlock],
    the tiles written, the log, [processedBlocks] and the call count. *)
Definition process_block (timezoneOffset : float) (inputDataset : Dataset)
    (demNodata : float) (year : Z) (isLeap : bool)
    (numBands totalBlocks : Z) (yx : Z * Z)
    (st : (Z -> float) * list TileWrite * list Event * Z * nat)
  : option ((Z -> float) * list TileWrite * list Event * Z * nat) :=
  let '(outputBlock, written, log, processedBlocks, calls) := st in
  let '(y, x) := yx in
  let currentBlockX := Z.min 512 (ds_width inputDataset - x) in
  let currentBlockY := Z.min 512 (ds_height inputDataset - y) in
  match ds_read inputDataset x y currentBlockX currentBlockY with
  | None =>
      Some (outputBlock, written, log ++ [ErrReadBlock x y],
            processedBlocks, calls)
  | Some demBlock =>
      let? (outputBlock', calls') :=
        Mem.for_pixels Z.eqb
          (raster_pixel timezoneOffset demBlock demNodata
             (ds_geo inputDataset) year isLeap numBands x y
             currentBlockX currentBlockY)
          (zrange 0 (currentBlockY * currentBlockX)) outputBlock calls in
      let ok := w_write world x y in
      Some (outputBlock',
            written ++ (if ok
                        then [mkTile x y currentBlockX currentBlockY
                                outputBlock']
                        else []),
            log ++ (if ok then [] else [ErrWriteBlock x y])
                ++ [ProgressBlock (processedBlocks + 1) totalBlocks],
            processedBlocks + 1, calls')
  end.

Fixpoint process_blocks (timezoneOffset : float) (inputDataset : Dataset)
    (demNodata : float) (year : Z) (isLeap : bool)
    (numBands totalBlocks : Z) (blocks : list (Z * Z))
    (st : (Z -> float) * list TileWrite * list Event * Z * nat)
  : option ((Z -> float) * list TileWrite * list Event * Z * nat) :=
  match blocks with
  | [] => Some st
  | yx :: rest =>
      let? st' :=
        process_block timezoneOffset inputDataset demNodata year isLeap
          numBands totalBlocks yx st in
      process_blocks timezoneOffset inputDataset demNodata year isLeap
        numBands totalBlocks rest st'
  end.

Definition processDEM (year : Z) (timezoneOffset : float)
  : option ProcessResult :=
  match w_open world with
  | None => Some (mkProcess false None [] [ErrOpenInput] 0)
  | Some inputDataset =>
      let width := ds_width inputDataset in
      let height := ds_height inputDataset in
      let geoTransform := ds_geo inputDataset in
      let projection := ds_projection inputDataset in
      let isLeap := isLeapYear year in
      let daysInYear := if isLeap then 366 else 365 in
      let numBands := daysInYear * 2 in
      match createOutputDataset world width height numBands geoTransform
              projection with
      | (None, errs) => Some (mkProcess false None [] errs 0)
      | (Some outputDataset, _) =>
          let demNodata := Num.to_f32 (ds_nodata inputDataset) in
          let totalBlocks := ((width + 512 - 1) ÷ 512)
                             * ((height + 512 - 1) ÷ 512) in
          let? (_, written, log, _, calls) :=
            process_blocks timezoneOffset inputDataset demNodata year isLeap
              numBands totalBlocks (block_origins width height)
              (w_new_float world, [], [], 0, 0%nat) in
          Some (mkProcess true (Some outputDataset) written log calls)
      end
  end.

(** Every calculator call of [streamBinaryOutput] returns with the fuel
    at hand. *)
Definition stream_returns (year : Z) (timezoneOffset : float) : bool :=
  match w_open world with
  | None => true
  | Some ds =>
      match ds_read ds 0 0 (ds_width ds) (ds_height ds) with
      | None => true
      | Some demData =>
          forallb (fun kmd =>
            forallb (fun i =>
              is_some (stream_pixel timezoneOffset demData
                         (Num.to_f32 (ds_nodata ds)) (ds_width ds)
                         (ds_geo ds) year (fst (snd kmd)) (snd (snd kmd)) i))
              (zrange 0 (ds_width ds * ds_height ds)))
            (calendar (isLeapYear year))
      end
  end.

(** Every calculator call of [processDEM] returns with the fuel at hand. *)
Definition raster_returns (year : Z) (timezoneOffset : float) : bool :=
  match w_open world with
  | None => true
  | Some ds =>
      let isLeap := isLeapYear year in
      forallb (fun yx =>
        let currentBlockX := Z.min 512 (ds_width ds - snd yx) in
        let currentBlockY := Z.min 512 (ds_height ds - fst yx) in
        match ds_read ds (snd yx) (fst yx) currentBlockX currentBlockY with
        | None => true
        | Some demBlock =>
            forallb (fun i =>
              is_some (raster_pixel timezoneOffset demBlock
                         (Num.to_f32 (ds_nodata ds)) (ds_geo ds) year isLeap
                         ((if isLeap then 366 else 365) * 2)
                         (snd yx) (fst yx) currentBlockX currentBlockY i))
              (zrange 0 (currentBlockY * currentBlockX))
        end)
        (block_origins (ds_width ds) (ds_height ds))
  end.

(** The tile [t] holds the buffer left by the pixel pass over the block
    read at its window. *)
Definition tile_pass (year : Z) (timezoneOffset : float) (ds : Dataset)
    (t : TileWrite) : Prop :=
  exists demBlock mem calls calls',
    ds_read ds (tw_x t) (tw_y t) (tw_xsize t) (tw_ysize t) = Some demBlock /\
    Mem.for_pixels Z.eqb
      (raster_pixel timezoneOffset demBlock (Num.to_f32 (ds_nodata ds))
         (ds_geo ds) year (isLeapYear year)
         ((if isLeapYear year then 366 else 365) * 2)
         (tw_x t) (tw_y t) (tw_xsize t) (tw_ysize t))
      (zrange 0 (tw_ysize t * tw_xsize t)) mem calls
    = Some (tw_data t, calls').

End Driver.

End DemProcessor.

(* ================================================================= *)
(** ** Worlds to evaluate on *)

Module Example.

Import DemProcessor.

(** A 2 x 2 raster near Lyon: one no-data cell, one cell at sea level,
    two cells at 350 m. *)
Definition geo : GeoTransform :=
  mkGeo 5%float 0.01%float 0%float 45%float 0%float (-0.01)%float.

Definition dem (i : Z) : float :=
  if i =? 0 then (-9999)%float else if i =? 1 then 0%float else 350%float.

Definition dataset : Dataset :=
  mkDataset 2 2 geo EmptyString (-9999)%float (fun _ _ _ _ => Some dem).

Definition world : World :=
  mkWorld (Some dataset) true true (fun _ _ => true)
    (fun _ => 0%float) (fun _ => 0).

(** A 1025 x 1 raster of no-data cells, three tiles wide: the first tile
    cannot be read, the second cannot be written. *)
Definition strip : Dataset :=
  mkDataset 1025 1 geo EmptyString (-9999)%float
    (fun x _ _ _ => if x =? 0 then None else Some (fun _ => (-9999)%float)).

Definition faulty : World :=
  mkWorld (Some strip) true true (fun x _ => negb (x =? 512))
    (fun _ => 0%float) (fun _ => 0).

(** No raster at the input path. *)
Definition missing : World :=
  mkWorld None true true (fun _ _ => true) (fun _ => 0%float) (fun _ => 0).

(** Two cells at 80 degrees north: a no-data cell and a cell at 100 m,
    where the sun does not set in June. *)
Definition north : GeoTransform :=
  mkGeo 20%float 0.01%float 0%float 80%float 0%float (-0.01)%float.

Definition north_dem (i : Z) : float :=
  if i =? 0 then (-9999)%float else 100%float.

Definition arctic : World :=
  mkWorld
    (Some (mkDataset 2 1 north EmptyString (-9999)%float
             (fun _ _ _ _ => Some north_dem)))
    true true (fun _ _ => true) (fun _ => 0%float) (fun _ => 0).

End Example.

(* ================================================================= *)
(** ** A math library to evaluate with *)

(** The theorems below hold for every [Libm].  To run the calculator on
    concrete inputs, this module gives one: Taylor series after range
    reduction for [sin] and [cos], Newton's iteration for [asin].  It is
    accurate to a few units in the last places, which is all the examples
    need, and it propagates NaN as the C library does. *)
Module RefLibm.

Local Open Scope float_scope.

Definition pi : float := 3.14159265358979323846.

Fixpoint sin_series (n : nat) (k : float) (r2 : float) : float :=
  match n with
  | O => 1
  | S n' => 1 - r2 / ((2 * k) * (2 * k + 1)) * sin_series n' (k + 1) r2
  end.

Fixpoint cos_series (n : nat) (k : float) (r2 : float) : float :=
  match n with
  | O => 1
  | S n' => 1 - r2 / ((2 * k - 1) * (2 * k)) * cos_series n' (k + 1) r2
  end.

Definition reduce (x : float) : float :=
  x - Num.floor (x / (2 * pi) + 0.5) * (2 * pi).

Definition sin (x : float) : float :=
  let r := reduce x in r * sin_series 14 1 (r * r).

Definition cos (x : float) : float :=
  let r := reduce x in cos_series 14 1 (r * r).

Definition tan (x : float) : float := sin x / cos x.

Fixpoint newton (n : nat) (x y : float) : float :=
  match n with
  | O => y
  | S n' => newton n' x (y - (sin y - x) / cos y)
  end.

Definition asin_small (x : float) : float := newton 8 x x.

Definition asin (x : float) : float :=
  if abs x <=? 0.75 then asin_small x
  else if x <=? 1 then
    if 0 <? x then pi / 2 - 2 * asin_small (sqrt ((1 - x) / 2))
    else if -1 <=? x then 2 * asin_small (sqrt ((1 + x) / 2)) - pi / 2
    else nan
  else nan.

Definition acos (x : float) : float := pi / 2 - asin x.

Definition libm : Libm :=
  {| m_sin := sin; m_cos := cos; m_tan := tan;
     m_asin := asin; m_acos := acos |}.

End RefLibm.

(* ================================================================= *)
(** ** Dates the program accepts *)

(** The command line refuses a year outside 1900..2100; months and days
    are those of the loops of the driver. *)
Definition valid_date (year month day : Z) : Prop :=
  1900 <= year <= 2100 /\ 1 <= month <= 12 /\ 1 <= day <= 31.

(** Fuel that is enough for [sunGeomMeanLongitude] on every valid date. *)
Definition DATE_FUEL : nat := 128.

(** The loops of [sunGeomMeanLongitude] end within [fuel] iterations on
    the given date. *)
Definition date_ok (fuel : nat) (year month day : Z) : bool :=
  match SolarCalculator.sunGeomMeanLongitude fuel
          (SolarCalculator.julianCentury
             (SolarCalculator.julianDay year month day)) with
  | Some _ => true
  | None => false
  end.


(* ================================================================= *)
(** ** Classes of doubles that the proofs distinguish *)

Module FloatDefs.

(** A shift register with no bit shifted out yet. *)
Definition rec0 (m : Z) := {| shr_m := m; shr_r := false; shr_s := false |}.

Abbreviation fexp64 := (fexp prec emax).

(** The mantissa of 24.0, and 24.0 itself. *)
Definition m24 : positive := 6755399441055744.
Definition F24 : spec_float := S754_finite false m24 (-48).

(** Non-negative, not NaN, and below 2^56. *)
Definition small_nonneg (f : spec_float) : Prop :=
  match f with
  | S754_zero _ => True
  | S754_finite false _ e => e <= 3
  | _ => False
  end.

(** Finite and below 2^56 in magnitude. *)
Definition small (f : spec_float) : Prop :=
  match f with
  | S754_zero _ => True
  | S754_finite _ _ e => e <= 3
  | _ => False
  end.

(** The magnitude in units of 2^-48, for magnitudes of at least 16. *)
Definition mag (f : spec_float) : Z :=
  match f with
  | S754_finite _ m e => if -48 <=? e then Z.pos m * 2 ^ (e + 48) else 0
  | _ => 0
  end.

(** Not NaN and not below zero. *)
Definition nonneg (f : spec_float) : Prop :=
  match f with
  | S754_zero _ | S754_infinity false | S754_finite false _ _ => True
  | _ => False
  end.

End FloatDefs.

(* ================================================================= *)
(** ** The formulas as the specification words them *)

Module Spec.

Local Open Scope float_scope.

(** Degrees to radians. *)
Definition rad (x : float) : float := x * SolarCalculator.M_PI / 180.

(** [zenith = 90 + 0.833 - 2.076 * sqrt(elevation) / 60]. *)
Definition zenith (elevation : float) : float :=
  90 + 0.833 - 2.076 * sqrt elevation / 60.

(** [cos(HA) = cos(zenith) / (cos(lat) * cos(decl)) - tan(lat) * tan(decl)]. *)
Definition cosHA (libm : Libm) (lat decl elevation : float) : float :=
  m_cos libm (rad (zenith elevation))
    / (m_cos libm (rad lat) * m_cos libm (rad decl))
  - m_tan libm (rad lat) * m_tan libm (rad decl).

(** [acos(cos(HA))] in degrees. *)
Definition hourAngle (libm : Libm) (lat decl elevation : float) : float :=
  m_acos libm (cosHA libm lat decl elevation) * 180
  / SolarCalculator.M_PI.

(** Solar noon [(720 - 4 * longitude - eqTime) / 60], minus or plus
    [HA * 4 / 60], shifted by the timezone offset. *)
Definition localTime (tz lon eqTime ha : float) (isSunrise : bool) : float :=
  let noon := (720 - 4 * lon - eqTime) / 60 in
  (if isSunrise then noon - ha * 4 / 60 else noon + ha * 4 / 60) + tz.

(** Leap years of the Gregorian calendar. *)
Definition leap (year : Z) : Prop :=
  ((4 | year) /\ ~ (100 | year)) \/ (400 | year).

End Spec.

(* ================================================================= *)
(** ** The command line *)

Module Main.

Import DemProcessor.

Local Open Scope string_scope.

(** The two functions of [<cstdlib>] that [main] calls. *)
Record Libc : Type := {
  atoi : string -> Z;
  atof : string -> float
}.

(** The local variables of [main] that the options set. *)
Record Config : Type := mkConfig {
  inputPath : string;
  outputPath : string;
  streamMode : bool;
  year : Z;
  numThreads : Z;
  timezoneOffset : float
}.

Definition defaults : Config :=
  mkConfig EmptyString EmptyString false 2025 96 1%float.

(** How the loop over the arguments ends. *)
Inductive Parse : Type :=
| Help
| YearError
| ThreadsError
| UnknownArgument (arg : string)
| Parsed (c : Config).

(** The loop [for (int i = 1; i < argc; ++i)] over [argv[1 ..]].  An
    option that takes a value consumes the next argument, and is only
    recognised when there is one ([i + 1 < argc]). *)
Fixpoint parse (libc : Libc) (args : list string) (c : Config) : Parse :=
  match args with
  | [] => Parsed c
  | arg :: rest =>
      if (arg =? "--help") || (arg =? "-h") then Help
      else
        match rest with
        | value :: rest' =>
            if arg =? "--input" then
              parse libc rest'
                (mkConfig value (outputPath c) (streamMode c) (year c)
                   (numThreads c) (timezoneOffset c))
            else if arg =? "--output" then
              parse libc rest'
                (mkConfig (inputPath c) value (streamMode c) (year c)
                   (numThreads c) (timezoneOffset c))
            else if arg =? "--stream" then
              parse libc rest
                (mkConfig (inputPath c) (outputPath c) true (year c)
                   (numThreads c) (timezoneOffset c))
            else if arg =? "--year" then
              let y := atoi libc value in
              if ((y <? 1900) || (y >? 2100))%Z then YearError
              else
                parse libc rest'
                  (mkConfig (inputPath c) (outputPath c) (streamMode c) y
                     (numThreads c) (timezoneOffset c))
            else if arg =? "--threads" then
              let n := atoi libc value in
              if (n <? 1)%Z then ThreadsError
              else
                parse libc rest'
                  (mkConfig (inputPath c) (outputPath c) (streamMode c)
                     (year c) n (timezoneOffset c))
            else if arg =? "--timezone" then
              parse libc rest'
                (mkConfig (inputPath c) (outputPath c) (streamMode c)
                   (year c) (numThreads c) (atof libc value))
            else UnknownArgument arg
        | [] =>
            if arg =? "--stream" then
              parse libc rest
                (mkConfig (inputPath c) (outputPath c) true (year c)
                   (numThreads c) (timezoneOffset c))
            else UnknownArgument arg
        end
  end.

(** What [main] does after the options: nothing but an exit code, or one
    of the two modes of the processor. *)
Inductive Action : Type :=
| Exit (code : Z)
| Stream (c : Config)
| Raster (c : Config).

Definition empty (s : string) : bool :=
  match s with
  | EmptyString => true
  | _ => false
  end.

Definition action (libc : Libc) (args : list string) : Action :=
  match parse libc args defaults with
  | Help => Exit 0
  | YearError | ThreadsError | UnknownArgument _ => Exit 1
  | Parsed c =>
      if empty (inputPath c) then Exit 1
      else if negb (streamMode c) && empty (outputPath c) then Exit 1
      else if streamMode c then Stream c
      else Raster c
  end.

(** [main]: its exit code.  [env] gives the world that the processor
    finds for an input and an output path. *)
Definition main (libc : Libc) (libm : Libm) (fuel : nat)
    (env : string -> string -> World) (args : list string) : option Z :=
  match action libc args with
  | Exit code => Some code
  | Stream c =>
      let? r := streamBinaryOutput libm fuel
                  (env (inputPath c) (outputPath c)) (year c)
                  (timezoneOffset c) in
      Some (if st_ok r then 0 else 1)%Z
  | Raster c =>
      let? r := processDEM libm fuel
                  (env (inputPath c) (outputPath c)) (year c)
                  (timezoneOffset c) in
      Some (if pr_ok r then 0 else 1)%Z
  end.

End Main.

(* ================================================================= *)
(** ** Reading the side channel *)

(** The progress reports of [processDEM] in a log: the count and the
    total of each. *)
Definition progress_blocks (log : list DemProcessor.Event) : list (Z * Z) :=
  flat_map (fun ev => match ev with
                      | DemProcessor.ProgressBlock done total =>
                          [(done, total)]
                      | _ => []
                      end) log.

(* ================================================================= *)
(** ** A check that runs over every month *)

Module Checks.

Import SolarCalculator DemProcessor.

(** The same double, bit for bit. *)
Definition same_double (a b : float) : bool := PrimFloat.Leibniz.eqb a b.

(** In [year], from the first day of each month to the first day of the
    next (January of the next year after December), the Julian day grows
    by the number of days that the driver gives the month. *)
Definition months_ok (year : Z) : bool :=
  forallb (fun m =>
             same_double
               (julianDay (if m =? 12 then year + 1 else year)
                  (if m =? 12 then 1 else m + 1) 1)
               (julianDay year m 1
                + Num.of_int (daysInMonth (isLeapYear year) m))%float)
          (zrange 1 12).

End Checks.

(* ================================================================= *)
(** * Properties *)

(* ================================================================= *)
(** ** Binary64 arithmetic *)

Module FloatFacts.

Import FloatDefs.

Lemma compare_cont_Z (p q : positive) :
  Pos.compare_cont Eq p q = (Z.pos p ?= Z.pos q).
Proof. reflexivity. Qed.

Lemma digits2_size m : digits2_pos m = Pos.size m.
Proof. induction m; simpl; congruence. Qed.

Lemma digits2_log2 m : Z.pos (digits2_pos m) = Z.log2 (Z.pos m) + 1.
Proof.
  rewrite digits2_size. destruct m; simpl; try reflexivity.
  all: rewrite Pos2Z.inj_succ; lia.
Qed.

Lemma Zdigits2_log2 z : 0 < z -> Zdigits2 z = Z.log2 z + 1.
Proof. destruct z; try lia. intros _. apply digits2_log2. Qed.

Lemma digits2_bounds m :
  2 ^ (Z.pos (digits2_pos m) - 1) <= Z.pos m < 2 ^ Z.pos (digits2_pos m).
Proof.
  rewrite digits2_log2.
  replace (Z.log2 (Z.pos m) + 1 - 1) with (Z.log2 (Z.pos m)) by lia.
  replace (Z.log2 (Z.pos m) + 1) with (Z.succ (Z.log2 (Z.pos m))) by lia.
  apply Z.log2_spec; lia.
Qed.

Lemma iter_pos_nat {A} (f : A -> A) p x :
  iter_pos f p x = Nat.iter (Pos.to_nat p) f x.
Proof.
  revert x; induction p; intros x; simpl iter_pos.
  - rewrite !IHp, Pos2Nat.inj_xI. 
    replace (S (2 * Pos.to_nat p))%nat with (Pos.to_nat p + S (Pos.to_nat p))%nat by lia.
    rewrite Nat.iter_add. f_equal. now rewrite Nat.iter_succ_r.
  - rewrite !IHp, Pos2Nat.inj_xO.
    replace (2 * Pos.to_nat p)%nat with (Pos.to_nat p + Pos.to_nat p)%nat by lia.
    now rewrite Nat.iter_add.
  - reflexivity.
Qed.

Lemma pos_iter_xO m d : Z.pos (Pos.iter xO m d) = Z.pos m * 2 ^ Z.pos d.
Proof.
  rewrite Pos2Nat.inj_iter, <- (positive_nat_Z d).
  induction (Pos.to_nat d) as [|n IH].
  - cbn [nat_rect]. change (2 ^ Z.of_nat 0) with 1. lia.
  - rewrite Nat2Z.inj_succ, Z.pow_succ_r by lia. cbn [nat_rect].
    rewrite Pos2Z.inj_xO, IH. lia.
Qed.

Lemma shr_1_m mrs : 0 <= shr_m mrs -> shr_m (shr_1 mrs) = shr_m mrs / 2.
Proof.
  destruct mrs as [m r s]; simpl. intros H.
  destruct m as [|[p|p|]|p]; simpl; try lia; try reflexivity.
  - rewrite Pos2Z.inj_xI. apply Z.div_unique with 1; lia.
  - rewrite Pos2Z.inj_xO. apply Z.div_unique with 0; lia.
Qed.

Lemma shr_iter_m n mrs :
  0 <= shr_m mrs -> shr_m (Nat.iter n shr_1 mrs) = shr_m mrs / 2 ^ Z.of_nat n.
Proof.
  intros H. induction n as [|n IH].
  - simpl. now rewrite Z.div_1_r.
  - rewrite Nat2Z.inj_succ, Z.pow_succ_r by lia. simpl Nat.iter.
    rewrite shr_1_m, IH.
    + rewrite Z.div_div by lia. f_equal; lia.
    + rewrite IH. apply Z.div_pos; lia.
Qed.

Lemma shr_1_exact z : 0 < z -> shr_1 (rec0 (2 * z)) = rec0 z.
Proof. destruct z; try lia. reflexivity. Qed.

Lemma shr_iter_exact n z :
  0 < z -> Nat.iter n shr_1 (rec0 (2 ^ Z.of_nat n * z)) = rec0 z.
Proof.
  intros Hz. revert z Hz. induction n as [|n IH]; intros z Hz.
  - change (2 ^ Z.of_nat 0) with 1. now rewrite Z.mul_1_l.
  - rewrite Nat.iter_succ_r, Nat2Z.inj_succ, Z.pow_succ_r by lia.
    replace (2 * 2 ^ Z.of_nat n * z) with (2 * (2 ^ Z.of_nat n * z)) by lia.
    rewrite shr_1_exact by lia. now apply IH.
Qed.

Lemma fexp64_eq e : fexp64 e = Z.max (e - 53) (-1074).
Proof. reflexivity. Qed.

Lemma Zdigits2_mul_pow2 z n :
  0 < z -> 0 <= n -> Zdigits2 (2 ^ n * z) = Zdigits2 z + n.
Proof.
  intros Hz Hn. rewrite !Zdigits2_log2 by nia.
  rewrite Z.mul_comm, Z.log2_mul_pow2 by lia. lia.
Qed.

Lemma Zdigits2_lt z d : 0 <= z -> 0 <= d -> z < 2 ^ d -> Zdigits2 z <= d.
Proof.
  intros Hz Hd H. destruct (Z.eq_dec z 0) as [->|Hn]; [simpl; lia|].
  rewrite Zdigits2_log2 by lia.
  enough (Z.log2 z < d) by lia. apply Z.log2_lt_pow2; lia.
Qed.

Lemma Zdigits2_bound z : 0 <= z -> z < 2 ^ Zdigits2 z.
Proof.
  intros Hz. destruct (Z.eq_dec z 0) as [->|Hn]; [simpl; lia|].
  rewrite Zdigits2_log2 by lia.
  replace (Z.log2 z + 1) with (Z.succ (Z.log2 z)) by lia.
  apply Z.log2_spec; lia.
Qed.

Lemma Zdigits2_nonneg z : 0 <= Zdigits2 z.
Proof. destruct z; simpl; lia. Qed.

Lemma shr_exact z e n :
  0 < z -> 0 <= n -> shr (rec0 (2 ^ n * z)) e n = (rec0 z, e + n).
Proof.
  intros Hz Hn. destruct n as [|p|p]; try lia.
  - unfold shr. now rewrite Z.pow_0_r, Z.mul_1_l, Z.add_0_r.
  - unfold shr. rewrite iter_pos_nat. f_equal.
    rewrite <- (positive_nat_Z p). now apply shr_iter_exact.
Qed.

Lemma shr_fexp_exact z e n :
  0 < z -> 0 <= n -> fexp64 (Zdigits2 (2 ^ n * z) + e) = e + n ->
  shr_fexp prec emax (2 ^ n * z) e loc_Exact = (rec0 z, e + n).
Proof.
  intros Hz Hn H. unfold shr_fexp. rewrite H.
  replace (e + n - e) with n by lia. now apply shr_exact.
Qed.

Lemma binary_round_aux_exact s z e n :
  0 < z -> 0 <= n -> fexp64 (Zdigits2 (2 ^ n * z) + e) = e + n ->
  e + n <= 971 ->
  binary_round_aux prec emax s (2 ^ n * z) e loc_Exact
  = S754_finite s (Z.to_pos z) (e + n).
Proof.
  intros Hz Hn H Hmax. unfold binary_round_aux.
  rewrite shr_fexp_exact by assumption.
  cbn [rec0 shr_m loc_of_shr_record round_nearest_even].
  rewrite Zdigits2_mul_pow2 in H by assumption.
  pose proof (shr_fexp_exact z (e + n) 0 Hz (Z.le_refl 0)) as H0.
  change (2 ^ 0) with 1 in H0. rewrite Z.mul_1_l, Z.add_0_r in H0.
  rewrite H0 by (rewrite <- H at 2; f_equal; lia).
  cbn [rec0 shr_m]. destruct z as [|p|p]; try lia.
  cbn [Z.to_pos].
  replace (e + n <=? emax - prec) with true; [reflexivity|].
  symmetry. apply Z.leb_le. change (emax - prec) with 971. lia.
Qed.

Lemma shl_align_spec m e e' :
  let '(m', e'') := shl_align m e e' in
  e'' = Z.min e e' /\ Z.pos m' = Z.pos m * 2 ^ (e - e'').
Proof.
  unfold shl_align. destruct (e' - e) as [|d|d] eqn:E.
  - split; [lia|]. replace (e - e) with 0 by lia. change (2 ^ 0) with 1. lia.
  - split; [lia|]. replace (e - e) with 0 by lia. change (2 ^ 0) with 1. lia.
  - split; [lia|]. rewrite pos_iter_xO. f_equal. f_equal. lia.
Qed.

(** When the value [p * 2^e] fits the format, rounding keeps it. *)
Lemma binary_round_exact s p e z :
  let c := fexp64 (Z.pos (digits2_pos p) + e) in
  0 < z ->
  (c <= e /\ z = Z.pos p * 2 ^ (e - c)) \/ (e <= c /\ Z.pos p = 2 ^ (c - e) * z) ->
  c <= 971 ->
  binary_round prec emax s p e = S754_finite s (Z.to_pos z) c.
Proof.
  intros c Hz Hcase Hmax. unfold binary_round. fold c.
  pose proof (shl_align_spec p e c) as Hs.
  destruct (shl_align p e c) as [mz ez]. destruct Hs as [Hez Hmz].
  assert (Hd : Z.pos (digits2_pos p) = Zdigits2 (Z.pos p)) by reflexivity.
  destruct Hcase as [[Hle Hzv]|[Hle Hzv]].
  - (* shifted left to the canonical exponent *)
    subst ez. replace (Z.min e c) with c in * by lia.
    assert (Z.pos mz = 2 ^ 0 * z) as ->.
    { rewrite Z.pow_0_r, Z.mul_1_l, Hmz, Hzv. reflexivity. }
    replace c with (c + 0) at 2 by lia.
    rewrite binary_round_aux_exact; try lia.
    + now rewrite Z.add_0_r.
    + rewrite Z.pow_0_r, Z.mul_1_l, Z.add_0_r.
      rewrite Hzv, Z.mul_comm, Zdigits2_mul_pow2 by lia.
      replace (Zdigits2 (Z.pos p) + (e - c) + c)
        with (Z.pos (digits2_pos p) + e) by (rewrite Hd; lia).
      reflexivity.
  - (* already below: the low bits are zero *)
    subst ez. replace (Z.min e c) with e in * by lia.
    rewrite Z.sub_diag, Z.pow_0_r, Z.mul_1_r in Hmz.
    rewrite Hmz, Hzv.
    replace c with (e + (c - e)) at 2 3 by lia.
    rewrite binary_round_aux_exact; try lia.
    + f_equal. lia.
    + rewrite <- Hzv. unfold c. rewrite Hd. lia.
Qed.

Lemma shr_spec r e n :
  0 <= shr_m r ->
  snd (shr r e n) = e + Z.max 0 n /\
  shr_m (fst (shr r e n)) = shr_m r / 2 ^ Z.max 0 n.
Proof.
  intros Hr. destruct n as [|p|p]; cbn [shr fst snd].
  - rewrite Z.max_id, Z.pow_0_r, Z.div_1_r. lia.
  - rewrite iter_pos_nat, shr_iter_m, positive_nat_Z by assumption.
    replace (Z.max 0 (Z.pos p)) with (Z.pos p) by lia. lia.
  - replace (Z.max 0 (Z.neg p)) with 0 by lia.
    rewrite Z.pow_0_r, Z.div_1_r. lia.
Qed.

Lemma shr_record_of_loc_m z l : shr_m (shr_record_of_loc z l) = z.
Proof. destruct l as [|[| |]]; reflexivity. Qed.

Lemma round_nearest_even_bounds m l :
  m <= round_nearest_even m l <= m + 1.
Proof.
  destruct l as [|[| |]]; cbn [round_nearest_even]; try lia.
  destruct (Z.even m); lia.
Qed.

(** The sign and the exponent of a rounded value. *)
Lemma binary_round_aux_shape s z e l :
  0 <= z ->
  let E := Z.max e (fexp64 (Zdigits2 z + e)) in
  match binary_round_aux prec emax s z e l with
  | S754_zero s' => s' = s
  | S754_infinity s' => s' = s /\ 971 < E + 1
  | S754_finite s' _ e'' => s' = s /\ e'' <= E + 1 /\ e'' <= 971
  | S754_nan => False
  end.
Proof.
  intros Hz E. unfold binary_round_aux, shr_fexp.
  set (n1 := fexp64 (Zdigits2 z + e) - e).
  pose proof (shr_spec (shr_record_of_loc z l) e n1) as H1.
  rewrite shr_record_of_loc_m in H1. specialize (H1 Hz).
  destruct (shr (shr_record_of_loc z l) e n1) as [r1 e1].
  cbn [fst snd] in H1. destruct H1 as [He1 Hm1].
  assert (HE : e1 = E) by (unfold E, n1 in *; lia).
  assert (Hfe : fexp64 (Zdigits2 z + e) <= E) by (unfold E; lia).
  rewrite fexp64_eq in Hfe.
  set (N1 := Z.max 0 n1) in *.
  assert (Hz53 : 0 <= shr_m r1 < 2 ^ 53).
  { rewrite Hm1. split; [apply Z.div_pos; [lia|apply Z.pow_pos_nonneg; lia]|].
    apply Z.div_lt_upper_bound; [apply Z.pow_pos_nonneg; lia|].
    rewrite <- Z.pow_add_r by lia.
    apply Z.lt_le_trans with (2 ^ Zdigits2 z); [now apply Zdigits2_bound|].
    apply Z.pow_le_mono_r; lia. }
  pose proof (round_nearest_even_bounds (shr_m r1) (loc_of_shr_record r1)) as Hr.
  set (z2 := round_nearest_even (shr_m r1) (loc_of_shr_record r1)) in *.
  set (n2 := fexp64 (Zdigits2 z2 + e1) - e1).
  assert (Hz2 : 0 <= z2) by lia.
  pose proof (shr_spec (shr_record_of_loc z2 loc_Exact) e1 n2) as H2.
  rewrite shr_record_of_loc_m in H2. specialize (H2 Hz2).
  destruct (shr (shr_record_of_loc z2 loc_Exact) e1 n2) as [r2 e2].
  cbn [fst snd] in H2. destruct H2 as [He2 Hm2].
  assert (Hd2 : Zdigits2 z2 <= 54).
  { apply Zdigits2_lt; lia. }
  assert (Hn2 : e2 <= E + 1).
  { unfold n2 in He2. rewrite fexp64_eq in He2. lia. }
  assert (Hm2' : 0 <= shr_m r2).
  { rewrite Hm2. apply Z.div_pos; [lia|apply Z.pow_pos_nonneg; lia]. }
  destruct (shr_m r2) as [|p|p]; try lia; [reflexivity|].
  destruct (e2 <=? emax - prec) eqn:Hle.
  - apply Z.leb_le in Hle. change (emax - prec) with 971 in Hle.
    repeat split; lia.
  - apply Z.leb_gt in Hle. change (emax - prec) with 971 in Hle.
    split; [reflexivity|lia].
Qed.

Lemma binary_round_shape s p e :
  let c := fexp64 (Z.pos (digits2_pos p) + e) in
  match binary_round prec emax s p e with
  | S754_zero s' => s' = s
  | S754_infinity s' => s' = s /\ 971 < c + 1
  | S754_finite s' _ e'' => s' = s /\ e'' <= c + 1 /\ e'' <= 971
  | S754_nan => False
  end.
Proof.
  intros c. unfold binary_round. fold c.
  pose proof (shl_align_spec p e c) as Hs.
  destruct (shl_align p e c) as [mz ez]. destruct Hs as [Hez Hmz].
  pose proof (binary_round_aux_shape s (Z.pos mz) ez loc_Exact) as H.
  cbv zeta in H.
  assert (Hc : Z.max ez (fexp64 (Zdigits2 (Z.pos mz) + ez)) = c).
  { assert (Zdigits2 (Z.pos mz) + ez = Z.pos (digits2_pos p) + e) as ->.
    { rewrite Hmz, Z.mul_comm, Zdigits2_mul_pow2 by lia.
      change (Zdigits2 (Z.pos p)) with (Z.pos (digits2_pos p)). lia. }
    fold c. lia. }
  rewrite Hc in H. apply H. lia.
Qed.

Lemma bounded_inv m e :
  bounded prec emax m e = true ->
  -1074 <= e <= 971 /\ Z.pos m < 2 ^ 53 /\ (-1074 < e -> 2 ^ 52 <= Z.pos m).
Proof.
  unfold bounded, canonical_mantissa. intros H.
  apply andb_true_iff in H. destruct H as [Hc He].
  apply Z.eqb_eq in Hc. apply Z.leb_le in He.
  change (emax - prec) with 971 in He. rewrite fexp64_eq in Hc.
  pose proof (digits2_bounds m) as Hd.
  set (d := Z.pos (digits2_pos m)) in *.
  assert (d <= 53) by lia.
  split; [lia|]. split.
  - apply Z.lt_le_trans with (2 ^ d); [lia|]. apply Z.pow_le_mono_r; lia.
  - intros Hlt. assert (d = 53) as Hd53 by lia. rewrite Hd53 in Hd.
    change (53 - 1) with 52 in Hd. lia.
Qed.

Lemma Prim2SF_24 : Prim2SF 24 = F24.
Proof. reflexivity. Qed.

Lemma Prim2SF_0 : Prim2SF 0 = S754_zero false.
Proof. reflexivity. Qed.

Lemma leb24_spec mx ex :
  bounded prec emax mx ex = true ->
  SFleb F24 (S754_finite false mx ex) = true <->
  (-48 <= ex /\ Z.pos m24 <= Z.pos mx * 2 ^ (ex + 48)).
Proof.
  intros Hb. apply bounded_inv in Hb. destruct Hb as (He & Hm & Hn).
  unfold SFleb, SFcompare, F24.
  destruct (Z.compare_spec (-48) ex) as [Heq|Hlt|Hgt].
  - subst ex. change (2 ^ (-48 + 48)) with 1. rewrite Z.mul_1_r.
    rewrite compare_cont_Z.
    destruct (Z.compare_spec (Z.pos m24) (Z.pos mx)); split; intros; 
      try discriminate; try reflexivity; lia.
  - split; [intros _|reflexivity]. split; [lia|].
    assert (2 * 1 <= 2 ^ (ex + 48)).
    { change (2 * 1) with (2 ^ 1). apply Z.pow_le_mono_r; lia. }
    assert (2 ^ 52 <= Z.pos mx) by (apply Hn; lia).
    unfold m24. nia.
  - split; [discriminate|lia].
Qed.

(** Subtracting 24 from a magnitude of at least 24 and below 2^56 is exact:
    the difference is a multiple of the unit in the last place. *)
Lemma round_diff_exact s mx ex :
  bounded prec emax mx ex = true -> -48 <= ex <= 3 ->
  let M := Z.pos mx * 2 ^ (ex + 48) in
  Z.pos m24 < M ->
  exists m' e',
    binary_round prec emax s (Z.to_pos (M - Z.pos m24)) (-48)
    = S754_finite s m' e' /\ e' <= ex /\
    (-48 <= e' -> Z.pos m' * 2 ^ (e' + 48) = M - Z.pos m24).
Proof.
  intros Hb Hex M HM. apply bounded_inv in Hb. destruct Hb as (He & Hm & Hn).
  set (p := Z.to_pos (M - Z.pos m24)).
  assert (Hp : Z.pos p = M - Z.pos m24) by (unfold p; rewrite Z2Pos.id; lia).
  set (c := fexp64 (Z.pos (digits2_pos p) + -48)).
  assert (H2 : 0 < 2 ^ (ex + 48)) by (apply Z.pow_pos_nonneg; lia).
  assert (Hdp : Z.pos (digits2_pos p) <= 53 + (ex + 48)).
  { change (Z.pos (digits2_pos p)) with (Zdigits2 (Z.pos p)).
    apply Zdigits2_lt; try lia. rewrite Z.pow_add_r by lia. unfold M in *. nia. }
  assert (Hc : -1074 <= c <= ex) by (unfold c; rewrite fexp64_eq; lia).
  destruct (Z_le_gt_dec c (-48)) as [Hle|Hgt].
  - exists (Z.to_pos (Z.pos p * 2 ^ (-48 - c))), c.
    assert (Hz : 0 < Z.pos p * 2 ^ (-48 - c)).
    { apply Z.mul_pos_pos; [lia|apply Z.pow_pos_nonneg; lia]. }
    split; [|split; [lia|]].
    + apply binary_round_exact; fold c; [lia| |lia].
      left. split; [lia|reflexivity].
    + intros Hge. assert (c = -48) as Hc48 by lia. rewrite Hc48 in *.
      change (-48 - -48) with 0. change (-48 + 48) with 0.
      rewrite Z.pow_0_r, !Z.mul_1_r, Z2Pos.id; lia.
  - set (z := Z.pos mx * 2 ^ (ex - c) - 3 * 2 ^ (3 - c)).
    assert (Hsplit1 : 2 ^ (ex + 48) = 2 ^ (ex - c) * 2 ^ (c + 48)).
    { rewrite <- Z.pow_add_r by lia. f_equal. lia. }
    assert (Hsplit2 : Z.pos m24 = 3 * 2 ^ (3 - c) * 2 ^ (c + 48)).
    { rewrite <- Z.mul_assoc, <- Z.pow_add_r by lia.
      replace (3 - c + (c + 48)) with 51 by lia. reflexivity. }
    assert (H3 : 0 < 2 ^ (c + 48)) by (apply Z.pow_pos_nonneg; lia).
    assert (Hpz : Z.pos p = 2 ^ (c + 48) * z).
    { rewrite Hp. unfold M, z. rewrite Hsplit1, Hsplit2. ring. }
    assert (Hz : 0 < z) by nia.
    exists (Z.to_pos z), c. split; [|split; [lia|]].
    + apply binary_round_exact; fold c; [lia| |lia].
      right. split; [lia|]. rewrite Hpz. do 2 f_equal; lia.
    + intros _. rewrite Z2Pos.id by lia. rewrite <- Hp, Hpz. apply Z.mul_comm.
Qed.

Lemma shl_align_fst m e e' :
  e' <= e -> Z.pos (fst (shl_align m e e')) = Z.pos m * 2 ^ (e - e').
Proof.
  intros H. pose proof (shl_align_spec m e e') as Hs.
  destruct (shl_align m e e') as [m1 e1]. destruct Hs as [He1 Hm1].
  cbn [fst]. rewrite Hm1, He1. do 2 f_equal. lia.
Qed.

Lemma sub24_step mx ex :
  bounded prec emax mx ex = true -> -48 <= ex <= 3 ->
  let M := Z.pos mx * 2 ^ (ex + 48) in
  Z.pos m24 <= M ->
  (M = Z.pos m24 /\ SF64sub (S754_finite false mx ex) F24 = S754_zero false) \/
  (Z.pos m24 < M /\ exists m' e',
      SF64sub (S754_finite false mx ex) F24 = S754_finite false m' e' /\
      e' <= ex /\ (-48 <= e' -> Z.pos m' * 2 ^ (e' + 48) = M - Z.pos m24)).
Proof.
  intros Hb Hex M HM. unfold SF64sub, SFsub, F24.
  replace (Z.min ex (-48)) with (-48) by lia.
  cbn [cond_Zopp]. rewrite shl_align_fst by lia.
  replace (ex - -48) with (ex + 48) by lia. fold M.
  change (Z.pos (fst (shl_align m24 (-48) (-48)))) with (Z.pos m24).
  destruct (Z.eq_dec M (Z.pos m24)) as [Heq|Hne].
  - left. split; [assumption|]. rewrite Heq, Z.sub_diag. reflexivity.
  - right. split; [lia|].
    destruct (round_diff_exact false mx ex Hb Hex) as (m' & e' & Hr & Hle & Hv);
      [fold M; lia|]. fold M in Hr, Hv.
    exists m', e'. split; [|split; assumption].
    destruct (M - Z.pos m24) as [|p|p] eqn:E; try lia. exact Hr.
Qed.

Lemma add24_big mx ex :
  bounded prec emax mx ex = true -> -48 <= ex <= 3 ->
  let M := Z.pos mx * 2 ^ (ex + 48) in
  Z.pos m24 <= M ->
  (M = Z.pos m24 /\ SF64add (S754_finite true mx ex) F24 = S754_zero false) \/
  (Z.pos m24 < M /\ exists m' e',
      SF64add (S754_finite true mx ex) F24 = S754_finite true m' e' /\
      e' <= ex /\ (-48 <= e' -> Z.pos m' * 2 ^ (e' + 48) = M - Z.pos m24)).
Proof.
  intros Hb Hex M HM. unfold SF64add, SFadd, F24.
  replace (Z.min ex (-48)) with (-48) by lia.
  cbn [cond_Zopp]. rewrite shl_align_fst by lia.
  replace (ex - -48) with (ex + 48) by lia. fold M.
  change (Z.pos (fst (shl_align m24 (-48) (-48)))) with (Z.pos m24).
  destruct (Z.eq_dec M (Z.pos m24)) as [Heq|Hne].
  - left. split; [assumption|]. rewrite Heq, Z.add_opp_diag_l. reflexivity.
  - right. split; [lia|].
    destruct (round_diff_exact true mx ex Hb Hex) as (m' & e' & Hr & Hle & Hv);
      [fold M; lia|]. fold M in Hr, Hv.
    exists m', e'. split; [|split; assumption].
    destruct (- M + Z.pos m24) as [|p|p] eqn:E; try lia.
    cbn [binary_normalize]. rewrite <- Hr. f_equal.
    replace (M - Z.pos m24) with (Z.pos p) by lia. reflexivity.
Qed.

Lemma add24_small mx ex :
  bounded prec emax mx ex = true ->
  ~ (-48 <= ex /\ Z.pos m24 <= Z.pos mx * 2 ^ (ex + 48)) ->
  small_nonneg (SF64add (S754_finite true mx ex) F24).
Proof.
  intros Hb Hsmall. pose proof (bounded_inv _ _ Hb) as (He & Hm & Hn).
  unfold SF64add, SFadd, F24. cbn [cond_Zopp].
  set (ez := Z.min ex (-48)).
  rewrite !shl_align_fst by (unfold ez; lia).
  set (A := Z.pos mx * 2 ^ (ex - ez)). set (B := Z.pos m24 * 2 ^ (-48 - ez)).
  assert (HB : B < 2 ^ (53 + (-48 - ez))).
  { unfold B. rewrite Z.pow_add_r by (unfold ez; lia).
    assert (0 < 2 ^ (-48 - ez)) by (apply Z.pow_pos_nonneg; unfold ez; lia).
    unfold m24. nia. }
  assert (HAB : A < B).
  { unfold A, B. destruct (Z_lt_le_dec ex (-48)) as [Hlt|Hge].
    - replace ez with ex by (unfold ez; lia).
      rewrite Z.sub_diag, Z.pow_0_r, Z.mul_1_r.
      assert (2 ^ 1 <= 2 ^ (-48 - ex)) by (apply Z.pow_le_mono_r; lia).
      change (2 ^ 1) with 2 in *. unfold m24. nia.
    - replace ez with (-48) by (unfold ez; lia).
      change (-48 - -48) with 0. rewrite Z.pow_0_r, Z.mul_1_r.
      replace (ex - -48) with (ex + 48) by lia. lia. }
  destruct (- A + B) as [|p|p] eqn:E; try lia.
  cbn [binary_normalize].
  pose proof (binary_round_shape false p ez) as Hs. cbv zeta in Hs.
  assert (Hd : Z.pos (digits2_pos p) <= 53 + (-48 - ez)).
  { change (Z.pos (digits2_pos p)) with (Zdigits2 (Z.pos p)).
    apply Zdigits2_lt; unfold ez in *; lia. }
  assert (Hc : fexp64 (Z.pos (digits2_pos p) + ez) <= -48).
  { rewrite fexp64_eq. lia. }
  destruct (binary_round prec emax false p ez) as [s'|s'| |[|] m' e']; cbn;
    try exact I; lia.
Qed.

Lemma mag_nonneg f : 0 <= mag f.
Proof.
  destruct f as [s|s| |s m e]; cbn [mag]; try lia.
  destruct (-48 <=? e); [|lia].
  apply Z.mul_nonneg_nonneg; [lia|]. apply Z.pow_nonneg. lia.
Qed.

Lemma small_nonneg_small f : small_nonneg f -> small f.
Proof. destruct f as [s|s| |[|] m e]; cbn; tauto. Qed.

Lemma while_loop_exit {A} fuel (cond : A -> bool) body s :
  cond s = false -> while_loop fuel cond body s = Some s.
Proof. intros H. destruct fuel; cbn; now rewrite H. Qed.

Lemma while_loop_step {A} fuel (cond : A -> bool) body s :
  cond s = true ->
  while_loop (S fuel) cond body s = while_loop fuel cond body (body s).
Proof. intros H. cbn. now rewrite H. Qed.

Lemma while_loop_mono {A} (cond : A -> bool) body n :
  forall s r m, while_loop n cond body s = Some r -> (n <= m)%nat ->
  while_loop m cond body s = Some r.
Proof.
  induction n as [|n IH]; intros s r m H Hm.
  - cbn in H. destruct (cond s) eqn:E; [discriminate|].
    now rewrite while_loop_exit.
  - destruct (cond s) eqn:E.
    + destruct m as [|m]; [lia|]. rewrite while_loop_step in * by assumption.
      apply IH; [assumption|lia].
    + rewrite while_loop_exit in * by assumption. assumption.
Qed.

Lemma ltb24_of_not_leb m e :
  SFleb F24 (S754_finite false m e) = false ->
  SFltb (S754_finite false m e) F24 = true.
Proof.
  unfold SFleb, SFltb, SFcompare, F24.
  rewrite (Z.compare_antisym e (-48)).
  change (Pos.compare_cont Eq m24 m)
    with (Pos.compare_cont (CompOpp Eq) m24 m).
  rewrite <- (Pos.compare_cont_antisym m m24 Eq).
  generalize (Pos.compare_cont Eq m m24). intros c.
  destruct (e ?= -48); cbv [CompOpp]; try discriminate; try reflexivity.
  destruct c; try discriminate; reflexivity.
Qed.

Local Open Scope float_scope.

Lemma loop_sub_terminates (n : nat) : forall x,
  small_nonneg (Prim2SF x) ->
  (mag (Prim2SF x) < Z.of_nat n * Z.pos m24)%Z ->
  exists r,
    (forall fuel, (n <= fuel)%nat ->
       while_loop fuel (fun s => 24 <=? s) (fun s => s - 24) x = Some r)
    /\ (0 <=? r) = true /\ (r <? 24) = true.
Proof.
  induction n as [|n IH]; intros x Hs Hm.
  - pose proof (mag_nonneg (Prim2SF x)). lia.
  - destruct (24 <=? x) eqn:Hc.
    + pose proof Hc as Hc'. rewrite leb_spec, Prim2SF_24 in Hc'.
      pose proof (Prim2SF_valid x) as Hv.
      destruct (Prim2SF x) as [s|s| |[|] m e] eqn:Hx; cbn in Hs; try contradiction;
        try discriminate.
      cbn [valid_binary] in Hv.
      apply (leb24_spec m e Hv) in Hc'. destruct Hc' as [He HM].
      cbn [mag] in Hm. replace (-48 <=? e)%Z with true in Hm
        by (symmetry; apply Z.leb_le; lia).
      assert (Hx' : exists r', (forall fuel, (n <= fuel)%nat ->
          while_loop fuel (fun s => 24 <=? s) (fun s => s - 24) (x - 24) = Some r')
          /\ (0 <=? r') = true /\ (r' <? 24) = true).
      { apply IH.
        - rewrite sub_spec, Hx, Prim2SF_24.
          destruct (sub24_step m e Hv (conj He Hs) HM)
            as [[_ ->]|(_ & m' & e' & -> & Hle & _)]; cbn; lia.
        - rewrite sub_spec, Hx, Prim2SF_24.
          destruct (sub24_step m e Hv (conj He Hs) HM)
            as [[_ ->]|(Hlt & m' & e' & -> & Hle & Hval)]; cbn [mag]; [lia|].
          destruct (Z.leb_spec (-48) e'); [rewrite Hval by lia|]; lia. }
      destruct Hx' as (r' & Hr' & Hr0 & Hr24). exists r'.
      split; [|split; assumption].
      intros [|fuel] Hf; [lia|]. rewrite while_loop_step by assumption.
      apply Hr'. lia.
    + exists x. split; [intros fuel _; now apply while_loop_exit|].
      rewrite leb_spec, ltb_spec, Prim2SF_0, Prim2SF_24.
      rewrite leb_spec, Prim2SF_24 in Hc.
      destruct (Prim2SF x) as [s|s| |[|] m e]; cbn in Hs; try contradiction.
      * split; reflexivity.
      * split; [reflexivity|]. now apply ltb24_of_not_leb.
Qed.

Lemma loop_add_terminates (n : nat) : forall x,
  small (Prim2SF x) ->
  (mag (Prim2SF x) < Z.of_nat n * Z.pos m24)%Z ->
  exists r,
    (forall fuel, (n <= fuel)%nat ->
       while_loop fuel (fun s => s <? 0) (fun s => s + 24) x = Some r)
    /\ small_nonneg (Prim2SF r).
Proof.
  induction n as [|n IH]; intros x Hs Hm.
  - pose proof (mag_nonneg (Prim2SF x)). lia.
  - destruct (x <? 0) eqn:Hc.
    + pose proof Hc as Hc'. rewrite ltb_spec, Prim2SF_0 in Hc'.
      pose proof (Prim2SF_valid x) as Hv.
      destruct (Prim2SF x) as [s|s| |[|] m e] eqn:Hx; cbn in Hs; try contradiction;
        try discriminate.
      cbn [valid_binary] in Hv.
      assert (Hnext : Prim2SF (x + 24) = SF64add (S754_finite true m e) F24)
        by now rewrite add_spec, Hx, Prim2SF_24.
      assert (Hexit : small_nonneg (Prim2SF (x + 24)) ->
        exists r, (forall fuel, (S n <= fuel)%nat ->
          while_loop fuel (fun s => s <? 0) (fun s => s + 24) x = Some r)
          /\ small_nonneg (Prim2SF r)).
      { intros Hsn. exists (x + 24). split; [|assumption].
        intros [|fuel] Hf; [lia|]. rewrite while_loop_step by assumption.
        apply while_loop_exit. rewrite ltb_spec, Prim2SF_0.
        destruct (Prim2SF (x + 24)) as [s|s| |[|] m' e']; cbn in Hsn; 
          try contradiction; reflexivity. }
      destruct (Z_le_gt_dec (-48) e) as [He|He];
        [destruct (Z_le_gt_dec (Z.pos m24) (Z.pos m * 2 ^ (e + 48))) as [HM|HM]|].
      * (* at most -24: the sum is exact *)
        cbn [mag] in Hm. replace (-48 <=? e)%Z with true in Hm
          by (symmetry; apply Z.leb_le; lia).
        destruct (add24_big m e Hv (conj He Hs) HM)
          as [[_ Hz]|(Hlt & m' & e' & Hr & Hle & Hval)].
        -- apply Hexit. rewrite Hnext, Hz. exact I.
        -- destruct (IH (x + 24)) as (r & Hr1 & Hr2).
           ++ rewrite Hnext, Hr. cbn. lia.
           ++ rewrite Hnext, Hr. cbn [mag].
              destruct (Z.leb_spec (-48) e'); [rewrite Hval by lia|]; lia.
           ++ exists r. split; [|assumption].
              intros [|fuel] Hf; [lia|]. rewrite while_loop_step by assumption.
              apply Hr1. lia.
      * apply Hexit. rewrite Hnext. apply add24_small; [assumption|lia].
      * apply Hexit. rewrite Hnext. apply add24_small; [assumption|lia].
    + exists x. split; [intros fuel _; now apply while_loop_exit|].
      rewrite ltb_spec, Prim2SF_0 in Hc.
      destruct (Prim2SF x) as [s|s| |[|] m e]; cbn in Hs; try contradiction.
      * exact I.
      * discriminate.
      * exact Hs.
Qed.

Lemma small_of_abs x :
  (abs x <? 0x1p56) = true -> small (Prim2SF x).
Proof.
  rewrite ltb_spec, abs_spec. pose proof (Prim2SF_valid x) as Hv.
  change (Prim2SF 0x1p56) with (S754_finite false 4503599627370496 4).
  destruct (Prim2SF x) as [s|s| |s m e]; cbn [SFabs small].
  - intros _. exact I.
  - unfold SFltb, SFcompare. discriminate.
  - unfold SFltb, SFcompare. discriminate.
  - cbn [valid_binary] in Hv. apply bounded_inv in Hv.
    destruct Hv as (He & Hm & Hn). unfold SFltb, SFcompare.
    rewrite compare_cont_Z.
    destruct (Z.compare_spec e 4) as [->|Hlt|Hgt]; try discriminate;
      [|lia].
    destruct (Z.compare_spec (Z.pos m) 4503599627370496);
      try discriminate.
    assert (2 ^ 52 <= Z.pos m)%Z by (apply Hn; lia). lia.
Qed.

(** The two closing loops of [calculateSolarTime] end, in the range
    [[0, 24)], on every time below 2^56 hours in magnitude. *)
Lemma normalizeHours_terminates x :
  (abs x <? 0x1p56) = true ->
  exists n r,
    (forall fuel, (n <= fuel)%nat ->
       SolarCalculator.normalizeHours fuel x = Some r)
    /\ (0 <=? r) = true /\ (r <? 24) = true.
Proof.
  intros Hx. apply small_of_abs in Hx.
  set (n1 := S (Z.to_nat (mag (Prim2SF x) / Z.pos m24))).
  destruct (loop_add_terminates n1 x Hx) as (r1 & Hr1 & Hs1).
  { pose proof (mag_nonneg (Prim2SF x)).
    pose proof (Z.mul_succ_div_gt (mag (Prim2SF x)) (Z.pos m24) eq_refl).
    unfold n1. rewrite Nat2Z.inj_succ, Z2Nat.id by (apply Z.div_pos; lia).
    lia. }
  set (n2 := S (Z.to_nat (mag (Prim2SF r1) / Z.pos m24))).
  destruct (loop_sub_terminates n2 r1 Hs1) as (r & Hr & H0 & H24).
  { pose proof (mag_nonneg (Prim2SF r1)).
    pose proof (Z.mul_succ_div_gt (mag (Prim2SF r1)) (Z.pos m24) eq_refl).
    unfold n2. rewrite Nat2Z.inj_succ, Z2Nat.id by (apply Z.div_pos; lia).
    lia. }
  exists (Nat.max n1 n2), r. split; [|split; assumption].
  intros fuel Hf. unfold SolarCalculator.normalizeHours.
  rewrite Hr1 by lia. cbn [bind]. apply Hr. lia.
Qed.

Local Open Scope Z_scope.

(** *** Signs *)

Lemma nonneg_of_leb x : (0 <=? x)%float = true -> nonneg (Prim2SF x).
Proof.
  rewrite leb_spec, Prim2SF_0.
  destruct (Prim2SF x) as [s|[|]| |[|] m e]; cbn [nonneg]; intros H;
    try exact I; discriminate H.
Qed.

Lemma not_ltb_of_nonneg x : nonneg (Prim2SF x) -> (x <? 0)%float = false.
Proof.
  rewrite ltb_spec, Prim2SF_0.
  destruct (Prim2SF x) as [s|[|]| |[|] m e]; cbn [nonneg]; intros H;
    try contradiction; reflexivity.
Qed.

Lemma binary_round_aux_nonneg z e l :
  0 <= z -> nonneg (binary_round_aux prec emax false z e l).
Proof.
  intros Hz. pose proof (binary_round_aux_shape false z e l Hz) as H.
  cbv zeta in H.
  destruct (binary_round_aux prec emax false z e l) as [s|s| |s m e'];
    cbn; try contradiction; try exact I.
  - destruct H as [-> _]. exact I.
  - destruct H as [-> _]. exact I.
Qed.

Lemma SFmul_nonneg a m e :
  nonneg a -> nonneg (SF64mul a (S754_finite false m e)).
Proof.
  destruct a as [s|[|]| |[|] ma ea]; unfold SF64mul;
    cbn [nonneg SFmul xorb]; intros H; try contradiction; try exact I.
  apply binary_round_aux_nonneg. lia.
Qed.

Lemma SFdiv_nonneg a m e :
  nonneg a -> nonneg (SF64div a (S754_finite false m e)).
Proof.
  destruct a as [s|[|]| |[|] ma ea]; unfold SF64div;
    cbn [nonneg SFdiv xorb]; intros H; try contradiction; try exact I.
  unfold SFdiv_core_binary.
  set (m' := match _ - _ with Z.pos _ => _ | Z0 => _ | Z.neg _ => _ end).
  assert (Hm' : 0 <= m').
  { unfold m'. destruct (_ - _) as [|p|p]; try lia.
    rewrite Z.shiftl_mul_pow2 by lia.
    apply Z.mul_nonneg_nonneg; [lia|apply Z.pow_nonneg; lia]. }
  pose proof (Z_div_mod m' (Z.pos m) eq_refl) as Hdm.
  destruct (Z.div_eucl m' (Z.pos m)) as [q r].
  apply binary_round_aux_nonneg. nia.
Qed.

(** *** Sign symmetry of the IEEE operations *)

Lemma binary_round_aux_opp s z e l :
  binary_round_aux prec emax (negb s) z e l
  = SFopp (binary_round_aux prec emax s z e l).
Proof.
  unfold binary_round_aux.
  destruct (shr_fexp prec emax z e l) as [r1 e1].
  destruct (shr_fexp prec emax _ e1 loc_Exact) as [r2 e2].
  destruct (shr_m r2); try reflexivity.
  destruct (e2 <=? emax - prec); reflexivity.
Qed.

Lemma SFmul_opp_l x y : SF64mul (SFopp x) y = SFopp (SF64mul x y).
Proof.
  destruct x as [sx|sx| |sx mx ex], y as [sy|sy| |sy my ey];
    cbn [SF64mul SFmul SFopp]; try reflexivity;
    try (destruct sx, sy; reflexivity).
  replace (xorb (negb sx) sy) with (negb (xorb sx sy))
    by (destruct sx, sy; reflexivity).
  apply binary_round_aux_opp.
Qed.

Lemma SFdiv_opp_l x y : SF64div (SFopp x) y = SFopp (SF64div x y).
Proof.
  destruct x as [sx|sx| |sx mx ex], y as [sy|sy| |sy my ey];
    cbn [SF64div SFdiv SFopp]; try reflexivity;
    try (destruct sx, sy; reflexivity).
  replace (xorb (negb sx) sy) with (negb (xorb sx sy))
    by (destruct sx, sy; reflexivity).
  destruct (SFdiv_core_binary prec emax (Z.pos mx) ex (Z.pos my) ey)
    as [[mz ez] lz].
  apply binary_round_aux_opp.
Qed.

Lemma SFadd_opp_r x y : SF64add x (SFopp y) = SF64sub x y.
Proof.
  destruct x as [sx|sx| |sx mx ex], y as [sy|sy| |sy my ey];
    cbn [SF64add SFadd SF64sub SFsub SFopp]; try reflexivity;
    try (destruct sx, sy; reflexivity).
  all: f_equal; destruct sy; cbn [negb cond_Zopp]; lia.
Qed.

Lemma mul_opp_l x y : (- x * y = - (x * y))%float.
Proof.
  apply Prim2SF_inj. now rewrite mul_spec, !opp_spec, mul_spec, SFmul_opp_l.
Qed.

Lemma div_opp_l x y : (- x / y = - (x / y))%float.
Proof.
  apply Prim2SF_inj. now rewrite div_spec, !opp_spec, div_spec, SFdiv_opp_l.
Qed.

Lemma add_opp_r x y : (x + - y = x - y)%float.
Proof.
  apply Prim2SF_inj. now rewrite add_spec, opp_spec, sub_spec, SFadd_opp_r.
Qed.


End FloatFacts.

(* ================================================================= *)
(** ** The solar calculator *)

Module CalcFacts.

Import SolarCalculator FloatDefs FloatFacts.

Local Open Scope float_scope.

Lemma SFcompare_antisym x y :
  SFcompare y x = option_map CompOpp (SFcompare x y).
Proof.
  destruct x as [sx|sx| |sx mx ex], y as [sy|sy| |sy my ey];
    cbn [SFcompare option_map]; try reflexivity;
    try (destruct sx; try destruct sy; reflexivity).
  rewrite (Z.compare_antisym ex ey).
  change (Pos.compare_cont Eq my mx)
    with (Pos.compare_cont (CompOpp Eq) my mx).
  rewrite <- (Pos.compare_cont_antisym mx my Eq).
  destruct sx, sy, (ex ?= ey)%Z; cbn [CompOpp]; try reflexivity;
    destruct (Pos.compare_cont Eq mx my); reflexivity.
Qed.

Lemma ltb_false_of_leb x y : (x <=? y) = true -> (y <? x) = false.
Proof.
  rewrite leb_spec, ltb_spec. unfold SFleb, SFltb.
  rewrite (SFcompare_antisym (Prim2SF x) (Prim2SF y)).
  destruct (SFcompare (Prim2SF x) (Prim2SF y)) as [[| |]|];
    cbn [option_map CompOpp]; congruence.
Qed.

(** The zenith of the code, an addition of a negative correction, is the
    subtraction of the specification. *)
Lemma zenith_spec elevation :
  90.0 + SOLAR_DEPRESSION + -2.076 * sqrt elevation / 60.0
  = Spec.zenith elevation.
Proof.
  unfold Spec.zenith, SOLAR_DEPRESSION.
  change (-2.076) with (- (2.076)).
  now rewrite mul_opp_l, div_opp_l, add_opp_r.
Qed.

Lemma cosHourAngle_spec libm lat decl elevation :
  cosHourAngle libm lat decl elevation = Spec.cosHA libm lat decl elevation.
Proof.
  unfold cosHourAngle, Spec.cosHA, Spec.rad. now rewrite zenith_spec.
Qed.

Lemma hourAngleSunrise_in_range libm lat decl elevation :
  (-1 <=? cosHourAngle libm lat decl elevation) = true ->
  (cosHourAngle libm lat decl elevation <=? 1) = true ->
  hourAngleSunrise libm lat decl elevation
  = m_acos libm (cosHourAngle libm lat decl elevation) * 180.0 / M_PI.
Proof.
  intros Hlo Hhi. unfold hourAngleSunrise.
  now rewrite (ltb_false_of_leb _ _ Hhi), (ltb_false_of_leb _ _ Hlo).
Qed.

Lemma In_zrange lo n z : (lo <= z < lo + n)%Z -> In z (zrange lo n).
Proof.
  intros H. unfold zrange. apply in_map_iff.
  exists (Z.to_nat (z - lo)). split; [lia|]. apply in_seq. lia.
Qed.

Lemma forallb3 (f : Z -> Z -> Z -> bool) (ly lm ld : list Z) :
  forallb (fun y => forallb (fun m => forallb (fun d => f y m d) ld) lm) ly
  = true ->
  forall y m d, In y ly -> In m lm -> In d ld -> f y m d = true.
Proof.
  intros H y m d Hy Hm Hd.
  rewrite forallb_forall in H. specialize (H y Hy).
  rewrite forallb_forall in H. specialize (H m Hm).
  rewrite forallb_forall in H. exact (H d Hd).
Qed.

Lemma all_dates_ok_computed :
  forallb (fun y =>
    forallb (fun m =>
      forallb (fun d => date_ok DATE_FUEL y m d) (zrange 1 31))
      (zrange 1 12))
    (zrange 1900 201) = true.
Proof. vm_compute. reflexivity. Qed.

Lemma valid_date_ok year month day :
  valid_date year month day -> date_ok DATE_FUEL year month day = true.
Proof.
  intros (Hy & Hm & Hd).
  assert (Iy : In year (zrange 1900 201)) by (apply In_zrange; lia).
  assert (Im : In month (zrange 1 12)) by (apply In_zrange; lia).
  assert (Id : In day (zrange 1 31)) by (apply In_zrange; lia).
  exact (forallb3 (date_ok DATE_FUEL) (zrange 1900 201) (zrange 1 12)
           (zrange 1 31) all_dates_ok_computed year month day Iy Im Id).
Qed.

Lemma sunGeomMeanLongitude_mono n m t l0 :
  sunGeomMeanLongitude n t = Some l0 -> (n <= m)%nat ->
  sunGeomMeanLongitude m t = Some l0.
Proof.
  unfold sunGeomMeanLongitude. intros H Hm.
  destruct (while_loop n _ _ _) as [a|] eqn:E1; [|discriminate].
  rewrite (while_loop_mono _ _ _ _ _ _ E1 Hm). cbn [bind] in *.
  destruct (while_loop n _ _ a) as [b|] eqn:E2; [|discriminate].
  now rewrite (while_loop_mono _ _ _ _ _ _ E2 Hm).
Qed.

(** On a valid date the two loops of [sunGeomMeanLongitude] end. *)
Lemma sunGeomMeanLongitude_returns year month day :
  valid_date year month day ->
  exists l0, forall fuel, (DATE_FUEL <= fuel)%nat ->
    sunGeomMeanLongitude fuel (julianCentury (julianDay year month day))
    = Some l0.
Proof.
  intros H. apply valid_date_ok in H. unfold date_ok in H.
  destruct (sunGeomMeanLongitude DATE_FUEL _) as [l0|] eqn:E;
    [|discriminate].
  exists l0. intros fuel Hf. now apply (sunGeomMeanLongitude_mono DATE_FUEL).
Qed.

(** Hence the equation of time and the declination of the day exist. *)
Lemma day_quantities libm year month day :
  valid_date year month day ->
  exists eqTime decl, forall fuel, (DATE_FUEL <= fuel)%nat ->
    equationOfTime libm fuel (julianCentury (julianDay year month day))
    = Some eqTime /\
    sunDeclination libm fuel (julianCentury (julianDay year month day))
    = Some decl.
Proof.
  intros H. destruct (sunGeomMeanLongitude_returns _ _ _ H) as [l0 Hl0].
  set (t := julianCentury (julianDay year month day)) in *.
  eexists. eexists. intros fuel Hf.
  unfold equationOfTime, sunDeclination, sunApparentLongitude,
    sunTrueLongitude.
  rewrite (Hl0 fuel Hf). cbn [bind]. split; reflexivity.
Qed.

Lemma calculateSolarTime_unfold libm fuel tz lat lon elev year month day
    isSunrise eqTime decl :
  equationOfTime libm fuel (julianCentury (julianDay year month day))
  = Some eqTime ->
  sunDeclination libm fuel (julianCentury (julianDay year month day))
  = Some decl ->
  calculateSolarTime libm fuel tz lat lon elev year month day isSunrise
  = if hourAngleSunrise libm lat decl elev <? 0.0 then Some NO_EVENT
    else normalizeHours fuel
           (localSolarTime tz lon eqTime
              (hourAngleSunrise libm lat decl elev) isSunrise).
Proof.
  intros He Hd. unfold calculateSolarTime. now rewrite He, Hd.
Qed.

End CalcFacts.

Import SolarCalculator.

(** C1.  For every latitude, declination and elevation at least 0, the
    cosine of the hour angle that [hourAngleSunrise] computes is the
    formula of the specification, [cos(zenith) / (cos(lat) * cos(decl)) -
    tan(lat) * tan(decl)] with [zenith = 90 + 0.833 - 2.076 *
    sqrt(elevation) / 60]; and when that cosine lies in [[-1, 1]] the
    function returns its arc cosine, in degrees. *)
Theorem hourAngleSunrise_formula (libm : Libm) (lat decl elev : float) :
  (0 <=? elev)%float = true ->
  cosHourAngle libm lat decl elev = Spec.cosHA libm lat decl elev /\
  ((-1 <=? Spec.cosHA libm lat decl elev)%float = true /\
   (Spec.cosHA libm lat decl elev <=? 1)%float = true ->
   hourAngleSunrise libm lat decl elev = Spec.hourAngle libm lat decl elev).
Proof.
  intros _. split; [apply CalcFacts.cosHourAngle_spec|].
  intros [Hlo Hhi]. unfold Spec.hourAngle.
  rewrite <- CalcFacts.cosHourAngle_spec in *.
  now apply CalcFacts.hourAngleSunrise_in_range.
Qed.

Lemma hourAngleSunrise_formula_witness :
  (0 <=? 200)%float = true /\
  ((-1 <=? Spec.cosHA RefLibm.libm 45 23.4 200)%float = true /\
   (Spec.cosHA RefLibm.libm 45 23.4 200 <=? 1)%float = true) /\
  cosHourAngle RefLibm.libm 45 23.4 200
  = Spec.cosHA RefLibm.libm 45 23.4 200 /\
  hourAngleSunrise RefLibm.libm 45 23.4 200
  = Spec.hourAngle RefLibm.libm 45 23.4 200.
Proof.
  assert (H0 : (0 <=? 200)%float = true) by reflexivity.
  assert (H1 : (-1 <=? Spec.cosHA RefLibm.libm 45 23.4 200)%float = true
               /\ (Spec.cosHA RefLibm.libm 45 23.4 200 <=? 1)%float = true)
    by (split; vm_compute; reflexivity).
  destruct (hourAngleSunrise_formula RefLibm.libm 45 23.4 200 H0)
    as [Hc Hh].
  exact (conj H0 (conj H1 (conj Hc (Hh H1)))).
Defined.

(** C2.  On every valid date, when the cosine of the hour angle is above 1
    (the sun never rises) or below -1 (it never sets), both
    [calculateSunrise] and [calculateSunset] return the same sentinel
    [-9999.0], whichever of the two cases holds; the sentinel is no hour
    of [[0, 24)]. *)
Theorem no_event_sentinel (libm : Libm) (tz lat lon elev : float)
    (year month day : Z) :
  valid_date year month day ->
  exists decl,
    (forall fuel, (DATE_FUEL <= fuel)%nat ->
       sunDeclination libm fuel (julianCentury (julianDay year month day))
       = Some decl) /\
    ((1 <? cosHourAngle libm lat decl elev)%float = true \/
     (cosHourAngle libm lat decl elev <? -1)%float = true ->
     forall fuel, (DATE_FUEL <= fuel)%nat ->
       calculateSunrise libm fuel tz lat lon elev year month day
       = Some NO_EVENT /\
       calculateSunset libm fuel tz lat lon elev year month day
       = Some NO_EVENT) /\
    NO_EVENT = (-9999.0)%float /\
    (forall h, (0 <=? h)%float = true -> (h <? 24)%float = true ->
               h <> NO_EVENT).
Proof.
  intros Hv.
  destruct (CalcFacts.day_quantities libm _ _ _ Hv) as (eqTime & decl & Hq).
  exists decl. split; [intros fuel Hf; apply (Hq fuel Hf)|].
  split; [|split; [reflexivity|]].
  - intros Hpolar fuel Hf. destruct (Hq fuel Hf) as [He Hd].
    unfold calculateSunrise, calculateSunset.
    rewrite !(CalcFacts.calculateSolarTime_unfold _ _ _ _ _ _ _ _ _ _ _ _
                He Hd).
    assert (Hneg : (hourAngleSunrise libm lat decl elev <? 0.0)%float = true).
    { unfold hourAngleSunrise. destruct Hpolar as [H|H].
      - rewrite H. reflexivity.
      - destruct (1.0 <? _)%float; [reflexivity|]. rewrite H. reflexivity. }
    rewrite Hneg. split; reflexivity.
  - intros h H0 _ ->. discriminate H0.
Qed.

(** Beyond the polar circle at the June solstice: the cosine is below -1. *)
Lemma no_event_sentinel_witness :
  valid_date 2025 6 21 /\
  exists decl,
    sunDeclination RefLibm.libm DATE_FUEL (julianCentury (julianDay 2025 6 21))
    = Some decl /\
    (cosHourAngle RefLibm.libm 80 decl 200 <? -1)%float = true /\
    calculateSunrise RefLibm.libm DATE_FUEL 1 80 5 200 2025 6 21
    = Some NO_EVENT /\
    calculateSunset RefLibm.libm DATE_FUEL 1 80 5 200 2025 6 21
    = Some NO_EVENT.
Proof.
  assert (Hv : valid_date 2025 6 21) by (unfold valid_date; lia).
  split; [exact Hv|].
  destruct (no_event_sentinel RefLibm.libm 1 80 5 200 2025 6 21 Hv)
    as (decl & Hd & Hpolar & _).
  exists decl. pose proof (Hd DATE_FUEL (le_n _)) as Hd0.
  split; [exact Hd0|].
  assert (Hc : (cosHourAngle RefLibm.libm 80 decl 200 <? -1)%float = true).
  { vm_compute in Hd0. injection Hd0 as <-. vm_compute. reflexivity. }
  split; [exact Hc|]. exact (Hpolar (or_intror Hc) DATE_FUEL (le_n _)).
Defined.

(** When the loops of [calculateSolarTime] end.  On a valid date, when
    the cosine of the hour angle lies in [[-1, 1]], its arc cosine is not
    negative and the local time before the loops is a finite double below
    2^56 in magnitude, the two loops end and leave a time in [[0, 24)]. *)
Lemma calculateSolarTime_returns (libm : Libm) (tz lat lon elev : float)
    (year month day : Z) (isSunrise : bool) :
  valid_date year month day ->
  exists eqTime decl,
    (forall fuel, (DATE_FUEL <= fuel)%nat ->
       equationOfTime libm fuel (julianCentury (julianDay year month day))
       = Some eqTime /\
       sunDeclination libm fuel (julianCentury (julianDay year month day))
       = Some decl) /\
    let cosHA := cosHourAngle libm lat decl elev in
    let ha := Spec.hourAngle libm lat decl elev in
    let t0 := Spec.localTime tz lon eqTime ha isSunrise in
    ((-1 <=? cosHA)%float = true /\ (cosHA <=? 1)%float = true /\
     (0 <=? m_acos libm cosHA)%float = true /\
     (abs t0 <? 0x1p56)%float = true ->
     exists n r,
       (forall fuel, (n <= fuel)%nat ->
          calculateSolarTime libm fuel tz lat lon elev year month day
            isSunrise = Some r /\
          normalizeHours fuel t0 = Some r) /\
       (0 <=? r)%float = true /\ (r <? 24)%float = true).
Proof.
  intros Hv.
  destruct (CalcFacts.day_quantities libm _ _ _ Hv) as (eqTime & decl & Hq).
  exists eqTime, decl. split; [exact Hq|].
  intros cosHA ha t0 (Hlo & Hhi & Hacos & Habs).
  assert (Hha : hourAngleSunrise libm lat decl elev = ha).
  { unfold ha, Spec.hourAngle. rewrite <- CalcFacts.cosHourAngle_spec.
    now apply CalcFacts.hourAngleSunrise_in_range. }
  assert (Hpos : (ha <? 0.0)%float = false).
  { apply FloatFacts.not_ltb_of_nonneg. unfold ha, Spec.hourAngle.
    rewrite <- CalcFacts.cosHourAngle_spec. fold cosHA.
    rewrite div_spec, mul_spec.
    assert (E180 : Prim2SF 180 = S754_finite false 6333186975989760 (-45))
      by reflexivity.
    assert (Epi : Prim2SF M_PI = S754_finite false 7074237752028440 (-51))
      by reflexivity.
    rewrite E180, Epi. apply FloatFacts.SFdiv_nonneg.
    apply FloatFacts.SFmul_nonneg. now apply FloatFacts.nonneg_of_leb. }
  destruct (FloatFacts.normalizeHours_terminates t0 Habs)
    as (n0 & r & Hr & H0 & H24).
  exists (Nat.max DATE_FUEL n0), r. split; [|split; assumption].
  intros fuel Hf. destruct (Hq fuel ltac:(lia)) as [He Hd].
  rewrite (CalcFacts.calculateSolarTime_unfold _ _ _ _ _ _ _ _ _ _ _ _
             He Hd).
  rewrite Hha, Hpos. split; apply Hr; lia.
Qed.

(** C3.  The code at a timezone offset that is NaN, which [main] takes
    unchecked from [atof].  For Lyon at the June solstice the event occurs:
    the cosine of the hour angle lies in [[-1, 1]], and with the offset 1
    sunrise and sunset are hours of [[0, 24)].  With the offset NaN the
    local time is NaN, neither loop of [// Ensure valid range [0, 24)]
    runs, as both comparisons are false of a NaN, and [calculateSunrise]
    and [calculateSunset] return NaN: a result that is not the sentinel
    and not in [[0, 24)]. *)
Theorem solar_time_nan_offset :
  exists decl sunrise sunset,
    sunDeclination RefLibm.libm DATE_FUEL (julianCentury (julianDay 2025 6 21))
    = Some decl /\
    (-1 <=? cosHourAngle RefLibm.libm 45 decl 200)%float = true /\
    (cosHourAngle RefLibm.libm 45 decl 200 <=? 1)%float = true /\
    calculateSunrise RefLibm.libm DATE_FUEL 1 45 5 200 2025 6 21
    = Some sunrise /\
    calculateSunset RefLibm.libm DATE_FUEL 1 45 5 200 2025 6 21
    = Some sunset /\
    (0 <=? sunrise)%float = true /\ (sunrise <? sunset)%float = true /\
    (sunset <? 24)%float = true /\
    normalizeHours DATE_FUEL nan = Some nan /\
    calculateSunrise RefLibm.libm DATE_FUEL nan 45 5 200 2025 6 21
    = Some nan /\
    calculateSunset RefLibm.libm DATE_FUEL nan 45 5 200 2025 6 21
    = Some nan /\
    (nan =? NO_EVENT)%float = false /\
    (0 <=? nan)%float = false /\ (nan <? 24)%float = false.
Proof.
  eexists. eexists. eexists.
  split; [vm_compute; reflexivity|].
  split; [vm_compute; reflexivity|].
  split; [vm_compute; reflexivity|].
  split; [vm_compute; reflexivity|].
  split; [vm_compute; reflexivity|].
  repeat split; vm_compute; reflexivity.
Qed.

(* ================================================================= *)
(** ** Memory and schedules *)

Module MemFacts.

Import Mem.

Lemma interleave_perm {A : Type} (ts : list (list A)) tr :
  interleave ts tr -> Permutation (List.concat ts) tr.
Proof.
  induction 1 as [ts Hall|ts1 a t ts2 tr H IH].
  - induction Hall as [|t ts Ht _ IHts]; [constructor|].
    subst t. exact IHts.
  - rewrite concat_app in *. cbn [List.concat] in *.
    cbn [app]. apply Permutation_sym.
    apply Permutation_trans with (a :: List.concat ts1 ++ t ++ List.concat ts2).
    + constructor. now apply Permutation_sym.
    + apply (Permutation_middle (List.concat ts1) (t ++ List.concat ts2) a).
Qed.

Section Store.

Variables L V : Type.
Variable eqb : L -> L -> bool.
Hypothesis eqb_spec : forall a b, eqb a b = true <-> a = b.

Lemma store_same (mem : L -> V) (l : L) (v : V) :
  store eqb mem (l, v) l = v.
Proof.
  unfold store. cbn [fst snd].
  destruct (eqb l l) eqn:E; [reflexivity|].
  assert (eqb l l = true) by now apply eqb_spec. congruence.
Qed.

Lemma store_other (mem : L -> V) (l l' : L) (v : V) :
  l <> l' -> store eqb mem (l', v) l = mem l.
Proof.
  intros H. unfold store. cbn [fst snd].
  destruct (eqb l l') eqn:E; [|reflexivity].
  apply eqb_spec in E. contradiction.
Qed.

Lemma eq_dec_of_eqb (a b : L) : {a = b} + {a <> b}.
Proof.
  destruct (eqb a b) eqn:E.
  - left. now apply eqb_spec.
  - right. intros H. apply eqb_spec in H. congruence.
Qed.

Lemma run_app ws1 ws2 (mem : L -> V) :
  run eqb (ws1 ++ ws2) mem = run eqb ws2 (run eqb ws1 mem).
Proof. unfold run. apply fold_left_app. Qed.

(** A location that is not assigned keeps its value. *)
Lemma run_notin ws : forall (mem : L -> V) l,
  ~ In l (map fst ws) -> run eqb ws mem l = mem l.
Proof.
  induction ws as [|[l' v] ws IH]; intros mem l H; [reflexivity|].
  cbn [run fold_left]. fold (run eqb ws (store eqb mem (l', v))).
  rewrite IH by (intros Hin; apply H; right; exact Hin).
  apply store_other. intros ->. apply H. left. reflexivity.
Qed.

(** A location that is assigned once holds the value assigned. *)
Lemma run_in ws : forall (mem : L -> V) l v,
  NoDup (map fst ws) -> In (l, v) ws -> run eqb ws mem l = v.
Proof.
  induction ws as [|[l' v'] ws IH]; intros mem l v Hnd Hin; [destruct Hin|].
  cbn [map fst] in Hnd. inversion Hnd as [|? ? Hni Hnd']; subst.
  cbn [run fold_left]. fold (run eqb ws (store eqb mem (l', v'))).
  destruct Hin as [Heq|Hin].
  - inversion Heq; subst. rewrite run_notin by assumption.
    apply store_same.
  - now apply IH.
Qed.

(** Assignments to distinct locations may run in any order. *)
Lemma run_perm ws ws' (mem : L -> V) :
  Permutation ws ws' -> NoDup (map fst ws) ->
  forall l, run eqb ws mem l = run eqb ws' mem l.
Proof.
  intros Hp Hnd l.
  assert (Hnd' : NoDup (map fst ws')).
  { eapply Permutation_NoDup; [|exact Hnd]. now apply Permutation_map. }
  destruct (in_dec eq_dec_of_eqb l (map fst ws)) as [Hin|Hni].
  - apply in_map_iff in Hin. destruct Hin as ([l0 v] & Hl & Hin).
    cbn [fst] in Hl. subst l0.
    rewrite (run_in ws mem l v Hnd Hin).
    symmetry. apply run_in; [assumption|].
    eapply Permutation_in; eassumption.
  - rewrite run_notin by assumption.
    symmetry. apply run_notin. intros Hin. apply Hni.
    eapply Permutation_in; [|exact Hin].
    apply Permutation_map. now apply Permutation_sym.
Qed.

Variable body : Z -> option (list (L * V) * nat).

(** The assignments of a sequential pass, when every pixel returns. *)
Lemma for_pixels_writes pixels : forall (mem : L -> V) calls mem' calls',
  for_pixels eqb body pixels mem calls = Some (mem', calls') ->
  exists ws, thread_writes body pixels = Some ws /\ mem' = run eqb ws mem.
Proof.
  induction pixels as [|i rest IH]; intros mem calls mem' calls' H.
  - cbn in H. inversion H; subst. exists []. split; reflexivity.
  - cbn [for_pixels] in H. cbn [thread_writes].
    destruct (body i) as [[ws c]|]; [|discriminate]. cbn [bind] in *.
    destruct (IH _ _ _ _ H) as (more & Hmore & Hmem).
    rewrite Hmore. cbn [bind]. exists (ws ++ more). split; [reflexivity|].
    now rewrite run_app.
Qed.

Lemma for_pixels_returns pixels : forall (mem : L -> V) calls,
  (forall i, In i pixels -> body i <> None) ->
  exists mem' calls',
    for_pixels eqb body pixels mem calls = Some (mem', calls').
Proof.
  induction pixels as [|i rest IH]; intros mem calls H.
  - exists mem, calls. reflexivity.
  - cbn [for_pixels]. destruct (body i) as [[ws c]|] eqn:E.
    + cbn [bind]. apply IH. intros j Hj. apply H. right. exact Hj.
    + exfalso. apply (H i); [left; reflexivity|exact E].
Qed.

Lemma thread_writes_app c1 c2 w1 w2 :
  thread_writes body c1 = Some w1 -> thread_writes body c2 = Some w2 ->
  thread_writes body (c1 ++ c2) = Some (w1 ++ w2).
Proof.
  revert w1. induction c1 as [|i rest IH]; intros w1 H1 H2.
  - cbn in H1. inversion H1; subst. exact H2.
  - cbn [thread_writes app] in *.
    destruct (body i) as [[ws c]|]; [|discriminate]. cbn [bind] in *.
    destruct (thread_writes body rest) as [more|]; [|discriminate].
    cbn [bind] in *. inversion H1; subst.
    rewrite (IH more eq_refl H2). cbn [bind]. now rewrite app_assoc.
Qed.

Lemma thread_writes_concat chunks : forall tws,
  Forall2 (fun c w => thread_writes body c = Some w) chunks tws ->
  thread_writes body (List.concat chunks) = Some (List.concat tws).
Proof.
  induction chunks as [|c chunks IH]; intros tws H; inversion H; subst.
  - reflexivity.
  - cbn [List.concat]. apply thread_writes_app; [assumption|]. now apply IH.
Qed.

(** The assignments of a pass do not depend on the order of its pixels,
    up to a permutation. *)
Lemma thread_writes_perm p1 p2 :
  Permutation p1 p2 -> forall w1 w2,
  thread_writes body p1 = Some w1 -> thread_writes body p2 = Some w2 ->
  Permutation w1 w2.
Proof.
  induction 1 as [|i l l' Hp IH|i j l|l l' l'' Hp1 IH1 Hp2 IH2];
    intros w1 w2 H1 H2.
  - cbn in *. inversion H1; inversion H2; subst. constructor.
  - cbn [thread_writes] in *.
    destruct (body i) as [[ws c]|]; [|discriminate]. cbn [bind] in *.
    destruct (thread_writes body l) as [m1|]; [|discriminate].
    destruct (thread_writes body l') as [m2|]; [|discriminate].
    cbn [bind] in *. inversion H1; inversion H2; subst.
    apply Permutation_app_head. now apply IH.
  - cbn [thread_writes] in *.
    destruct (body i) as [[wi ci]|]; [|destruct (body j) as [[? ?]|];
                                       discriminate].
    destruct (body j) as [[wj cj]|]; [|discriminate]. cbn [bind] in *.
    destruct (thread_writes body l) as [m|]; [|discriminate].
    cbn [bind] in *. inversion H1; inversion H2; subst.
    rewrite !app_assoc. apply Permutation_app_tail.
    apply Permutation_app_comm.
  - assert (exists w, thread_writes body l' = Some w) as [w Hw].
    { clear - Hp1 H1. revert w1 H1.
      induction Hp1 as [|i l l' Hp IH|i j l|l l' l'' Hp1 IH1 Hp2 IH2];
        intros w1 H1.
      - eauto.
      - cbn [thread_writes] in *.
        destruct (body i) as [[ws c]|]; [|discriminate]. cbn [bind] in *.
        destruct (thread_writes body l) as [m1|]; [|discriminate].
        destruct (IH _ eq_refl) as [w ->]. cbn [bind]. eauto.
      - cbn [thread_writes] in *.
        destruct (body j) as [[wj cj]|]; [|discriminate]. cbn [bind] in *.
        destruct (body i) as [[wi ci]|]; [|discriminate]. cbn [bind] in *.
        destruct (thread_writes body l) as [m|]; [|discriminate].
        cbn [bind]. eauto.
      - destruct (IH1 _ H1) as [w Hw]. exact (IH2 _ Hw). }
    eapply Permutation_trans; [apply (IH1 _ _ H1 Hw)|apply (IH2 _ _ Hw H2)].
Qed.

Lemma thread_writes_in pixels : forall ws i wi c w,
  thread_writes body pixels = Some ws -> In i pixels ->
  body i = Some (wi, c) -> In w wi -> In w ws.
Proof.
  induction pixels as [|j rest IH]; intros ws i wi c w H Hi Hb Hw;
    [destruct Hi|].
  cbn [thread_writes] in H.
  destruct (body j) as [[wj cj]|] eqn:Ej; [|discriminate]. cbn [bind] in H.
  destruct (thread_writes body rest) as [more|]; [|discriminate].
  cbn [bind] in H. inversion H; subst. apply in_or_app.
  destruct Hi as [->|Hi].
  - left. rewrite Hb in Ej. inversion Ej; subst. exact Hw.
  - right. eapply IH; eauto.
Qed.

Lemma thread_writes_locs (locs : Z -> list L) pixels : forall ws,
  (forall i wi c, In i pixels -> body i = Some (wi, c) ->
     map fst wi = locs i) ->
  thread_writes body pixels = Some ws ->
  map fst ws = flat_map locs pixels.
Proof.
  induction pixels as [|j rest IH]; intros ws Hl H.
  - cbn in H. inversion H. reflexivity.
  - cbn [thread_writes] in H.
    destruct (body j) as [[wj cj]|] eqn:Ej; [|discriminate]. cbn [bind] in H.
    destruct (thread_writes body rest) as [more|] eqn:Er; [|discriminate].
    cbn [bind] in H. inversion H; subst. cbn [flat_map].
    rewrite map_app. f_equal.
    + apply (Hl j wj cj); [left; reflexivity|exact Ej].
    + apply IH; [|reflexivity]. intros i wi c Hi. apply Hl. right. exact Hi.
Qed.

Lemma thread_writes_exist chunks :
  (forall i, In i (List.concat chunks) -> body i <> None) ->
  exists tws, Forall2 (fun c w => thread_writes body c = Some w) chunks tws.
Proof.
  induction chunks as [|c chunks IH]; intros H.
  - exists []. constructor.
  - destruct IH as [tws Htws].
    { intros i Hi. apply H. cbn [List.concat]. apply in_or_app. now right. }
    assert (Hc : exists w, thread_writes body c = Some w).
    { assert (Hin : forall i, In i c -> body i <> None).
      { intros i Hi. apply H. cbn [List.concat]. apply in_or_app. now left. }
      clear - Hin. induction c as [|i c IHc].
      - exists []. reflexivity.
      - cbn [thread_writes].
        destruct (body i) as [[wi ci]|] eqn:Ei;
          [|exfalso; apply (Hin i); [left; reflexivity|exact Ei]].
        destruct IHc as [w Hw]; [intros j Hj; apply Hin; now right|].
        rewrite Hw. cbn [bind]. eauto. }
    destruct Hc as [w Hw]. exists (w :: tws). now constructor.
Qed.

(** After a sequential pass, a location assigned by a pixel holds the
    value that pixel assigned, when no location is assigned twice. *)
Lemma pass_value (locs : Z -> list L) pixels (mem : L -> V) calls mem'
    calls' :
  NoDup (flat_map locs pixels) ->
  (forall i wi c, In i pixels -> body i = Some (wi, c) ->
     map fst wi = locs i) ->
  for_pixels eqb body pixels mem calls = Some (mem', calls') ->
  forall i wi c l v, In i pixels -> body i = Some (wi, c) ->
    In (l, v) wi -> mem' l = v.
Proof.
  intros Hnd Hl Hpass i wi c l v Hi Hb Hw.
  destruct (for_pixels_writes _ _ _ _ _ Hpass) as (ws & Hws & ->).
  apply run_in.
  - now rewrite (thread_writes_locs locs pixels ws Hl Hws).
  - eapply thread_writes_in; eauto.
Qed.

(** A pass whose pixels assign distinct locations gives the same memory
    under every assignment of its pixels to threads and every
    interleaving of the threads. *)
Lemma pass_schedule_independent (locs : Z -> list L) pixels
    (mem : L -> V) calls mem' calls' :
  NoDup (flat_map locs pixels) ->
  (forall i wi c, In i pixels -> body i = Some (wi, c) ->
     map fst wi = locs i) ->
  for_pixels eqb body pixels mem calls = Some (mem', calls') ->
  forall chunks tws trace,
    Permutation (List.concat chunks) pixels ->
    Forall2 (fun c w => thread_writes body c = Some w) chunks tws ->
    Mem.interleave tws trace ->
    forall l, run eqb trace mem l = mem' l.
Proof.
  intros Hnd Hl Hpass chunks tws trace Hperm Htws Hil l.
  destruct (for_pixels_writes _ _ _ _ _ Hpass) as (ws & Hws & ->).
  symmetry. apply run_perm.
  - apply Permutation_trans with (List.concat tws).
    + apply Permutation_sym.
      eapply thread_writes_perm;
        [exact Hperm|now apply thread_writes_concat|exact Hws].
    + now apply interleave_perm.
  - now rewrite (thread_writes_locs locs pixels ws Hl Hws).
Qed.

End Store.

Lemma zrange_app lo (n m : nat) :
  zrange lo (Z.of_nat n) ++ zrange (lo + Z.of_nat n) (Z.of_nat m)
  = zrange lo (Z.of_nat (n + m)).
Proof.
  unfold zrange. rewrite !Nat2Z.id, seq_app, map_app. f_equal.
  cbn [Nat.add].
  assert (H : forall a,
    map (fun k => lo + Z.of_nat n + Z.of_nat k) (seq a m)
    = map (fun k => lo + Z.of_nat k) (seq (n + a) m)).
  { induction m as [|m IH]; intros a; [reflexivity|].
    cbn [seq map]. f_equal; [lia|].
    rewrite IH. now rewrite Nat.add_succ_r. }
  rewrite (H 0%nat). now rewrite Nat.add_0_r.
Qed.

(** The static chunks of [N >= 1] threads partition the iterations. *)
Lemma static_chunks_concat N : forall start n,
  (1 <= N)%nat ->
  List.concat (static_chunks start n N) = zrange start (Z.of_nat n).
Proof.
  induction N as [|N IH]; intros start n HN; [lia|].
  cbn [static_chunks List.concat].
  set (len := (n / S N + (if (n mod S N =? 0)%nat then 0 else 1))%nat).
  assert (Hlen : (len <= n)%nat).
  { unfold len. pose proof (Nat.div_mod_eq n (S N)) as Hdm.
    pose proof (Nat.mod_upper_bound n (S N) ltac:(lia)) as Hub.
    destruct (Nat.eqb_spec (n mod S N) 0); nia. }
  destruct N as [|N'].
  - assert (len = n) as ->.
    { unfold len. rewrite Nat.div_1_r, Nat.mod_1_r. cbn. lia. }
    cbn [static_chunks List.concat]. now rewrite app_nil_r.
  - rewrite IH by lia. rewrite zrange_app. f_equal. lia.
Qed.

End MemFacts.

(* ================================================================= *)
(** ** The wire format *)

Module WireFacts.

Import Wire FloatDefs.

Lemma Z_of_byte_of_Z z : Z_of_byte (byte_of_Z z) = z mod 256.
Proof.
  unfold Z_of_byte, byte_of_Z.
  pose proof (Z.mod_pos_bound z 256 eq_refl) as Hb.
  destruct (Byte.of_N (Z.to_N (z mod 256))) as [b|] eqn:E.
  - apply Byte.to_of_N in E. rewrite E. rewrite Z2N.id; lia.
  - apply Byte.of_N_None_iff in E. lia.
Qed.

Lemma le_bytes_length n : forall z, List.length (le_bytes n z) = n.
Proof. induction n as [|n IH]; intros z; cbn; [|rewrite IH]; reflexivity. Qed.

Lemma le_value_le_bytes n : forall z,
  le_value (le_bytes n z) = z mod 2 ^ (8 * Z.of_nat n).
Proof.
  induction n as [|n IH]; intros z.
  - cbn [le_bytes le_value]. change (2 ^ (8 * Z.of_nat 0)) with 1.
    now rewrite Z.mod_1_r.
  - cbn [le_bytes le_value]. rewrite IH, Z_of_byte_of_Z, Z.mod_mod by lia.
    replace (8 * Z.of_nat (S n)) with (8 + 8 * Z.of_nat n) by lia.
    rewrite Z.pow_add_r by lia. change (2 ^ 8) with 256.
    rewrite Z.rem_mul_r; [reflexivity|lia|].
    apply Z.pow_pos_nonneg; lia.
Qed.

Lemma bits_of_double_range f :
  0 <= bits_of_double f < 2 ^ 64.
Proof.
  unfold bits_of_double. pose proof (Prim2SF_valid f) as Hv.
  destruct (Prim2SF f) as [s|s| |s m e].
  - destruct s; lia.
  - destruct s; lia.
  - lia.
  - cbn [valid_binary] in Hv. apply FloatFacts.bounded_inv in Hv.
    destruct Hv as (He & Hm & Hn).
    change (2 ^ 53) with 9007199254740992 in Hm.
    destruct (Z.ltb_spec (Z.pos m) 4503599627370496); destruct s; lia.
Qed.

(** Encoding a double and decoding it gives the double back. *)
Lemma double_of_bits_of_double f : double_of_bits (bits_of_double f) = f.
Proof.
  rewrite <- (SF2Prim_Prim2SF f) at 2. unfold double_of_bits. f_equal.
  unfold bits_of_double. pose proof (Prim2SF_valid f) as Hv.
  destruct (Prim2SF f) as [s|s| |s m e].
  - destruct s; reflexivity.
  - destruct s; reflexivity.
  - reflexivity.
  - cbn [valid_binary] in Hv. apply FloatFacts.bounded_inv in Hv.
    destruct Hv as (He & Hm & Hn).
    change (2 ^ 53) with 9007199254740992 in Hm.
    change (2 ^ 52) with 4503599627370496 in Hn.
    set (S := if s then 9223372036854775808 else 0).
    destruct (Z.ltb_spec (Z.pos m) 4503599627370496) as [Hsub|Hnorm].
    + assert (e = -1074) by lia. subst e.
      assert (Hs : (9223372036854775808 <=? S + Z.pos m) = s)
        by (unfold S; destruct s; [apply Z.leb_le|apply Z.leb_gt]; lia).
      assert (Hr : (S + Z.pos m) mod 9223372036854775808 = Z.pos m).
      { unfold S; destruct s.
        - symmetry. apply Z.mod_unique with 1; lia.
        - symmetry. apply Z.mod_unique with 0; lia. }
      rewrite Hs, Hr.
      rewrite (Z.div_small (Z.pos m)), (Z.mod_small (Z.pos m)) by lia.
      cbn [Z.eqb Z.to_pos]. reflexivity.
    + set (r := (e + 1075) * 4503599627370496
                + (Z.pos m - 4503599627370496)).
      assert (Hrr : 0 <= r < 9223372036854775808) by (unfold r; lia).
      assert (Hs : (9223372036854775808 <=? S + r) = s)
        by (unfold S; destruct s; [apply Z.leb_le|apply Z.leb_gt]; lia).
      assert (Hr : (S + r) mod 9223372036854775808 = r).
      { unfold S; destruct s.
        - symmetry. apply Z.mod_unique with 1; lia.
        - symmetry. apply Z.mod_unique with 0; lia. }
      rewrite Hs, Hr.
      assert (Hq : r / 4503599627370496 = e + 1075).
      { symmetry. apply Z.div_unique with (Z.pos m - 4503599627370496);
          unfold r; lia. }
      assert (Hm' : r mod 4503599627370496 = Z.pos m - 4503599627370496).
      { symmetry. apply Z.mod_unique with (e + 1075); unfold r; lia. }
      rewrite Hq, Hm'.
      replace (e + 1075 =? 0) with false by (symmetry; apply Z.eqb_neq; lia).
      replace (e + 1075 =? 2047) with false
        by (symmetry; apply Z.eqb_neq; lia).
      replace (Z.pos m - 4503599627370496 + 4503599627370496)
        with (Z.pos m) by lia.
      replace (e + 1075 - 1075) with e by lia. reflexivity.
Qed.

Lemma double_bytes_length f : List.length (double_bytes f) = 8%nat.
Proof. apply le_bytes_length. Qed.

Lemma double_of_bytes_of_double f : double_of_bytes (double_bytes f) = f.
Proof.
  unfold double_of_bytes, double_bytes. rewrite le_value_le_bytes.
  change (2 ^ (8 * Z.of_nat 8)) with (2 ^ 64).
  rewrite Z.mod_small by apply bits_of_double_range.
  apply double_of_bits_of_double.
Qed.

Lemma doubles_of_bytes_spec fs : forall rest,
  doubles_of_bytes (List.length fs) (flat_map double_bytes fs ++ rest) = fs.
Proof.
  induction fs as [|f fs IH]; intros rest; [reflexivity|].
  cbn [List.length doubles_of_bytes flat_map]. rewrite <- app_assoc.
  rewrite firstn_app, skipn_app, double_bytes_length.
  rewrite Nat.sub_diag, (firstn_all2 (double_bytes f)), skipn_all2
    by (rewrite double_bytes_length; lia).
  cbn [firstn skipn app]. rewrite app_nil_r, double_of_bytes_of_double.
  f_equal. apply IH.
Qed.

Lemma flat_map_length_const {A B : Type} (f : A -> list B) (k : nat) l :
  (forall a, List.length (f a) = k) ->
  List.length (flat_map f l) = (k * List.length l)%nat.
Proof.
  intros H. induction l as [|a l IH]; cbn [flat_map List.length]; [lia|].
  rewrite length_app, H, IH. lia.
Qed.

Lemma zrange_length lo n : List.length (zrange lo n) = Z.to_nat n.
Proof. unfold zrange. now rewrite length_map, length_seq. Qed.

Lemma nth_error_zrange lo n j z :
  nth_error (zrange lo n) j = Some z -> z = lo + Z.of_nat j.
Proof.
  unfold zrange. intros H.
  assert (Hj : (j < Z.to_nat n)%nat).
  { assert (Hn : nth_error (map (fun k => lo + Z.of_nat k)
                              (seq 0 (Z.to_nat n))) j <> None) by congruence.
    apply nth_error_Some in Hn. now rewrite length_map, length_seq in Hn. }
  rewrite nth_error_map in H.
  rewrite (nth_error_nth' _ 0%nat) in H by now rewrite length_seq.
  rewrite seq_nth in H by assumption. cbn in H. now inversion H.
Qed.

End WireFacts.

(* ================================================================= *)
(** ** The driver *)

Module DriverFacts.

Import DemProcessor Mem.

Local Open Scope Z_scope.

Lemma calendar_days isLeap :
  map fst (calendar isLeap) = zrange 1 (if isLeap then 366 else 365).
Proof. destruct isLeap; vm_compute; reflexivity. Qed.

Lemma calendar_length isLeap :
  List.length (calendar isLeap) = Z.to_nat (if isLeap then 366 else 365).
Proof.
  rewrite <- (length_map fst), calendar_days. apply WireFacts.zrange_length.
Qed.

Lemma loc_eqb_spec a b : loc_eqb a b = true <-> a = b.
Proof.
  destruct a as [a1 a2], b as [b1 b2]. unfold loc_eqb. cbn [fst snd].
  rewrite andb_true_iff, Bool.eqb_true_iff, Z.eqb_eq.
  split; [intros [-> ->]; reflexivity|intros H; inversion H; auto].
Qed.

Lemma is_some_true {A : Type} (x : option A) : is_some x = true -> x <> None.
Proof. destruct x; [discriminate|]. discriminate. Qed.

Lemma stream_block_length N k mem :
  List.length (stream_block N k mem)
  = (4 + 2 * Z.to_nat N + 2 * Z.to_nat N)%nat.
Proof.
  unfold stream_block. rewrite !length_app.
  rewrite !(WireFacts.flat_map_length_const _ 2)
    by (intros; apply WireFacts.le_bytes_length).
  rewrite WireFacts.zrange_length.
  unfold Wire.int32_bytes. rewrite WireFacts.le_bytes_length. lia.
Qed.

Section Stream.

Variable libm : Libm.
Variable fuel : nat.
Variables (tz : float) (demData : Z -> float) (demNodata : float).
Variables (width N : Z) (g : GeoTransform) (year D : Z).

(** The loop over days writes one block per day, after what was written
    before. *)
Lemma stream_days_layout days : forall mem out log calls,
  (forall kmd i, In kmd days -> In i (zrange 0 N) ->
     stream_pixel libm fuel tz demData demNodata width g year
       (fst (snd kmd)) (snd (snd kmd)) i <> None) ->
  exists mems mem' log' calls',
    List.length mems = List.length days /\
    stream_days libm fuel tz demData demNodata width N g year D days
      (mem, out, log, calls)
    = Some (mem',
            out ++ List.concat
                     (map (fun p => stream_block N (fst (fst p)) (snd p))
                          (combine days mems)),
            log', calls').
Proof.
  induction days as [|[k [m d]] days IH]; intros mem out log calls H.
  - exists [], mem, log, calls. split; [reflexivity|].
    cbn. now rewrite app_nil_r.
  - cbn [stream_days].
    destruct (MemFacts.for_pixels_returns _ _ loc_eqb
                (stream_pixel libm fuel tz demData demNodata width g year m d)
                (zrange 0 N) mem calls) as (mem1 & calls1 & Hpass).
    { intros i Hi. apply (H (k, (m, d)) i); [left; reflexivity|exact Hi]. }
    rewrite Hpass. cbn [bind].
    destruct (IH mem1 (out ++ stream_block N k mem1)
                (log ++ (if Z.rem k 10 =? 0 then [ProgressDay k D] else []))
                calls1) as (mems & mem' & log' & calls' & Hlen & Hrun).
    { intros kmd i Hk Hi. apply H; [right; exact Hk|exact Hi]. }
    exists (mem1 :: mems), mem', log', calls'.
    split; [cbn; now rewrite Hlen|].
    rewrite Hrun. cbn [combine map List.concat fst snd].
    now rewrite <- app_assoc.
Qed.

End Stream.

Lemma stream_header_length width height days g :
  List.length (stream_header width height days g) = 65%nat.
Proof.
  unfold stream_header. rewrite !length_app.
  rewrite (WireFacts.flat_map_length_const _ 8)
    by apply WireFacts.double_bytes_length.
  unfold Wire.int32_bytes. rewrite !WireFacts.le_bytes_length. reflexivity.
Qed.

(** When the raster opens and reads, its pixel count is an [int], and
    every calculator call returns, [streamBinaryOutput] succeeds and writes
    the header and one block per day of the calendar. *)
Lemma stream_run libm fuel world year tz ds demData :
  w_open world = Some ds ->
  ds_read ds 0 0 (ds_width ds) (ds_height ds) = Some demData ->
  0 <= ds_width ds * ds_height ds <= INT_MAX ->
  stream_returns libm fuel world year tz = true ->
  exists mems log calls,
    List.length mems = List.length (calendar (isLeapYear year)) /\
    streamBinaryOutput libm fuel world year tz
    = Some (mkStream true
              (stream_header (ds_width ds) (ds_height ds)
                 (if isLeapYear year then 366 else 365) (ds_geo ds)
               ++ List.concat
                    (map (fun p => stream_block (ds_width ds * ds_height ds)
                                     (fst (fst p)) (snd p))
                         (combine (calendar (isLeapYear year)) mems)))
              log calls).
Proof.
  intros Hopen Hread Hsize Hret. unfold stream_returns in Hret.
  rewrite Hopen, Hread in Hret.
  destruct (stream_days_layout libm fuel tz demData
              (Num.to_f32 (ds_nodata ds)) (ds_width ds)
              (ds_width ds * ds_height ds) (ds_geo ds) year
              (if isLeapYear year then 366 else 365)
              (calendar (isLeapYear year)) (w_new_int16 world)
              (stream_header (ds_width ds) (ds_height ds)
                 (if isLeapYear year then 366 else 365) (ds_geo ds)) [] 0%nat)
    as (mems & mem' & log' & calls' & Hlen & Hrun).
  { intros kmd i Hk Hi. apply is_some_true.
    rewrite forallb_forall in Hret. specialize (Hret kmd Hk).
    rewrite forallb_forall in Hret. exact (Hret i Hi). }
  exists mems, log', calls'. split; [exact Hlen|].
  unfold streamBinaryOutput. rewrite Hopen. cbv zeta.
  replace ((0 <=? ds_width ds * ds_height ds)
           && (ds_width ds * ds_height ds <=? INT_MAX)) with true
    by (symmetry; apply andb_true_intro; split; apply Z.leb_le; lia).
  cbn [negb]. rewrite Hread, Hrun. reflexivity.
Qed.


Lemma NoDup_flat_map {A B : Type} (f : A -> list B) l :
  NoDup l -> (forall a, In a l -> NoDup (f a)) ->
  (forall a b x, In a l -> In b l -> a <> b -> In x (f a) -> ~ In x (f b)) ->
  NoDup (flat_map f l).
Proof.
  induction l as [|a l IH]; intros Hnd Hf Hd; [constructor|].
  inversion Hnd as [|? ? Hni Hnd']; subst. cbn [flat_map].
  apply NoDup_app.
  - apply Hf. left. reflexivity.
  - apply IH; [assumption| |].
    + intros b Hb. apply Hf. right. exact Hb.
    + intros b c x Hb Hc. apply Hd; right; assumption.
  - intros x Hx Hin. apply in_flat_map in Hin. destruct Hin as (b & Hb & Hxb).
    apply (Hd a b x); [left; reflexivity|right; exact Hb| |exact Hx|exact Hxb].
    intros ->. contradiction.
Qed.

Lemma NoDup_zrange lo n : NoDup (zrange lo n).
Proof.
  unfold zrange. apply Injective_map_NoDup; [|apply seq_NoDup].
  intros a b H. lia.
Qed.

Lemma In_zrange_inv lo n z : In z (zrange lo n) -> lo <= z < lo + n.
Proof.
  unfold zrange. intros H. apply in_map_iff in H.
  destruct H as (k & <- & Hk). apply in_seq in Hk. lia.
Qed.

Lemma stream_locs_nodup N : NoDup (flat_map stream_locs (zrange 0 N)).
Proof.
  apply NoDup_flat_map; [apply NoDup_zrange| |].
  - intros i _. unfold stream_locs. repeat constructor; cbn; intuition congruence.
  - intros i j x _ _ Hij Hi Hj. unfold stream_locs in *. cbn in Hi, Hj.
    intuition congruence.
Qed.

Lemma raster_locs_nodup S nb : NoDup (flat_map (raster_locs S nb) (zrange 0 S)).
Proof.
  apply NoDup_flat_map; [apply NoDup_zrange| |].
  - intros i Hi. apply In_zrange_inv in Hi. unfold raster_locs.
    apply Injective_map_NoDup; [|apply NoDup_zrange].
    intros a b H. nia.
  - intros i j x Hi Hj Hij Hxi Hxj.
    apply In_zrange_inv in Hi. apply In_zrange_inv in Hj.
    unfold raster_locs in *. apply in_map_iff in Hxi, Hxj.
    destruct Hxi as (b & <- & _). destruct Hxj as (b' & Hb' & _).
    destruct (Z.lt_trichotomy b b') as [H|[H|H]]; nia.
Qed.

Lemma stream_pixel_locs libm fuel tz demData demNodata width g year m d i
    ws c :
  stream_pixel libm fuel tz demData demNodata width g year m d i
  = Some (ws, c) ->
  map fst ws = stream_locs i.
Proof.
  unfold stream_pixel. destruct (masked_stream _ _).
  - intros H. inversion H. reflexivity.
  - destruct (pixelToGeo _ _ _) as [lon lat].
    destruct (SolarCalculator.calculateSunrise _ _ _ _ _ _ _ _ _);
      [|discriminate].
    destruct (SolarCalculator.calculateSunset _ _ _ _ _ _ _ _ _);
      [|discriminate].
    cbn [bind]. intros H. inversion H. reflexivity.
Qed.

Lemma number_days_length mds : forall k,
  List.length (number_days k mds) = List.length mds.
Proof. induction mds as [|md mds IH]; intros k; cbn; [|rewrite IH]; reflexivity. Qed.

Lemma zrange_pair lo n :
  0 <= n ->
  zrange (2 * lo) (2 * (n + 1))
  = 2 * lo :: 2 * lo + 1 :: zrange (2 * (lo + 1)) (2 * n).
Proof.
  intros Hn. unfold zrange.
  replace (Z.to_nat (2 * (n + 1))) with (S (S (Z.to_nat (2 * n)))) by lia.
  cbn [seq map].
  replace (2 * lo + Z.of_nat 0) with (2 * lo) by lia.
  replace (2 * lo + Z.of_nat 1) with (2 * lo + 1) by lia.
  do 2 apply f_equal.
  rewrite <- seq_shift, <- seq_shift, !map_map.
  apply map_ext. intros a. lia.
Qed.

Section Raster.

Variable libm : Libm.
Variable fuel : nat.
Variables (tz lat lon elevation : float) (year size i : Z).

(** The days loop assigns the cell of the pixel in bands [0, 1, 2, ...]
    and calls the calculator twice per day. *)
Lemma raster_days_locs mds : forall k0 ws c,
  raster_days libm fuel tz lat lon elevation year size i (number_days k0 mds)
  = Some (ws, c) ->
  map fst ws
  = map (fun b => b * size + i)
        (zrange (2 * k0) (2 * Z.of_nat (List.length mds)))
  /\ c = (2 * List.length mds)%nat.
Proof.
  induction mds as [|[m d] mds IH]; intros k0 ws c H.
  - cbn in H. inversion H. split; reflexivity.
  - cbn [number_days raster_days] in H.
    destruct (SolarCalculator.calculateSunrise _ _ _ _ _ _ _ _ _) as [sr|];
      [|discriminate].
    destruct (SolarCalculator.calculateSunset _ _ _ _ _ _ _ _ _) as [ss|];
      [|discriminate].
    cbn [bind] in H.
    destruct (raster_days _ _ _ _ _ _ _ _ _ _) as [[ws' c']|] eqn:E;
      [|discriminate].
    cbn [bind] in H. inversion H; subst.
    destruct (IH _ _ _ E) as [Hl Hc]. split; [|cbn [List.length]; lia].
    cbn [map fst List.length]. rewrite Hl.
    replace (Z.of_nat (S (List.length mds)))
      with (Z.of_nat (List.length mds) + 1) by lia.
    rewrite zrange_pair by lia. cbn [map].
    replace ((k0 + 1 - 1) * 2 * size + i) with (2 * k0 * size + i) by lia.
    replace (((k0 + 1 - 1) * 2 + 1) * size + i)
      with ((2 * k0 + 1) * size + i) by lia.
    reflexivity.
Qed.

End Raster.

Lemma calendar_number isLeap :
  exists mds, calendar isLeap = number_days 0 mds /\
              Z.of_nat (List.length mds) = if isLeap then 366 else 365.
Proof.
  unfold calendar. eexists. split; [reflexivity|].
  destruct isLeap; vm_compute; reflexivity.
Qed.

Lemma raster_pixel_locs libm fuel tz demBlock demNodata g year isLeap
    x y cbx cby i ws c :
  raster_pixel libm fuel tz demBlock demNodata g year isLeap
    ((if isLeap then 366 else 365) * 2) x y cbx cby i = Some (ws, c) ->
  map fst ws = raster_locs (cbx * cby) ((if isLeap then 366 else 365) * 2) i.
Proof.
  unfold raster_pixel, raster_locs. destruct (masked_raster _ _).
  - intros H. inversion H. rewrite map_map. reflexivity.
  - destruct (pixelToGeo _ _ _) as [lon lat].
    destruct (calendar_number isLeap) as (mds & -> & Hlen). intros H.
    apply raster_days_locs in H. destruct H as [-> _].
    rewrite Hlen. do 2 f_equal. lia.
Qed.


Section Blocks.

Variable libm : Libm.
Variable fuel : nat.
Variable world : World.
Variables (tz : float) (ds : Dataset) (year totalBlocks : Z).

(** The loop over blocks: a block that cannot be read leaves an error and
    nothing else; a block that is read is computed, then written or, when
    the write fails, reported; the loop always goes on to the next block. *)
Lemma process_blocks_spec blocks : forall buf written log pb calls,
  (forall yx demBlock i, In yx blocks -> block_read ds yx = Some demBlock ->
     In i (zrange 0 (Z.min 512 (ds_height ds - fst yx)
                     * Z.min 512 (ds_width ds - snd yx))) ->
     raster_pixel libm fuel tz demBlock (Num.to_f32 (ds_nodata ds))
       (ds_geo ds) year (isLeapYear year)
       ((if isLeapYear year then 366 else 365) * 2)
       (snd yx) (fst yx) (Z.min 512 (ds_width ds - snd yx))
       (Z.min 512 (ds_height ds - fst yx)) i <> None) ->
  exists buf' written' log' pb' calls',
    process_blocks libm fuel world tz ds (Num.to_f32 (ds_nodata ds)) year
      (isLeapYear year) ((if isLeapYear year then 366 else 365) * 2)
      totalBlocks blocks (buf, written, log, pb, calls)
    = Some (buf', written ++ written', log ++ log', pb', calls') /\
    map (fun t => (tw_y t, tw_x t)) written'
    = filter (block_written world ds) blocks /\
    filter is_error log' = flat_map (block_errors world ds) blocks /\
    Forall (tile_pass libm fuel year tz ds) written'.
Proof.
  induction blocks as [|[y x] blocks IH]; intros buf written log pb calls H.
  - exists buf, [], [], pb, calls. rewrite !app_nil_r.
    repeat split; constructor.
  - assert (Hrest : forall yx demBlock i, In yx blocks ->
              block_read ds yx = Some demBlock ->
              In i (zrange 0 (Z.min 512 (ds_height ds - fst yx)
                              * Z.min 512 (ds_width ds - snd yx))) ->
              raster_pixel libm fuel tz demBlock (Num.to_f32 (ds_nodata ds))
                (ds_geo ds) year (isLeapYear year)
                ((if isLeapYear year then 366 else 365) * 2)
                (snd yx) (fst yx) (Z.min 512 (ds_width ds - snd yx))
                (Z.min 512 (ds_height ds - fst yx)) i <> None).
    { intros yx demBlock i Hyx. apply H. right. exact Hyx. }
    cbn [process_blocks]. unfold process_block.
    cbn [filter flat_map]. unfold block_written, block_errors, block_read.
    cbn [fst snd].
    destruct (ds_read ds x y (Z.min 512 (ds_width ds - x))
                (Z.min 512 (ds_height ds - y))) as [demBlock|] eqn:Eread.
    + destruct (MemFacts.for_pixels_returns _ _ Z.eqb
                  (raster_pixel libm fuel tz demBlock
                     (Num.to_f32 (ds_nodata ds)) (ds_geo ds) year
                     (isLeapYear year)
                     ((if isLeapYear year then 366 else 365) * 2) x y
                     (Z.min 512 (ds_width ds - x))
                     (Z.min 512 (ds_height ds - y)))
                  (zrange 0 (Z.min 512 (ds_height ds - y)
                             * Z.min 512 (ds_width ds - x))) buf calls)
        as (buf1 & calls1 & Hpass).
      { intros i Hi. apply (H (y, x) demBlock i);
          [left; reflexivity|exact Eread|exact Hi]. }
      rewrite Hpass. cbn [bind is_some andb].
      set (tile := mkTile x y (Z.min 512 (ds_width ds - x))
                     (Z.min 512 (ds_height ds - y)) buf1).
      assert (Htile : tile_pass libm fuel year tz ds tile).
      { exists demBlock, buf, calls, calls1. split; [exact Eread|exact Hpass]. }
      destruct (w_write world x y).
      * destruct (IH buf1 (written ++ [tile])
                    (log ++ [] ++ [ProgressBlock (pb + 1) totalBlocks])
                    (pb + 1) calls1 Hrest)
          as (buf' & written' & log' & pb' & calls' & Hrun & Hw & Hl & Hf).
        exists buf', (tile :: written'),
          ([ProgressBlock (pb + 1) totalBlocks] ++ log'), pb', calls'.
        rewrite Hrun. split; [rewrite <- !app_assoc; reflexivity|].
        split; [cbn [map]; f_equal; exact Hw|].
        split; [cbn [app filter is_error]; exact Hl|].
        constructor; assumption.
      * destruct (IH buf1 (written ++ [])
                    (log ++ [ErrWriteBlock x y]
                         ++ [ProgressBlock (pb + 1) totalBlocks])
                    (pb + 1) calls1 Hrest)
          as (buf' & written' & log' & pb' & calls' & Hrun & Hw & Hl & Hf).
        exists buf', written',
          ([ErrWriteBlock x y; ProgressBlock (pb + 1) totalBlocks] ++ log'),
          pb', calls'.
        rewrite Hrun. split; [rewrite <- !app_assoc; reflexivity|].
        split; [exact Hw|].
        split; [cbn [app filter is_error]; f_equal; exact Hl|].
        exact Hf.
    + cbn [bind is_some andb].
      destruct (IH buf written (log ++ [ErrReadBlock x y]) pb calls Hrest)
        as (buf' & written' & log' & pb' & calls' & Hrun & Hw & Hl & Hf).
      exists buf', written', ([ErrReadBlock x y] ++ log'), pb', calls'.
      rewrite Hrun. split; [rewrite <- !app_assoc; reflexivity|].
      split; [exact Hw|].
      split; [cbn [app filter is_error]; f_equal; exact Hl|].
      exact Hf.
Qed.

End Blocks.

(** When the raster opens, the output is created and every calculator
    call returns, [processDEM] succeeds whatever the reads and writes of
    the blocks do. *)
Lemma raster_run libm fuel world year tz ds :
  w_open world = Some ds -> w_gtiff world = true -> w_create world = true ->
  raster_returns libm fuel world year tz = true ->
  exists od written log calls,
    processDEM libm fuel world year tz
    = Some (mkProcess true (Some od) written log calls) /\
    createOutputDataset world (ds_width ds) (ds_height ds)
      ((if isLeapYear year then 366 else 365) * 2) (ds_geo ds)
      (ds_projection ds) = (Some od, []) /\
    map (fun t => (tw_y t, tw_x t)) written
    = filter (block_written world ds)
        (block_origins (ds_width ds) (ds_height ds)) /\
    filter is_error log
    = flat_map (block_errors world ds)
        (block_origins (ds_width ds) (ds_height ds)) /\
    Forall (tile_pass libm fuel year tz ds) written.
Proof.
  intros Hopen Hdrv Hcreate Hret. unfold raster_returns in Hret.
  rewrite Hopen in Hret. cbv zeta in Hret.
  destruct (process_blocks_spec libm fuel world tz ds year
              ((ds_width ds + 512 - 1) ÷ 512 * ((ds_height ds + 512 - 1) ÷ 512))
              (block_origins (ds_width ds) (ds_height ds))
              (w_new_float world) [] [] 0 0%nat)
    as (buf' & written' & log' & pb' & calls' & Hrun & Hw & Hl & Hf).
  { intros yx demBlock i Hyx Hread Hi. apply is_some_true.
    rewrite forallb_forall in Hret. specialize (Hret yx Hyx).
    unfold block_read in Hread. rewrite Hread in Hret.
    rewrite forallb_forall in Hret. exact (Hret i Hi). }
  eexists. exists written', log', calls'.
  unfold processDEM. rewrite Hopen. cbv zeta.
  unfold createOutputDataset. rewrite Hdrv, Hcreate. cbn [negb].
  rewrite Hrun. cbn [bind app]. repeat split; assumption.
Qed.

End DriverFacts.

(* ================================================================= *)
(** ** The pixel passes *)

Module PixelFacts.

Import SolarCalculator DemProcessor Mem.

Local Open Scope Z_scope.

Lemma SFcompare_refl x : x <> S754_nan -> SFcompare x x = Some Eq.
Proof.
  destruct x as [s|s| |s m e]; intros H; try congruence.
  - reflexivity.
  - destruct s; reflexivity.
  - cbn [SFcompare]. rewrite Z.compare_refl.
    change (PosDef.Pos.compare_cont Eq m m) with (Pos.compare m m).
    rewrite Pos.compare_refl. destruct s; reflexivity.
Qed.

(** A value that compares equal to something is not NaN. *)
Lemma eqb_not_nan e x : (e =? x)%float = true -> is_nan e = false.
Proof.
  intros H. unfold is_nan. rewrite FloatAxioms.eqb_spec in H |- *. unfold SFeqb in H |- *.
  destruct (Prim2SF e) as [s|s| |s m ex] eqn:E;
    [| |cbn in H; discriminate H|];
    rewrite SFcompare_refl by (intros N; discriminate N); reflexivity.
Qed.

Lemma for_pixels_body {L V : Type} (eqb : L -> L -> bool)
    (body : Z -> option (list (L * V) * nat)) pixels :
  forall mem calls mem' calls',
  for_pixels eqb body pixels mem calls = Some (mem', calls') ->
  forall i, In i pixels -> exists wi c, body i = Some (wi, c).
Proof.
  induction pixels as [|p rest IH]; intros mem calls mem' calls' H i Hi.
  - destruct Hi.
  - cbn [for_pixels] in H. destruct (body p) as [[ws c]|] eqn:E.
    + cbn [bind] in H. destruct Hi as [<-|Hi].
      * exists ws, c. exact E.
      * exact (IH _ _ _ _ H i Hi).
    + discriminate H.
Qed.

Lemma thread_writes_body {L V : Type}
    (body : Z -> option (list (L * V) * nat)) pixels : forall ws,
  thread_writes body pixels = Some ws ->
  forall i, In i pixels -> body i <> None.
Proof.
  induction pixels as [|p rest IH]; intros ws H i Hi.
  - destruct Hi.
  - cbn [thread_writes] in H. destruct (body p) as [[w c]|] eqn:E.
    + cbn [bind] in H.
      destruct (thread_writes body rest) as [more|] eqn:Er.
      * destruct Hi as [<-|Hi]; [congruence|].
        exact (IH _ eq_refl i Hi).
      * discriminate H.
    + discriminate H.
Qed.

(** The number of calculator calls of a pass: those of its pixels. *)
Lemma for_pixels_calls {L V : Type} (eqb : L -> L -> bool)
    (body : Z -> option (list (L * V) * nat)) pixels :
  forall mem calls mem' calls',
  for_pixels eqb body pixels mem calls = Some (mem', calls') ->
  calls' = (calls
            + list_sum (map (fun i => match body i with
                                      | Some (_, c) => c
                                      | None => O
                                      end) pixels))%nat.
Proof.
  induction pixels as [|p rest IH]; intros mem calls mem' calls' H.
  - cbn in H. injection H as _ <-. cbn. lia.
  - cbn [for_pixels] in H. cbn [map list_sum].
    destruct (body p) as [[ws c]|] eqn:E.
    + cbn [bind] in H. rewrite (IH _ _ _ _ H). unfold list_sum. cbn [fold_right].
      lia.
    + discriminate H.
Qed.

Lemma interleave_prepend {A : Type} (ts1 : list (list A)) t ts2 tr :
  interleave (ts1 ++ [] :: ts2) tr -> interleave (ts1 ++ t :: ts2) (t ++ tr).
Proof.
  intros H. induction t as [|a t IH].
  - exact H.
  - cbn [app]. apply interleave_step. exact IH.
Qed.

Lemma interleave_concat_from {A : Type} (ts : list (list A)) :
  forall ts1, Forall (fun t => t = []) ts1 ->
  interleave (ts1 ++ ts) (List.concat ts).
Proof.
  induction ts as [|t ts IH]; intros ts1 H1.
  - cbn. apply interleave_done. rewrite app_nil_r. exact H1.
  - cbn [List.concat]. apply interleave_prepend.
    replace (ts1 ++ [] :: ts) with ((ts1 ++ [[]]) ++ ts)
      by (rewrite <- app_assoc; reflexivity).
    apply IH. apply Forall_app. split; [exact H1|].
    constructor; [reflexivity|constructor].
Qed.

(** The threads one after the other is one of the executions. *)
Lemma interleave_concat {A : Type} (ts : list (list A)) :
  interleave ts (List.concat ts).
Proof. exact (interleave_concat_from ts [] (Forall_nil _)). Qed.

(** With one thread there is one execution. *)
Lemma interleave_single {A : Type} (ts : list (list A)) tr :
  interleave ts tr -> forall t, ts = [t] -> tr = t.
Proof.
  induction 1 as [ts H|ts1 a t ts2 tr H IH]; intros t0 E.
  - subst ts. inversion H; subst. reflexivity.
  - destruct ts1 as [|x ts1].
    + cbn in E. injection E as E1 E2. subst ts2 t0.
      f_equal. apply IH. reflexivity.
    + cbn in E. injection E as _ E2. destruct ts1; discriminate E2.
Qed.

(** When the cosine of the hour angle is outside [[-1, 1]], a call that
    returns gives the sentinel. *)
Lemma calculateSolarTime_polar libm fuel tz lat lon elev year month day
    isSunrise decl r :
  sunDeclination libm fuel (julianCentury (julianDay year month day))
  = Some decl ->
  (1 <? cosHourAngle libm lat decl elev)%float = true \/
  (cosHourAngle libm lat decl elev <? -1)%float = true ->
  calculateSolarTime libm fuel tz lat lon elev year month day isSunrise
  = Some r ->
  r = NO_EVENT.
Proof.
  intros Hd Hp H. unfold calculateSolarTime in H.
  destruct (equationOfTime libm fuel _) as [eqTime|]; [|discriminate H].
  cbn [bind] in H. rewrite Hd in H. cbn [bind] in H.
  assert (Hneg : (hourAngleSunrise libm lat decl elev <? 0.0)%float = true).
  { unfold hourAngleSunrise. destruct Hp as [E|E].
    - rewrite E. reflexivity.
    - destruct (1.0 <? _)%float; [reflexivity|]. rewrite E. reflexivity. }
  rewrite Hneg in H. injection H as <-. reflexivity.
Qed.

Section Parallel.

Variables L V : Type.
Variable eqb : L -> L -> bool.
Hypothesis eqb_spec : forall a b, eqb a b = true <-> a = b.
Variable body : Z -> option (list (L * V) * nat).
Variable locs : Z -> list L.
Variable n : Z.
Hypothesis locs_nodup : NoDup (flat_map locs (zrange 0 n)).
Hypothesis body_locs : forall i wi c,
  In i (zrange 0 n) -> body i = Some (wi, c) -> map fst wi = locs i.

Lemma static_chunks_pixels threads :
  (1 <= threads)%nat ->
  List.concat (static_chunks 0 (Z.to_nat n) threads) = zrange 0 n.
Proof.
  intros H. rewrite (MemFacts.static_chunks_concat threads 0 _ H).
  unfold zrange. rewrite Nat2Z.id. reflexivity.
Qed.

(** What a parallel pass leaves is what the sequential loop leaves. *)
Lemma parallel_for_sequential threads mem mem1 :
  (1 <= threads)%nat ->
  parallel_for eqb body n threads mem mem1 ->
  exists mem' calls',
    for_pixels eqb body (zrange 0 n) mem 0 = Some (mem', calls') /\
    forall l, mem1 l = mem' l.
Proof.
  intros Ht (tws & trace & Hw & Hi & Hm).
  pose proof (MemFacts.thread_writes_concat _ _ body _ _ Hw) as Hc.
  rewrite (static_chunks_pixels threads Ht) in Hc.
  destruct (MemFacts.for_pixels_returns _ _ eqb body (zrange 0 n) mem 0%nat
              (thread_writes_body body _ _ Hc)) as (mem' & calls' & Hs).
  exists mem', calls'. split; [exact Hs|]. intros l. rewrite Hm.
  apply (MemFacts.pass_schedule_independent _ _ eqb eqb_spec body locs
           (zrange 0 n) mem 0%nat mem' calls' locs_nodup body_locs Hs
           (static_chunks 0 (Z.to_nat n) threads) tws trace).
  - rewrite (static_chunks_pixels threads Ht). apply Permutation_refl.
  - exact Hw.
  - exact Hi.
Qed.

(** When the sequential loop returns, every number of threads has an
    execution, and it leaves the same memory. *)
Lemma sequential_parallel_for threads mem calls mem' calls' :
  (1 <= threads)%nat ->
  for_pixels eqb body (zrange 0 n) mem calls = Some (mem', calls') ->
  parallel_for eqb body n threads mem mem'.
Proof.
  intros Ht Hs.
  destruct (MemFacts.thread_writes_exist _ _ body
              (static_chunks 0 (Z.to_nat n) threads)) as (tws & Hw).
  { rewrite (static_chunks_pixels threads Ht). intros i Hi.
    destruct (for_pixels_body _ _ _ _ _ _ _ Hs i Hi) as (wi & c & E).
    congruence. }
  exists tws, (List.concat tws). split; [exact Hw|].
  split; [apply interleave_concat|]. intros l. symmetry.
  apply (MemFacts.pass_schedule_independent _ _ eqb eqb_spec body locs
           (zrange 0 n) mem calls mem' calls' locs_nodup body_locs Hs
           (static_chunks 0 (Z.to_nat n) threads) tws (List.concat tws)).
  - rewrite (static_chunks_pixels threads Ht). apply Permutation_refl.
  - exact Hw.
  - apply interleave_concat.
Qed.

(** Two parallel passes from the same memory leave the same memory,
    whatever their numbers of threads and their interleavings. *)
Lemma parallel_for_unique t1 t2 mem mem1 mem2 :
  (1 <= t1)%nat -> (1 <= t2)%nat ->
  parallel_for eqb body n t1 mem mem1 ->
  parallel_for eqb body n t2 mem mem2 ->
  forall l, mem1 l = mem2 l.
Proof.
  intros H1 H2 P1 P2 l.
  destruct (parallel_for_sequential t1 mem mem1 H1 P1) as (m1 & c1 & E1 & Q1).
  destruct (parallel_for_sequential t2 mem mem2 H2 P2) as (m2 & c2 & E2 & Q2).
  rewrite Q1, Q2. rewrite E1 in E2. injection E2 as <- _. reflexivity.
Qed.

End Parallel.

Section Raster.

Variable libm : Libm.
Variable fuel : nat.
Variables (tz lat lon elevation : float) (year size i : Z).

(** What the loop over days assigns: the rounded times of each day, in
    the two bands of that day. *)
Lemma raster_days_values days : forall ws c,
  raster_days libm fuel tz lat lon elevation year size i days
  = Some (ws, c) ->
  forall k m d, In (k, (m, d)) days ->
  exists sunrise sunset,
    calculateSunrise libm fuel tz lat lon elevation year m d
    = Some sunrise /\
    calculateSunset libm fuel tz lat lon elevation year m d
    = Some sunset /\
    In ((k - 1) * 2 * size + i, Num.to_f32 sunrise) ws /\
    In (((k - 1) * 2 + 1) * size + i, Num.to_f32 sunset) ws.
Proof.
  induction days as [|[k0 [m0 d0]] rest IH]; intros ws c H k m d Hin.
  - destruct Hin.
  - cbn [raster_days] in H.
    destruct (calculateSunrise libm fuel tz lat lon elevation year m0 d0)
      as [sr|] eqn:Esr; [|discriminate H].
    destruct (calculateSunset libm fuel tz lat lon elevation year m0 d0)
      as [ss|] eqn:Ess; [|discriminate H].
    cbn [bind] in H.
    destruct (raster_days libm fuel tz lat lon elevation year size i rest)
      as [[ws' c']|] eqn:Er; [|discriminate H].
    cbn [bind] in H. injection H as <- <-.
    destruct Hin as [E|Hin].
    + injection E as <- <- <-. exists sr, ss.
      split; [exact Esr|]. split; [exact Ess|].
      split; [left; reflexivity|right; left; reflexivity].
    + destruct (IH _ _ eq_refl k m d Hin) as (sr' & ss' & H1 & H2 & H3 & H4).
      exists sr', ss'. split; [exact H1|]. split; [exact H2|].
      split; right; right; assumption.
Qed.

End Raster.

Section Passes.

Variable libm : Libm.
Variable fuel : nat.
Variables (tz : float) (dem : Z -> float) (demNodata : float).
Variables (g : GeoTransform) (year : Z).

(** A day of the stream: a masked pixel holds -1 in both buffers. *)
Lemma stream_pass_masked width m d N mem calls mem' calls' :
  for_pixels loc_eqb
    (stream_pixel libm fuel tz dem demNodata width g year m d)
    (zrange 0 N) mem calls = Some (mem', calls') ->
  forall i, 0 <= i < N -> masked_stream (dem i) demNodata = true ->
  stream_pixel libm fuel tz dem demNodata width g year m d i
  = Some ([((true, i), -1); ((false, i), -1)], 0%nat) /\
  mem' (true, i) = -1 /\ mem' (false, i) = -1.
Proof.
  intros H i Hi Hm.
  assert (E : stream_pixel libm fuel tz dem demNodata width g year m d i
              = Some ([((true, i), -1); ((false, i), -1)], 0%nat)).
  { unfold stream_pixel. rewrite Hm. reflexivity. }
  split; [exact E|].
  assert (Hin : In i (zrange 0 N)) by (apply CalcFacts.In_zrange; lia).
  pose proof (MemFacts.pass_value _ _ loc_eqb DriverFacts.loc_eqb_spec _
                stream_locs (zrange 0 N) mem calls mem' calls'
                (DriverFacts.stream_locs_nodup N)
                (fun j wj c _ Hj =>
                   DriverFacts.stream_pixel_locs _ _ _ _ _ _ _ _ _ _ _ _ _ Hj)
                H) as P.
  split; [apply (P i _ _ _ _ Hin E); left
         |apply (P i _ _ _ _ Hin E); right; left]; reflexivity.
Qed.

(** A day of the stream: a pixel that is not masked holds the two times
    of the calculator, in minutes. *)
Lemma stream_pass_unmasked width m d N mem calls mem' calls' :
  for_pixels loc_eqb
    (stream_pixel libm fuel tz dem demNodata width g year m d)
    (zrange 0 N) mem calls = Some (mem', calls') ->
  forall i, 0 <= i < N -> masked_stream (dem i) demNodata = false ->
  exists sunrise sunset,
    calculateSunrise libm fuel tz
      (snd (pixelToGeo g (Z.rem i width) (i ÷ width)))
      (fst (pixelToGeo g (Z.rem i width) (i ÷ width)))
      (dem i) year m d = Some sunrise /\
    calculateSunset libm fuel tz
      (snd (pixelToGeo g (Z.rem i width) (i ÷ width)))
      (fst (pixelToGeo g (Z.rem i width) (i ÷ width)))
      (dem i) year m d = Some sunset /\
    stream_pixel libm fuel tz dem demNodata width g year m d i
    = Some ([((true, i), to_minutes sunrise);
             ((false, i), to_minutes sunset)], 2%nat) /\
    mem' (true, i) = to_minutes sunrise /\
    mem' (false, i) = to_minutes sunset.
Proof.
  intros H i Hi Hm.
  assert (Hin : In i (zrange 0 N)) by (apply CalcFacts.In_zrange; lia).
  destruct (for_pixels_body _ _ _ _ _ _ _ H i Hin) as (wi & c & E).
  pose proof (MemFacts.pass_value _ _ loc_eqb DriverFacts.loc_eqb_spec _
                stream_locs (zrange 0 N) mem calls mem' calls'
                (DriverFacts.stream_locs_nodup N)
                (fun j wj c _ Hj =>
                   DriverFacts.stream_pixel_locs _ _ _ _ _ _ _ _ _ _ _ _ _ Hj)
                H i wi c) as P.
  specialize (fun l v => P l v Hin E).
  unfold stream_pixel in E |- *. rewrite Hm in E |- *.
  unfold pixelToGeo in E |- *. cbn [fst snd] in E |- *.
  destruct (calculateSunrise _ _ _ _ _ _ _ _ _) as [sr|]; [|discriminate E].
  cbn [bind] in E |- *.
  destruct (calculateSunset _ _ _ _ _ _ _ _ _) as [ss|]; [|discriminate E].
  cbn [bind] in E |- *. injection E as <- <-.
  exists sr, ss. repeat split; try reflexivity.
  - apply P. left. reflexivity.
  - apply P. right. left. reflexivity.
Qed.

Variables (isLeap : bool) (x y cbx cby : Z).

Let numBands : Z := (if isLeap then 366 else 365) * 2.

Lemma raster_pass_value mem calls mem' calls' :
  for_pixels Z.eqb
    (raster_pixel libm fuel tz dem demNodata g year isLeap numBands
       x y cbx cby)
    (zrange 0 (cby * cbx)) mem calls = Some (mem', calls') ->
  forall i wi c l v, 0 <= i < cby * cbx ->
    raster_pixel libm fuel tz dem demNodata g year isLeap numBands
      x y cbx cby i = Some (wi, c) ->
    In (l, v) wi -> mem' l = v.
Proof.
  intros H i wi c l v Hi E Hl.
  assert (Hin : In i (zrange 0 (cby * cbx)))
    by (apply CalcFacts.In_zrange; lia).
  refine (MemFacts.pass_value _ _ Z.eqb Z.eqb_eq _
            (raster_locs (cbx * cby) numBands) (zrange 0 (cby * cbx))
            mem calls mem' calls' _ _ H i wi c l v Hin E Hl).
  - rewrite (Z.mul_comm cby cbx). apply DriverFacts.raster_locs_nodup.
  - intros j wj cj _ Hj.
    exact (DriverFacts.raster_pixel_locs _ _ _ _ _ _ _ _ _ _ _ _ _ _ _ Hj).
Qed.

(** A block of the raster: a masked pixel holds the no-data value in
    every band. *)
Lemma raster_pass_masked mem calls mem' calls' :
  for_pixels Z.eqb
    (raster_pixel libm fuel tz dem demNodata g year isLeap numBands
       x y cbx cby)
    (zrange 0 (cby * cbx)) mem calls = Some (mem', calls') ->
  forall i, 0 <= i < cby * cbx -> masked_raster (dem i) demNodata = true ->
  raster_pixel libm fuel tz dem demNodata g year isLeap numBands
    x y cbx cby i
  = Some (map (fun b => (b * (cbx * cby) + i, NODATA_VALUE))
            (zrange 0 numBands), 0%nat) /\
  forall b, 0 <= b < numBands -> mem' (b * (cbx * cby) + i) = NODATA_VALUE.
Proof.
  intros H i Hi Hm.
  assert (E : raster_pixel libm fuel tz dem demNodata g year isLeap numBands
                x y cbx cby i
              = Some (map (fun b => (b * (cbx * cby) + i, NODATA_VALUE))
                        (zrange 0 numBands), 0%nat)).
  { unfold raster_pixel. rewrite Hm. reflexivity. }
  split; [exact E|]. intros b Hb.
  apply (raster_pass_value _ _ _ _ H i _ _ _ _ Hi E).
  apply in_map_iff. exists b. split; [reflexivity|].
  apply CalcFacts.In_zrange. lia.
Qed.

(** A block of the raster: a pixel that is not masked holds, in the two
    bands of each day, the two times of the calculator rounded to
    binary32. *)
Lemma raster_pass_unmasked mem calls mem' calls' :
  for_pixels Z.eqb
    (raster_pixel libm fuel tz dem demNodata g year isLeap numBands
       x y cbx cby)
    (zrange 0 (cby * cbx)) mem calls = Some (mem', calls') ->
  forall i, 0 <= i < cby * cbx -> masked_raster (dem i) demNodata = false ->
  (exists ws,
     raster_pixel libm fuel tz dem demNodata g year isLeap numBands
       x y cbx cby i = Some (ws, Z.to_nat numBands)) /\
  forall k m d, In (k, (m, d)) (calendar isLeap) ->
  exists sunrise sunset,
    calculateSunrise libm fuel tz
      (snd (pixelToGeo g (x + Z.rem i cbx) (y + i ÷ cbx)))
      (fst (pixelToGeo g (x + Z.rem i cbx) (y + i ÷ cbx)))
      (dem i) year m d = Some sunrise /\
    calculateSunset libm fuel tz
      (snd (pixelToGeo g (x + Z.rem i cbx) (y + i ÷ cbx)))
      (fst (pixelToGeo g (x + Z.rem i cbx) (y + i ÷ cbx)))
      (dem i) year m d = Some sunset /\
    mem' ((k - 1) * 2 * (cbx * cby) + i) = Num.to_f32 sunrise /\
    mem' (((k - 1) * 2 + 1) * (cbx * cby) + i) = Num.to_f32 sunset.
Proof.
  intros H i Hi Hm.
  assert (Hin : In i (zrange 0 (cby * cbx)))
    by (apply CalcFacts.In_zrange; lia).
  destruct (for_pixels_body _ _ _ _ _ _ _ H i Hin) as (wi & c & E).
  pose proof (raster_pass_value _ _ _ _ H i wi c) as P.
  specialize (fun l v => P l v Hi E).
  unfold raster_pixel in E |- *. rewrite Hm in E |- *.
  unfold pixelToGeo in E |- *. cbn [fst snd] in E |- *.
  split.
  - destruct (DriverFacts.calendar_number isLeap) as (mds & Ec & El).
    rewrite Ec in E |- *.
    destruct (DriverFacts.raster_days_locs _ _ _ _ _ _ _ _ _ _ _ _ _ E)
      as [_ Hc].
    exists wi. rewrite E. do 2 f_equal. subst c. unfold numBands.
    rewrite <- El. lia.
  - intros k m d Hk.
    destruct (raster_days_values _ _ _ _ _ _ _ _ _ _ _ _ E k m d Hk)
      as (sr & ss & H1 & H2 & H3 & H4).
    exists sr, ss. split; [exact H1|]. split; [exact H2|].
    split; apply P; assumption.
Qed.

End Passes.

End PixelFacts.

(* ================================================================= *)
(** ** Properties of the two output modes *)

Import DemProcessor.

Module ExampleFacts.

Lemma world_stream_returns :
  stream_returns RefLibm.libm DATE_FUEL Example.world 2024 1 = true.
Proof. vm_compute. reflexivity. Qed.

Lemma world_raster_returns :
  raster_returns RefLibm.libm DATE_FUEL Example.world 2024 1 = true.
Proof. vm_compute. reflexivity. Qed.

Lemma world_size :
  0 <= ds_width Example.dataset * ds_height Example.dataset <= INT_MAX.
Proof. cbn. unfold INT_MAX. lia. Qed.

Lemma world_stream_length :
  option_map (fun r => Z.of_nat (List.length (st_stdout r)))
    (streamBinaryOutput RefLibm.libm DATE_FUEL Example.world 2024 1)
  = Some 7385.
Proof. vm_compute. reflexivity. Qed.

(** The pixel at 350 m on 1 March: the sun rises, then sets, within the
    day. *)
Lemma world_march_times :
  match SolarCalculator.calculateSunrise RefLibm.libm DATE_FUEL 1
          (snd (pixelToGeo Example.geo 0 1))
          (fst (pixelToGeo Example.geo 0 1)) 350 2024 3 1,
        SolarCalculator.calculateSunset RefLibm.libm DATE_FUEL 1
          (snd (pixelToGeo Example.geo 0 1))
          (fst (pixelToGeo Example.geo 0 1)) 350 2024 3 1
  with
  | Some sunrise, Some sunset =>
      ((0 <=? sunrise) && (sunrise <? sunset) && (sunset <? 24))%float
  | _, _ => false
  end = true.
Proof. vm_compute. reflexivity. Qed.
Lemma faulty_raster_returns :
  raster_returns RefLibm.libm DATE_FUEL Example.faulty 2024 1 = true.
Proof. vm_compute. reflexivity. Qed.

End ExampleFacts.

Lemma isLeapYear_spec year : isLeapYear year = true <-> Spec.leap year.
Proof.
  unfold isLeapYear, Spec.leap.
  rewrite orb_true_iff, andb_true_iff, negb_true_iff, !Z.eqb_eq, Z.eqb_neq.
  rewrite !Z.rem_divide by lia. reflexivity.
Qed.

Lemma skipn_header (a b c : list byte) :
  List.length a = 17%nat -> skipn 17 ((a ++ b) ++ c) = b ++ c.
Proof.
  intros H. rewrite <- app_assoc, skipn_app, H, Nat.sub_diag.
  rewrite skipn_all2 by lia. reflexivity.
Qed.

Lemma stream_header_split width height days g :
  stream_header width height days g
  = (Wire.magic ++ Wire.int32_bytes width ++ Wire.int32_bytes height
     ++ Wire.int32_bytes days)
    ++ flat_map Wire.double_bytes (geo_list g).
Proof. unfold stream_header. now rewrite <- !app_assoc. Qed.

Lemma concat_length_const {A : Type} (ls : list (list A)) (k : nat) :
  (forall l, In l ls -> List.length l = k) ->
  List.length (List.concat ls) = (List.length ls * k)%nat.
Proof.
  intros H. induction ls as [|l ls IH]; [reflexivity|].
  cbn [List.concat List.length]. rewrite length_app, (H l) by now left.
  rewrite IH by (intros l' Hl'; apply H; now right). lia.
Qed.

Lemma nth_error_combine_l {A B : Type} (l1 : list A) : forall (l2 : list B)
    j a b,
  nth_error (combine l1 l2) j = Some (a, b) -> nth_error l1 j = Some a.
Proof.
  induction l1 as [|x l1 IH]; intros [|y l2] [|j] a b H; cbn in *;
    try discriminate.
  - now inversion H.
  - eapply IH. exact H.
Qed.

(** The passes of the examples return. *)
Module PassFacts.

Lemma world_stream_pass :
  is_some (Mem.for_pixels loc_eqb
             (stream_pixel RefLibm.libm DATE_FUEL 1 Example.dem
                (-9999)%float 2 Example.geo 2024 3 1)
             (zrange 0 4) (fun _ => 0) 0%nat) = true.
Proof. vm_compute. reflexivity. Qed.

Lemma world_raster_pass :
  is_some (Mem.for_pixels Z.eqb
             (raster_pixel RefLibm.libm DATE_FUEL 1 Example.dem
                (-9999)%float Example.geo 2024 (isLeapYear 2024) 732
                0 0 2 2)
             (zrange 0 (2 * 2)) (fun _ => 0%float) 0%nat) = true.
Proof. vm_compute. reflexivity. Qed.

Lemma arctic_raster_pass :
  is_some (Mem.for_pixels Z.eqb
             (raster_pixel RefLibm.libm DATE_FUEL 1 Example.north_dem
                (-9999)%float Example.north 2025 (isLeapYear 2025) 730
                0 0 2 1)
             (zrange 0 (1 * 2)) (fun _ => 0%float) 0%nat) = true.
Proof. vm_compute. reflexivity. Qed.

End PassFacts.

(** C5.  The two modes mask differently.  In a day of the stream, a pixel
    whose elevation is NaN, equals the no-data value of the input or
    equals 0 gets -1 in both buffers without a call of the calculator; any
    other pixel gets the two times of the calculator, after two calls.  In
    a block of the raster, a pixel whose elevation is NaN or equals the
    no-data value gets the no-data value in all [2 * daysInYear] bands
    without a call; any other pixel, an elevation of exactly 0 included,
    gets the times of the calculator for every day, after
    [2 * daysInYear] calls. *)
Theorem masking_policy (libm : Libm) (fuel : nat) (tz : float)
    (demData demBlock : Z -> float) (demNodata : float) (g : GeoTransform)
    (year width m d N x y cbx cby : Z)
    (smem smem' : bool * Z -> Z) (rmem rmem' : Z -> float)
    (sc sc' rc rc' : nat) :
  let isLeap := isLeapYear year in
  let numBands := (if isLeap then 366 else 365) * 2 in
  let spixel := stream_pixel libm fuel tz demData demNodata width g year m d in
  let rpixel := raster_pixel libm fuel tz demBlock demNodata g year isLeap
                  numBands x y cbx cby in
  Mem.for_pixels loc_eqb spixel (zrange 0 N) smem sc = Some (smem', sc') ->
  Mem.for_pixels Z.eqb rpixel (zrange 0 (cby * cbx)) rmem rc
  = Some (rmem', rc') ->
  (forall i, 0 <= i < N ->
     is_nan (demData i) = true \/ (demData i =? demNodata)%float = true \/
     (demData i =? 0)%float = true ->
     spixel i = Some ([((true, i), -1); ((false, i), -1)], 0%nat) /\
     smem' (true, i) = -1 /\ smem' (false, i) = -1) /\
  (forall i, 0 <= i < N ->
     is_nan (demData i) = false -> (demData i =? demNodata)%float = false ->
     (demData i =? 0)%float = false ->
     exists sunrise sunset,
       spixel i = Some ([((true, i), to_minutes sunrise);
                         ((false, i), to_minutes sunset)], 2%nat) /\
       smem' (true, i) = to_minutes sunrise /\
       smem' (false, i) = to_minutes sunset) /\
  (forall i, 0 <= i < cby * cbx ->
     is_nan (demBlock i) = true \/ (demBlock i =? demNodata)%float = true ->
     (exists ws, rpixel i = Some (ws, 0%nat)) /\
     forall b, 0 <= b < numBands ->
       rmem' (b * (cbx * cby) + i) = NODATA_VALUE) /\
  (forall i, 0 <= i < cby * cbx ->
     (is_nan (demBlock i) = false /\
      (demBlock i =? demNodata)%float = false) \/
     ((demBlock i =? 0)%float = true /\
      (demBlock i =? demNodata)%float = false) ->
     (exists ws, rpixel i = Some (ws, Z.to_nat numBands)) /\
     forall k md, In (k, md) (calendar isLeap) ->
     exists sunrise sunset,
       calculateSunrise libm fuel tz
         (snd (pixelToGeo g (x + Z.rem i cbx) (y + i ÷ cbx)))
         (fst (pixelToGeo g (x + Z.rem i cbx) (y + i ÷ cbx)))
         (demBlock i) year (fst md) (snd md) = Some sunrise /\
       calculateSunset libm fuel tz
         (snd (pixelToGeo g (x + Z.rem i cbx) (y + i ÷ cbx)))
         (fst (pixelToGeo g (x + Z.rem i cbx) (y + i ÷ cbx)))
         (demBlock i) year (fst md) (snd md) = Some sunset /\
       rmem' ((k - 1) * 2 * (cbx * cby) + i) = Num.to_f32 sunrise /\
       rmem' (((k - 1) * 2 + 1) * (cbx * cby) + i) = Num.to_f32 sunset).
Proof.
  intros isLeap numBands spixel rpixel Hs Hr.
  split; [|split; [|split]].
  - intros i Hi Hm.
    apply (PixelFacts.stream_pass_masked _ _ _ _ _ _ _ _ _ _ _ _ _ _ _ Hs
             i Hi).
    unfold masked_stream.
    destruct Hm as [-> | [-> | ->]]; rewrite ?orb_true_r; reflexivity.
  - intros i Hi H1 H2 H3.
    destruct (PixelFacts.stream_pass_unmasked _ _ _ _ _ _ _ _ _ _ _ _ _ _ _
                Hs i Hi) as (sr & ss & _ & _ & E & Hsr & Hss).
    { unfold masked_stream. rewrite H1, H2, H3. reflexivity. }
    exists sr, ss. split; [exact E|]. split; assumption.
  - intros i Hi Hm.
    destruct (PixelFacts.raster_pass_masked _ _ _ _ _ _ _ _ _ _ _ _ _ _ _
                _ Hr i Hi) as [E P].
    { unfold masked_raster.
      destruct Hm as [-> | ->]; rewrite ?orb_true_r; reflexivity. }
    split; [eexists; exact E|exact P].
  - intros i Hi Hm.
    assert (Hu : masked_raster (demBlock i) demNodata = false).
    { unfold masked_raster. destruct Hm as [[-> ->]|[H0 ->]];
        [reflexivity|].
      rewrite (PixelFacts.eqb_not_nan _ _ H0). reflexivity. }
    destruct (PixelFacts.raster_pass_unmasked _ _ _ _ _ _ _ _ _ _ _ _ _ _ _
                _ Hr i Hi Hu) as [E P].
    split; [exact E|]. intros k [mm dd] Hk. exact (P k mm dd Hk).
Qed.

(** The 2 x 2 raster on 2024-03-01: cell 0 is no-data, cell 1 is at sea
    level (masked by the stream, computed by the raster), cell 2 is at
    350 m. *)
Lemma masking_policy_witness :
  exists smem' sc' rmem' rc',
    Mem.for_pixels loc_eqb
      (stream_pixel RefLibm.libm DATE_FUEL 1 Example.dem (-9999)%float 2
         Example.geo 2024 3 1)
      (zrange 0 4) (fun _ => 0) 0%nat = Some (smem', sc') /\
    Mem.for_pixels Z.eqb
      (raster_pixel RefLibm.libm DATE_FUEL 1 Example.dem (-9999)%float
         Example.geo 2024 (isLeapYear 2024) 732 0 0 2 2)
      (zrange 0 (2 * 2)) (fun _ => 0%float) 0%nat = Some (rmem', rc') /\
    smem' (true, 0) = -1 /\ smem' (true, 1) = -1 /\
    (exists sunrise sunset,
       smem' (true, 2) = to_minutes sunrise /\
       smem' (false, 2) = to_minutes sunset) /\
    rmem' (5 * (2 * 2) + 0) = NODATA_VALUE /\
    (exists ws,
       raster_pixel RefLibm.libm DATE_FUEL 1 Example.dem (-9999)%float
         Example.geo 2024 (isLeapYear 2024) 732 0 0 2 2 1
       = Some (ws, 732%nat)).
Proof.
  pose proof PassFacts.world_stream_pass as Ss.
  destruct (Mem.for_pixels loc_eqb
              (stream_pixel RefLibm.libm DATE_FUEL 1 Example.dem
                 (-9999)%float 2 Example.geo 2024 3 1)
              (zrange 0 4) (fun _ => 0) 0%nat)
    as [[smem' sc']|] eqn:Es; [clear Ss|discriminate Ss].
  pose proof PassFacts.world_raster_pass as Sr.
  destruct (Mem.for_pixels Z.eqb
              (raster_pixel RefLibm.libm DATE_FUEL 1 Example.dem
                 (-9999)%float Example.geo 2024 (isLeapYear 2024) 732
                 0 0 2 2)
              (zrange 0 (2 * 2)) (fun _ => 0%float) 0%nat)
    as [[rmem' rc']|] eqn:Er; [clear Sr|discriminate Sr].
  exists smem', sc', rmem', rc'.
  split; [reflexivity|]. split; [reflexivity|].
  destruct (masking_policy RefLibm.libm DATE_FUEL 1 Example.dem Example.dem
              (-9999)%float Example.geo 2024 2 3 1 4 0 0 2 2
              _ _ _ _ _ _ _ _ Es Er) as (S1 & S2 & R1 & R2).
  split; [apply (S1 0); [lia|right; left; reflexivity]|].
  split; [apply (S1 1); [lia|right; right; reflexivity]|].
  split.
  { destruct (S2 2) as (sr & ss & _ & H1 & H2);
      [lia|reflexivity|reflexivity|reflexivity|].
    exists sr, ss. split; assumption. }
  split.
  { apply (R1 0); [lia|right; reflexivity|change (0 <= 5 < 732); lia]. }
  apply (R2 1); [lia|right; split; reflexivity].
Defined.



(** C9.  The result of a pixel pass does not depend on the number of
    threads.  For the pass of a day of the stream and for the pass of a
    block of the raster, run as a statically scheduled parallel loop: two
    executions from the same buffers, with any two numbers of threads and
    any interleavings of the threads' assignments, leave the same value at
    every location; when the sequential loop returns, an execution exists
    for every number of threads and leaves what the sequential loop
    leaves; and in each execution no two assignments go to the same
    location. *)
Theorem thread_count_independent (libm : Libm) (fuel : nat) (tz : float)
    (demData demBlock : Z -> float) (demNodata : float) (g : GeoTransform)
    (year width m d N x y cbx cby : Z) (n1 n2 : nat) :
  let isLeap := isLeapYear year in
  let numBands := (if isLeap then 366 else 365) * 2 in
  let spixel := stream_pixel libm fuel tz demData demNodata width g year m d in
  let rpixel := raster_pixel libm fuel tz demBlock demNodata g year isLeap
                  numBands x y cbx cby in
  (1 <= n1)%nat -> (1 <= n2)%nat ->
  (forall mem mem1 mem2,
     Mem.parallel_for loc_eqb spixel N n1 mem mem1 ->
     Mem.parallel_for loc_eqb spixel N n2 mem mem2 ->
     forall l, mem1 l = mem2 l) /\
  (forall mem mem1 mem2,
     Mem.parallel_for Z.eqb rpixel (cby * cbx) n1 mem mem1 ->
     Mem.parallel_for Z.eqb rpixel (cby * cbx) n2 mem mem2 ->
     forall l, mem1 l = mem2 l) /\
  (forall mem calls mem' calls',
     Mem.for_pixels loc_eqb spixel (zrange 0 N) mem calls
     = Some (mem', calls') ->
     Mem.parallel_for loc_eqb spixel N n1 mem mem') /\
  (forall mem calls mem' calls',
     Mem.for_pixels Z.eqb rpixel (zrange 0 (cby * cbx)) mem calls
     = Some (mem', calls') ->
     Mem.parallel_for Z.eqb rpixel (cby * cbx) n1 mem mem') /\
  (forall tws,
     Forall2 (fun c w => Mem.thread_writes spixel c = Some w)
       (Mem.static_chunks 0 (Z.to_nat N) n1) tws ->
     NoDup (map fst (List.concat tws))) /\
  (forall tws,
     Forall2 (fun c w => Mem.thread_writes rpixel c = Some w)
       (Mem.static_chunks 0 (Z.to_nat (cby * cbx)) n1) tws ->
     NoDup (map fst (List.concat tws))).
Proof.
  intros isLeap numBands spixel rpixel H1 H2.
  assert (Sn : NoDup (flat_map stream_locs (zrange 0 N)))
    by apply DriverFacts.stream_locs_nodup.
  assert (Sl : forall i wi c, In i (zrange 0 N) -> spixel i = Some (wi, c) ->
                 map fst wi = stream_locs i).
  { intros i wi c _ E.
    exact (DriverFacts.stream_pixel_locs _ _ _ _ _ _ _ _ _ _ _ _ _ E). }
  assert (Rn : NoDup (flat_map (raster_locs (cbx * cby) numBands)
                        (zrange 0 (cby * cbx)))).
  { rewrite (Z.mul_comm cby cbx). apply DriverFacts.raster_locs_nodup. }
  assert (Rl : forall i wi c, In i (zrange 0 (cby * cbx)) ->
                 rpixel i = Some (wi, c) ->
                 map fst wi = raster_locs (cbx * cby) numBands i).
  { intros i wi c _ E.
    exact (DriverFacts.raster_pixel_locs _ _ _ _ _ _ _ _ _ _ _ _ _ _ _ E). }
  split; [|split; [|split; [|split; [|split]]]].
  - intros mem mem1 mem2.
    exact (PixelFacts.parallel_for_unique _ _ loc_eqb
             DriverFacts.loc_eqb_spec spixel stream_locs N Sn Sl n1 n2
             mem mem1 mem2 H1 H2).
  - intros mem mem1 mem2.
    exact (PixelFacts.parallel_for_unique _ _ Z.eqb Z.eqb_eq rpixel
             (raster_locs (cbx * cby) numBands) (cby * cbx) Rn Rl n1 n2
             mem mem1 mem2 H1 H2).
  - intros mem calls mem' calls'.
    exact (PixelFacts.sequential_parallel_for _ _ loc_eqb
             DriverFacts.loc_eqb_spec spixel stream_locs N Sn Sl n1
             mem calls mem' calls' H1).
  - intros mem calls mem' calls'.
    exact (PixelFacts.sequential_parallel_for _ _ Z.eqb Z.eqb_eq rpixel
             (raster_locs (cbx * cby) numBands) (cby * cbx) Rn Rl n1
             mem calls mem' calls' H1).
  - intros tws Hw.
    pose proof (MemFacts.thread_writes_concat _ _ spixel _ _ Hw) as Hc.
    rewrite (PixelFacts.static_chunks_pixels N n1 H1) in Hc.
    rewrite (MemFacts.thread_writes_locs _ _ spixel stream_locs
               (zrange 0 N) _ Sl Hc).
    exact Sn.
  - intros tws Hw.
    pose proof (MemFacts.thread_writes_concat _ _ rpixel _ _ Hw) as Hc.
    rewrite (PixelFacts.static_chunks_pixels (cby * cbx) n1 H1) in Hc.
    rewrite (MemFacts.thread_writes_locs _ _ rpixel
               (raster_locs (cbx * cby) numBands)
               (zrange 0 (cby * cbx)) _ Rl Hc).
    exact Rn.
Qed.

(** The 2 x 2 raster with one thread and with three. *)
Lemma thread_count_independent_witness :
  (1 <= 1)%nat /\ (1 <= 3)%nat /\
  exists smem1 smem3 rmem1 rmem3,
    Mem.parallel_for loc_eqb
      (stream_pixel RefLibm.libm DATE_FUEL 1 Example.dem (-9999)%float 2
         Example.geo 2024 3 1) 4 1 (fun _ => 0) smem1 /\
    Mem.parallel_for loc_eqb
      (stream_pixel RefLibm.libm DATE_FUEL 1 Example.dem (-9999)%float 2
         Example.geo 2024 3 1) 4 3 (fun _ => 0) smem3 /\
    (forall l, smem1 l = smem3 l) /\
    Mem.parallel_for Z.eqb
      (raster_pixel RefLibm.libm DATE_FUEL 1 Example.dem (-9999)%float
         Example.geo 2024 (isLeapYear 2024) 732 0 0 2 2)
      (2 * 2) 1 (fun _ => 0%float) rmem1 /\
    Mem.parallel_for Z.eqb
      (raster_pixel RefLibm.libm DATE_FUEL 1 Example.dem (-9999)%float
         Example.geo 2024 (isLeapYear 2024) 732 0 0 2 2)
      (2 * 2) 3 (fun _ => 0%float) rmem3 /\
    (forall l, rmem1 l = rmem3 l).
Proof.
  assert (H1 : (1 <= 1)%nat) by lia.
  assert (H3 : (1 <= 3)%nat) by lia.
  split; [exact H1|]. split; [exact H3|].
  pose proof PassFacts.world_stream_pass as Ss.
  destruct (Mem.for_pixels loc_eqb
              (stream_pixel RefLibm.libm DATE_FUEL 1 Example.dem
                 (-9999)%float 2 Example.geo 2024 3 1)
              (zrange 0 4) (fun _ => 0) 0%nat)
    as [[smem' sc']|] eqn:Es; [clear Ss|discriminate Ss].
  pose proof PassFacts.world_raster_pass as Sr.
  destruct (Mem.for_pixels Z.eqb
              (raster_pixel RefLibm.libm DATE_FUEL 1 Example.dem
                 (-9999)%float Example.geo 2024 (isLeapYear 2024) 732
                 0 0 2 2)
              (zrange 0 (2 * 2)) (fun _ => 0%float) 0%nat)
    as [[rmem' rc']|] eqn:Er; [clear Sr|discriminate Sr].
  destruct (thread_count_independent RefLibm.libm DATE_FUEL 1 Example.dem
              Example.dem (-9999)%float Example.geo 2024 2 3 1 4 0 0 2 2
              1 3 H1 H3) as (Su & Ru & _).
  destruct (thread_count_independent RefLibm.libm DATE_FUEL 1 Example.dem
              Example.dem (-9999)%float Example.geo 2024 2 3 1 4 0 0 2 2
              1 1 H1 H1) as (_ & _ & S1 & R1 & _).
  destruct (thread_count_independent RefLibm.libm DATE_FUEL 1 Example.dem
              Example.dem (-9999)%float Example.geo 2024 2 3 1 4 0 0 2 2
              3 1 H3 H1) as (_ & _ & S3 & R3 & _).
  exists smem', smem', rmem', rmem'.
  pose proof (S1 _ _ _ _ Es) as P1. pose proof (S3 _ _ _ _ Es) as P3.
  pose proof (R1 _ _ _ _ Er) as Q1. pose proof (R3 _ _ _ _ Er) as Q3.
  split; [exact P1|]. split; [exact P3|].
  split; [exact (Su _ _ _ P1 P3)|].
  split; [exact Q1|]. split; [exact Q3|].
  exact (Ru _ _ _ Q1 Q3).
Defined.

(** C10.  The no-data value of the raster output is the sentinel of the
    calculator: the two constants are equal, also after the rounding to
    binary32 that the raster applies.  So, after the pass over a block, a
    masked pixel holds that value in every band, and a pixel that is not
    masked holds the same value in the two bands of every day on which the
    cosine of the hour angle is outside [[-1, 1]]. *)
Theorem nodata_is_no_event (libm : Libm) (fuel : nat) (tz : float)
    (demBlock : Z -> float) (demNodata : float) (g : GeoTransform)
    (year x y cbx cby : Z) (mem mem' : Z -> float) (calls calls' : nat) :
  let isLeap := isLeapYear year in
  let numBands := (if isLeap then 366 else 365) * 2 in
  Mem.for_pixels Z.eqb
    (raster_pixel libm fuel tz demBlock demNodata g year isLeap numBands
       x y cbx cby)
    (zrange 0 (cby * cbx)) mem calls = Some (mem', calls') ->
  NODATA_VALUE = NO_EVENT /\
  Num.to_f32 NO_EVENT = NODATA_VALUE /\
  (forall i, 0 <= i < cby * cbx ->
     is_nan (demBlock i) = true \/ (demBlock i =? demNodata)%float = true ->
     forall b, 0 <= b < numBands ->
       mem' (b * (cbx * cby) + i) = NODATA_VALUE) /\
  (forall i, 0 <= i < cby * cbx ->
     is_nan (demBlock i) = false ->
     (demBlock i =? demNodata)%float = false ->
     forall k md decl, In (k, md) (calendar isLeap) ->
     sunDeclination libm fuel
       (julianCentury (julianDay year (fst md) (snd md))) = Some decl ->
     (1 <? cosHourAngle libm
             (snd (pixelToGeo g (x + Z.rem i cbx) (y + i ÷ cbx))) decl
             (demBlock i))%float = true \/
     (cosHourAngle libm
        (snd (pixelToGeo g (x + Z.rem i cbx) (y + i ÷ cbx))) decl
        (demBlock i) <? -1)%float = true ->
     mem' ((k - 1) * 2 * (cbx * cby) + i) = NODATA_VALUE /\
     mem' (((k - 1) * 2 + 1) * (cbx * cby) + i) = NODATA_VALUE).
Proof.
  intros isLeap numBands H.
  assert (Hr : Num.to_f32 NO_EVENT = NODATA_VALUE)
    by (vm_compute; reflexivity).
  split; [reflexivity|]. split; [exact Hr|]. split.
  - intros i Hi Hm.
    apply (PixelFacts.raster_pass_masked _ _ _ _ _ _ _ _ _ _ _ _ _ _ _ _ H
             i Hi).
    unfold masked_raster.
    destruct Hm as [-> | ->]; rewrite ?orb_true_r; reflexivity.
  - intros i Hi Hn He k [mm dd] decl Hk Hd Hp.
    destruct (PixelFacts.raster_pass_unmasked _ _ _ _ _ _ _ _ _ _ _ _ _ _ _
                _ H i Hi) as [_ P].
    { unfold masked_raster. rewrite Hn, He. reflexivity. }
    destruct (P k mm dd Hk) as (sr & ss & Hsr & Hss & M1 & M2).
    cbn [fst snd] in Hd.
    unfold calculateSunrise in Hsr. unfold calculateSunset in Hss.
    rewrite (PixelFacts.calculateSolarTime_polar _ _ _ _ _ _ _ _ _ _ _ _
               Hd Hp Hsr) in M1.
    rewrite (PixelFacts.calculateSolarTime_polar _ _ _ _ _ _ _ _ _ _ _ _
               Hd Hp Hss) in M2.
    rewrite Hr in M1, M2. split; assumption.
Qed.

(** Two cells at 80 degrees north in 2025: the no-data cell and, on the
    21st of June (day 172), the cell where the sun does not set hold the
    same value. *)
Lemma nodata_is_no_event_witness :
  exists mem' calls',
    Mem.for_pixels Z.eqb
      (raster_pixel RefLibm.libm DATE_FUEL 1 Example.north_dem
         (-9999)%float Example.north 2025 (isLeapYear 2025) 730 0 0 2 1)
      (zrange 0 (1 * 2)) (fun _ => 0%float) 0%nat = Some (mem', calls') /\
    mem' (342 * (2 * 1) + 0) = NODATA_VALUE /\
    mem' (342 * (2 * 1) + 1) = NODATA_VALUE /\
    mem' (343 * (2 * 1) + 1) = NODATA_VALUE.
Proof.
  pose proof PassFacts.arctic_raster_pass as Sa.
  destruct (Mem.for_pixels Z.eqb
              (raster_pixel RefLibm.libm DATE_FUEL 1 Example.north_dem
                 (-9999)%float Example.north 2025 (isLeapYear 2025) 730
                 0 0 2 1)
              (zrange 0 (1 * 2)) (fun _ => 0%float) 0%nat)
    as [[mem' calls']|] eqn:E; [clear Sa|discriminate Sa].
  exists mem', calls'. split; [reflexivity|].
  destruct (nodata_is_no_event RefLibm.libm DATE_FUEL 1 Example.north_dem
              (-9999)%float Example.north 2025 0 0 2 1 _ _ _ _ E)
    as (_ & _ & M & P).
  split; [apply (M 0); [lia|right; reflexivity|change (0 <= 342 < 730); lia]|].
  assert (Hk : In (172, (6, 21)) (calendar (isLeapYear 2025))).
  { apply (nth_error_In _ 171). vm_compute. reflexivity. }
  destruct (sunDeclination RefLibm.libm DATE_FUEL
              (julianCentury (julianDay 2025 6 21))) as [decl|] eqn:Ed;
    [|vm_compute in Ed; discriminate Ed].
  refine (P 1 _ eq_refl eq_refl 172 (6, 21) decl Hk Ed _); [lia|].
  right. vm_compute in Ed. injection Ed as <-. vm_compute. reflexivity.
Defined.

(* ================================================================= *)
(** ** More on the calculator *)

Module RangeFacts.

Import SolarCalculator FloatDefs FloatFacts.

Local Open Scope float_scope.

(** A loop that returns leaves its condition false, and keeps what its
    body keeps. *)
Lemma while_loop_inv {A : Type} (P : A -> Prop) (cond : A -> bool)
    (body : A -> A) :
  (forall s, P s -> cond s = true -> P (body s)) ->
  forall fuel s r, P s -> while_loop fuel cond body s = Some r ->
  P r /\ cond r = false.
Proof.
  intros Hstep fuel. induction fuel as [|n IH]; intros s r Hs H.
  - cbn in H. destruct (cond s) eqn:E; [discriminate H|].
    injection H as <-. split; assumption.
  - cbn in H. destruct (cond s) eqn:E.
    + exact (IH _ _ (Hstep s Hs E) H).
    + injection H as <-. split; assumption.
Qed.

(** Taking 24 from a value of at least 24 does not go below zero. *)
Lemma sub24_not_neg s : (24 <=? s) = true -> (s - 24 <? 0) = false.
Proof.
  intros H. apply not_ltb_of_nonneg.
  rewrite leb_spec, Prim2SF_24 in H. rewrite sub_spec, Prim2SF_24.
  pose proof (Prim2SF_valid s) as Hv.
  destruct (Prim2SF s) as [sx|sx| |sx mx ex].
  - discriminate H.
  - destruct sx; [discriminate H|exact I].
  - discriminate H.
  - destruct sx; [discriminate H|].
    change (bounded prec emax mx ex = true) in Hv.
    destruct (proj1 (leb24_spec mx ex Hv) H) as [He HM].
    unfold SF64sub, SFsub, F24.
    replace (Z.min ex (-48)) with (-48)%Z by lia.
    cbn [cond_Zopp]. rewrite shl_align_fst by lia.
    replace (ex - -48)%Z with (ex + 48)%Z by lia.
    change (Z.pos (fst (shl_align m24 (-48) (-48)))) with (Z.pos m24).
    destruct (Z.pos mx * 2 ^ (ex + 48) - Z.pos m24)%Z as [|p|p] eqn:E;
      [exact I| |lia].
    unfold binary_normalize.
    pose proof (binary_round_shape false p (-48)) as Hs. cbv zeta in Hs.
    destruct (binary_round prec emax false p (-48)) as [s'|s'| |s' m' e'];
      cbn [nonneg]; try contradiction.
    + exact I.
    + destruct Hs as [-> _]. exact I.
    + destruct Hs as [-> _]. exact I.
Qed.

(** The two loops of [calculateSolarTime] leave a value that is neither
    below 0 nor at least 24. *)
Lemma normalizeHours_result fuel t r :
  normalizeHours fuel t = Some r ->
  (r <? 0) = false /\ (24 <=? r) = false.
Proof.
  unfold normalizeHours. intros H.
  destruct (while_loop fuel (fun s => s <? 0.0) (fun s => s + 24.0) t)
    as [s1|] eqn:E1; [|discriminate H].
  cbn [bind] in H.
  destruct (while_loop_inv (fun _ => True) _ _ (fun _ _ _ => I) _ _ _ I E1)
    as [_ H1].
  exact (while_loop_inv (fun s => (s <? 0) = false) _ _
           (fun s _ Hc => sub24_not_neg s Hc) _ _ _ H1 H).
Qed.

Lemma not_nan_Prim2SF a : is_nan a = false -> Prim2SF a <> S754_nan.
Proof.
  unfold is_nan. rewrite FloatAxioms.eqb_spec. intros H E.
  rewrite E in H. discriminate H.
Qed.

Lemma SFcompare_some x y :
  x <> S754_nan -> y <> S754_nan -> SFcompare x y <> None.
Proof.
  destruct x as [sa|sa| |sa ma ea]; destruct y as [sb|sb| |sb mb eb];
    intros Hx Hy; try congruence; cbn [SFcompare]; discriminate.
Qed.

(** Two values that are not NaN compare one way or the other. *)
Lemma leb_of_not_ltb a b :
  is_nan a = false -> is_nan b = false -> (a <? b) = false ->
  (b <=? a) = true.
Proof.
  intros Ha Hb. apply not_nan_Prim2SF in Ha. apply not_nan_Prim2SF in Hb.
  rewrite ltb_spec, leb_spec. unfold SFltb, SFleb.
  rewrite (CalcFacts.SFcompare_antisym (Prim2SF a) (Prim2SF b)).
  pose proof (SFcompare_some _ _ Ha Hb) as Hc.
  destruct (SFcompare (Prim2SF a) (Prim2SF b)) as [[| |]|];
    cbn [option_map CompOpp]; congruence.
Qed.

Lemma ltb_of_not_leb a b :
  is_nan a = false -> is_nan b = false -> (b <=? a) = false ->
  (a <? b) = true.
Proof.
  intros Ha Hb. apply not_nan_Prim2SF in Ha. apply not_nan_Prim2SF in Hb.
  rewrite ltb_spec, leb_spec. unfold SFltb, SFleb.
  rewrite (CalcFacts.SFcompare_antisym (Prim2SF a) (Prim2SF b)).
  pose proof (SFcompare_some _ _ Ha Hb) as Hc.
  destruct (SFcompare (Prim2SF a) (Prim2SF b)) as [[| |]|];
    cbn [option_map CompOpp]; congruence.
Qed.

(** A returned time is the sentinel or comes out of the two loops. *)
Lemma calculateSolarTime_cases libm fuel tz lat lon elev year month day
    isSunrise r :
  calculateSolarTime libm fuel tz lat lon elev year month day isSunrise
  = Some r ->
  exists eqTime decl,
    equationOfTime libm fuel (julianCentury (julianDay year month day))
    = Some eqTime /\
    sunDeclination libm fuel (julianCentury (julianDay year month day))
    = Some decl /\
    ((hourAngleSunrise libm lat decl elev <? 0) = true /\ r = NO_EVENT \/
     (hourAngleSunrise libm lat decl elev <? 0) = false /\
     normalizeHours fuel
       (localSolarTime tz lon eqTime (hourAngleSunrise libm lat decl elev)
          isSunrise) = Some r).
Proof.
  intros H. unfold calculateSolarTime in H.
  destruct (equationOfTime libm fuel _) as [eqTime|]; [|discriminate H].
  cbn [bind] in H.
  destruct (sunDeclination libm fuel _) as [decl|]; [|discriminate H].
  cbn [bind] in H. exists eqTime, decl.
  split; [reflexivity|]. split; [reflexivity|].
  destruct (hourAngleSunrise libm lat decl elev <? 0.0) eqn:E.
  - left. split; [reflexivity|]. injection H as <-. reflexivity.
  - right. split; [reflexivity|exact H].
Qed.

Lemma same_double_eq a b : Checks.same_double a b = true -> a = b.
Proof. apply FloatAxioms.Leibniz.eqb_spec. Qed.

Lemma months_ok_computed :
  forallb Checks.months_ok (zrange 1900 201) = true.
Proof. vm_compute. reflexivity. Qed.

End RangeFacts.

(** X1.  Whatever the inputs, a time that [calculateSolarTime] returns is the
    sentinel -9999, or a NaN, or lies in [[0, 24)]. *)
Theorem solar_time_range (libm : Libm) (fuel : nat)
    (tz lat lon elev : float) (year month day : Z) (isSunrise : bool)
    (r : float) :
  calculateSolarTime libm fuel tz lat lon elev year month day isSunrise
  = Some r ->
  r = NO_EVENT \/ is_nan r = true \/
  ((0 <=? r)%float = true /\ (r <? 24)%float = true).
Proof.
  intros H.
  destruct (RangeFacts.calculateSolarTime_cases _ _ _ _ _ _ _ _ _ _ _ H)
    as (eqTime & decl & _ & _ & [[_ ->]|[_ Hn]]); [left; reflexivity|].
  right. destruct (RangeFacts.normalizeHours_result _ _ _ Hn) as [H0 H24].
  destruct (is_nan r) eqn:En; [left; reflexivity|right].
  split.
  - exact (RangeFacts.leb_of_not_ltb r 0 En eq_refl H0).
  - exact (RangeFacts.ltb_of_not_leb r 24 En eq_refl H24).
Qed.

Lemma solar_time_range_witness :
  exists r,
    calculateSolarTime RefLibm.libm DATE_FUEL 1 45 5 200 2025 6 21 true
    = Some r /\
    (r = NO_EVENT \/ is_nan r = true \/
     ((0 <=? r)%float = true /\ (r <? 24)%float = true)).
Proof.
  destruct (calculateSolarTime RefLibm.libm DATE_FUEL 1 45 5 200 2025 6 21
              true) as [r|] eqn:E; [|vm_compute in E; discriminate E].
  exists r. split; [reflexivity|].
  exact (solar_time_range _ _ _ _ _ _ _ _ _ _ _ E).
Defined.

(** X2.  For the same place and day, sunrise and sunset are both the sentinel
    or neither is: a day has both events or none. *)
Theorem sunrise_sunset_together (libm : Libm) (fuel : nat)
    (tz lat lon elev : float) (year month day : Z) (sunrise sunset : float) :
  calculateSunrise libm fuel tz lat lon elev year month day = Some sunrise ->
  calculateSunset libm fuel tz lat lon elev year month day = Some sunset ->
  (sunrise = NO_EVENT <-> sunset = NO_EVENT).
Proof.
  unfold calculateSunrise, calculateSunset. intros Hr Hs.
  destruct (RangeFacts.calculateSolarTime_cases _ _ _ _ _ _ _ _ _ _ _ Hr)
    as (e1 & d1 & He1 & Hd1 & C1).
  destruct (RangeFacts.calculateSolarTime_cases _ _ _ _ _ _ _ _ _ _ _ Hs)
    as (e2 & d2 & He2 & Hd2 & C2).
  rewrite He1 in He2. injection He2 as <-.
  rewrite Hd1 in Hd2. injection Hd2 as <-.
  destruct C1 as [[H1 ->]|[H1 N1]]; destruct C2 as [[H2 ->]|[H2 N2]];
    try congruence.
  - split; reflexivity.
  - destruct (RangeFacts.normalizeHours_result _ _ _ N1) as [A _].
    destruct (RangeFacts.normalizeHours_result _ _ _ N2) as [B _].
    split; intros ->; [discriminate A|discriminate B].
Qed.

Lemma sunrise_sunset_together_witness :
  exists sunrise sunset,
    calculateSunrise RefLibm.libm DATE_FUEL 1 80 5 200 2025 6 21
    = Some sunrise /\
    calculateSunset RefLibm.libm DATE_FUEL 1 80 5 200 2025 6 21
    = Some sunset /\
    (sunrise = NO_EVENT <-> sunset = NO_EVENT).
Proof.
  destruct (calculateSunrise RefLibm.libm DATE_FUEL 1 80 5 200 2025 6 21)
    as [sr|] eqn:Er; [|vm_compute in Er; discriminate Er].
  destruct (calculateSunset RefLibm.libm DATE_FUEL 1 80 5 200 2025 6 21)
    as [ss|] eqn:Es; [|vm_compute in Es; discriminate Es].
  exists sr, ss. split; [reflexivity|]. split; [reflexivity|].
  exact (sunrise_sunset_together _ _ _ _ _ _ _ _ _ _ _ Er Es).
Defined.

(** X3.  In every year from 1900 to 2100 and for every month, the Julian
    day of the first day of the next month (of January of the next year
    after December) is the Julian day of the first day of the month plus the
    number of days that the loops of the driver give the month, 28 to 31:
    the month lengths and the leap years of the driver agree with
    [julianDay], and [julianDay] is exact on these dates. *)
Theorem julianDay_months (year m : Z) :
  1900 <= year <= 2100 -> 1 <= m <= 12 ->
  julianDay (if m =? 12 then year + 1 else year)
    (if m =? 12 then 1 else m + 1) 1
  = (julianDay year m 1
     + Num.of_int (daysInMonth (isLeapYear year) m))%float.
Proof.
  intros Hy Hm.
  pose proof (proj1 (forallb_forall _ _) RangeFacts.months_ok_computed year
                (CalcFacts.In_zrange 1900 201 year ltac:(lia))) as H.
  unfold Checks.months_ok in H.
  apply RangeFacts.same_double_eq.
  exact (proj1 (forallb_forall _ _) H m
           (CalcFacts.In_zrange 1 12 m ltac:(lia))).
Qed.

(** February of 2024 has 29 days, February of 1900 has 28. *)
Lemma julianDay_months_witness :
  julianDay 2024 3 1 = (julianDay 2024 2 1 + Num.of_int 29)%float /\
  julianDay 1900 3 1 = (julianDay 1900 2 1 + Num.of_int 28)%float.
Proof.
  split.
  - exact (julianDay_months 2024 2 ltac:(lia) ltac:(lia)).
  - exact (julianDay_months 1900 2 ltac:(lia) ltac:(lia)).
Defined.

(* ================================================================= *)
(** ** More on the stream *)

Module StreamFacts.

Import SolarCalculator DemProcessor Mem.

Local Open Scope Z_scope.

Lemma list_sum_cons a l : list_sum (a :: l) = (a + list_sum l)%nat.
Proof. reflexivity. Qed.

Section Days.

Variable libm : Libm.
Variable fuel : nat.
Variables (tz : float) (demData : Z -> float) (demNodata : float).
Variables (width N : Z) (g : GeoTransform) (year D : Z).

(** What the loop over days did when it returns: one pass and one block
    per day, a progress report on every tenth day, and the calls of the
    passes. *)
Lemma stream_days_trace days : forall mem out log calls mem' out' log' calls',
  stream_days libm fuel tz demData demNodata width N g year D days
    (mem, out, log, calls) = Some (mem', out', log', calls') ->
  exists mems,
    Forall2 (fun kmd memk => exists mem0 c0 c1,
               for_pixels loc_eqb
                 (stream_pixel libm fuel tz demData demNodata width g year
                    (fst (snd kmd)) (snd (snd kmd)))
                 (zrange 0 N) mem0 c0 = Some (memk, c1))
      days mems /\
    out' = out ++ List.concat
                    (map (fun p => stream_block N (fst (fst p)) (snd p))
                         (combine days mems)) /\
    log' = log ++ flat_map (fun kmd => if Z.rem (fst kmd) 10 =? 0
                                       then [ProgressDay (fst kmd) D]
                                       else []) days /\
    calls' = (calls
              + list_sum
                  (map (fun kmd =>
                          list_sum
                            (map (fun i =>
                                    match stream_pixel libm fuel tz demData
                                            demNodata width g year
                                            (fst (snd kmd)) (snd (snd kmd)) i
                                    with
                                    | Some (_, c) => c
                                    | None => O
                                    end) (zrange 0 N))) days))%nat.
Proof.
  induction days as [|[k [m d]] days IH];
    intros mem out log calls mem' out' log' calls' H.
  - cbn in H. injection H as _ <- <- <-. exists [].
    split; [constructor|]. cbn. rewrite !app_nil_r.
    repeat split. lia.
  - cbn [stream_days] in H.
    destruct (for_pixels loc_eqb
                (stream_pixel libm fuel tz demData demNodata width g year m d)
                (zrange 0 N) mem calls) as [[mem1 calls1]|] eqn:Hpass;
      [|discriminate H].
    cbn [bind] in H.
    destruct (IH _ _ _ _ _ _ _ _ H) as (mems & HF & Hout & Hlog & Hcalls).
    exists (mem1 :: mems). split; [|split; [|split]].
    + constructor; [|exact HF]. exists mem, calls, calls1. exact Hpass.
    + rewrite Hout. cbn [combine map List.concat fst snd].
      rewrite <- app_assoc. reflexivity.
    + rewrite Hlog. cbn [flat_map fst]. rewrite <- app_assoc. reflexivity.
    + rewrite Hcalls. rewrite (PixelFacts.for_pixels_calls _ _ _ _ _ _ _ Hpass).
      cbn [map fst snd]. rewrite list_sum_cons.
      lia.
Qed.

(** The calls of a pass that returns: two for each pixel that is not
    masked. *)
Lemma stream_pass_calls m d mem0 c0 mem1 c1 :
  for_pixels loc_eqb
    (stream_pixel libm fuel tz demData demNodata width g year m d)
    (zrange 0 N) mem0 c0 = Some (mem1, c1) ->
  list_sum
    (map (fun i =>
            match stream_pixel libm fuel tz demData demNodata width g year
                    m d i with
            | Some (_, c) => c
            | None => O
            end) (zrange 0 N))
  = (2 * List.length
           (filter (fun i => negb (masked_stream (demData i) demNodata))
              (zrange 0 N)))%nat.
Proof.
  intros H.
  pose proof (PixelFacts.for_pixels_body _ _ _ _ _ _ _ H) as Hb.
  clear H. induction (zrange 0 N) as [|i l IH]; [reflexivity|].
  cbn [map filter]. rewrite list_sum_cons.
  rewrite IH by (intros j Hj; apply Hb; right; exact Hj).
  destruct (Hb i (or_introl eq_refl)) as (wi & c & E).
  rewrite E. unfold stream_pixel in E.
  destruct (masked_stream (demData i) demNodata).
  - injection E as _ <-. cbn [negb]. lia.
  - unfold pixelToGeo in E.
    destruct (calculateSunrise _ _ _ _ _ _ _ _ _); [|discriminate E].
    cbn [bind] in E.
    destruct (calculateSunset _ _ _ _ _ _ _ _ _); [|discriminate E].
    cbn [bind] in E. injection E as _ <-. cbn [negb List.length]. lia.
Qed.

End Days.

Lemma list_sum_const {A : Type} (f : A -> nat) (c : nat) l :
  (forall a, In a l -> f a = c) ->
  list_sum (map f l) = (c * List.length l)%nat.
Proof.
  induction l as [|a l IH]; intros H; [cbn; lia|].
  cbn [map List.length]. rewrite list_sum_cons.
  rewrite IH by (intros b Hb; apply H; right; exact Hb).
  rewrite (H a (or_introl eq_refl)). lia.
Qed.

Lemma Forall2_In_l {A B : Type} (R : A -> B -> Prop) l1 l2 a :
  Forall2 R l1 l2 -> In a l1 -> exists b, In b l2 /\ R a b.
Proof.
  induction 1 as [|x y l1 l2 Hxy HF IH]; intros Hin; [destruct Hin|].
  destruct Hin as [<-|Hin].
  - exists y. split; [left; reflexivity|exact Hxy].
  - destruct (IH Hin) as (b & Hb & Hr). exists b. split; [right|]; assumption.
Qed.

Lemma progress_days (D : Z) (l : list (Z * (Z * Z))) :
  flat_map (fun kmd => if Z.rem (fst kmd) 10 =? 0
                       then [ProgressDay (fst kmd) D] else []) l
  = map (fun k => ProgressDay k D)
      (filter (fun k => Z.rem k 10 =? 0) (map fst l)).
Proof.
  induction l as [|[k md] l IH]; [reflexivity|].
  cbn [flat_map map filter fst].
  destruct (Z.rem k 10 =? 0); cbn [app map]; rewrite IH; reflexivity.
Qed.

(** A run of [streamBinaryOutput] that returns, taken apart. *)
Lemma stream_result libm fuel world year tz sres :
  streamBinaryOutput libm fuel world year tz = Some sres ->
  (w_open world = None /\ sres = mkStream false [] [ErrOpenInput] 0) \/
  (exists ds, w_open world = Some ds /\
     ds_read ds 0 0 (ds_width ds) (ds_height ds) = None /\
     sres = mkStream false [] [ErrReadDEM] 0) \/
  (exists ds demData mem' out log calls,
     w_open world = Some ds /\
     ds_read ds 0 0 (ds_width ds) (ds_height ds) = Some demData /\
     stream_days libm fuel tz demData (Num.to_f32 (ds_nodata ds))
       (ds_width ds) (ds_width ds * ds_height ds) (ds_geo ds) year
       (if isLeapYear year then 366 else 365) (calendar (isLeapYear year))
       (w_new_int16 world,
        stream_header (ds_width ds) (ds_height ds)
          (if isLeapYear year then 366 else 365) (ds_geo ds), [], 0%nat)
     = Some (mem', out, log, calls) /\
     sres = mkStream true out log calls).
Proof.
  unfold streamBinaryOutput. intros H.
  destruct (w_open world) as [ds|] eqn:Ho.
  - right. cbv zeta in H.
    destruct (negb _); [discriminate H|].
    destruct (ds_read ds 0 0 (ds_width ds) (ds_height ds)) as [demData|]
      eqn:Hr.
    + right.
      destruct (stream_days _ _ _ _ _ _ _ _ _ _ _ _)
        as [[[[mem' out] log] calls]|] eqn:E; [|discriminate H].
      cbn [bind] in H. injection H as <-.
      exists ds, demData, mem', out, log, calls.
      split; [reflexivity|]. split; [exact Hr|]. split; [exact E|reflexivity].
    + left. injection H as <-. exists ds.
      split; [reflexivity|]. split; [exact Hr|reflexivity].
  - left. injection H as <-. split; reflexivity.
Qed.

(** A run that returns had a pixel count that is an [int]. *)
Lemma stream_size libm fuel world year tz sres ds :
  streamBinaryOutput libm fuel world year tz = Some sres ->
  w_open world = Some ds ->
  0 <= ds_width ds * ds_height ds <= INT_MAX.
Proof.
  unfold streamBinaryOutput. intros H Ho. rewrite Ho in H. cbv zeta in H.
  destruct ((0 <=? ds_width ds * ds_height ds)
            && (ds_width ds * ds_height ds <=? INT_MAX)) eqn:E;
    [|discriminate H].
  apply andb_prop in E. destruct E as [E1 E2].
  apply Z.leb_le in E1. apply Z.leb_le in E2. lia.
Qed.

Lemma Forall2_combine_In {A B : Type} (R : A -> B -> Prop) l1 l2 a b :
  Forall2 R l1 l2 -> In (a, b) (combine l1 l2) -> R a b.
Proof.
  induction 1 as [|x y l1 l2 Hxy HF IH]; intros Hin; [destruct Hin|].
  destruct Hin as [E|Hin]; [injection E as <- <-; exact Hxy|exact (IH Hin)].
Qed.

(** A run that succeeds: the raster opened and was read, its pixel count
    is an [int], and the output is the header and the blocks of one pass
    per day. *)
Lemma stream_success libm fuel world year tz sres :
  streamBinaryOutput libm fuel world year tz = Some sres ->
  st_ok sres = true ->
  exists ds demData mems,
    w_open world = Some ds /\
    ds_read ds 0 0 (ds_width ds) (ds_height ds) = Some demData /\
    0 <= ds_width ds * ds_height ds <= INT_MAX /\
    Forall2 (fun kmd memk => exists mem0 c0 c1,
               for_pixels loc_eqb
                 (stream_pixel libm fuel tz demData
                    (Num.to_f32 (ds_nodata ds)) (ds_width ds) (ds_geo ds)
                    year (fst (snd kmd)) (snd (snd kmd)))
                 (zrange 0 (ds_width ds * ds_height ds)) mem0 c0
               = Some (memk, c1))
      (calendar (isLeapYear year)) mems /\
    st_stdout sres
    = stream_header (ds_width ds) (ds_height ds)
        (if isLeapYear year then 366 else 365) (ds_geo ds)
      ++ List.concat
           (map (fun p => stream_block (ds_width ds * ds_height ds)
                            (fst (fst p)) (snd p))
                (combine (calendar (isLeapYear year)) mems)).
Proof.
  intros H Hok.
  destruct (stream_result _ _ _ _ _ _ H)
    as [[Ho E]|[(ds & Ho & Hr & E)|
                (ds & demData & mem' & out & log & calls & Ho & Hr & Hd & E)]];
    [subst sres; discriminate Hok|subst sres; discriminate Hok|].
  pose proof (stream_size _ _ _ _ _ _ _ H Ho) as Hsize. subst sres.
  destruct (stream_days_trace _ _ _ _ _ _ _ _ _ _ _ _ _ _ _ _ _ _ _ Hd)
    as (mems & HF & Hout & _).
  exists ds, demData, mems.
  split; [exact Ho|]. split; [exact Hr|]. split; [exact Hsize|].
  split; [exact HF|exact Hout].
Qed.

End StreamFacts.

(** X4.  A run of [streamBinaryOutput] fails exactly when the raster cannot be
    opened or its elevations cannot be read.  A failed run leaves standard
    output empty, not even the header is written, and calls the calculator
    never; a run that succeeds starts its output with the header. *)
Theorem stream_failure_writes_nothing (libm : Libm) (fuel : nat)
    (world : World) (year : Z) (tz : float) (sres : StreamResult) :
  streamBinaryOutput libm fuel world year tz = Some sres ->
  (st_ok sres = false <->
   w_open world = None \/
   exists ds, w_open world = Some ds /\
              ds_read ds 0 0 (ds_width ds) (ds_height ds) = None) /\
  (st_ok sres = false ->
   st_stdout sres = [] /\ st_calls sres = 0%nat /\
   (st_log sres = [ErrOpenInput] \/ st_log sres = [ErrReadDEM])) /\
  (st_ok sres = true ->
   exists ds rest,
     w_open world = Some ds /\
     st_stdout sres
     = stream_header (ds_width ds) (ds_height ds)
         (if isLeapYear year then 366 else 365) (ds_geo ds) ++ rest).
Proof.
  intros H.
  destruct (StreamFacts.stream_result _ _ _ _ _ _ H)
    as [[Ho ->]|[(ds & Ho & Hr & ->)|
                 (ds & demData & mem' & out & log & calls & Ho & Hr & Hd & ->)]];
    cbn [st_ok st_stdout st_calls st_log].
  - split; [split; [intros _; left; exact Ho|reflexivity]|].
    split; [intros _; repeat split; left; reflexivity|discriminate].
  - split; [split; [intros _; right; exists ds; split; assumption
                   |reflexivity]|].
    split; [intros _; repeat split; right; reflexivity|discriminate].
  - split; [split; [discriminate|]|split; [discriminate|]].
    + intros [Hn|(ds' & Ho' & Hr')]; [congruence|].
      rewrite Ho in Ho'. injection Ho' as <-. congruence.
    + intros _.
      destruct (StreamFacts.stream_days_trace _ _ _ _ _ _ _ _ _ _ _ _ _ _ _
                  _ _ _ _ Hd) as (mems & _ & Hout & _).
      exists ds. eexists. split; [exact Ho|exact Hout].
Qed.

Lemma stream_failure_writes_nothing_witness :
  (exists sres,
     streamBinaryOutput RefLibm.libm DATE_FUEL Example.missing 2024 1
     = Some sres /\
     st_ok sres = false /\ st_stdout sres = [] /\ st_calls sres = 0%nat) /\
  exists sres rest,
    streamBinaryOutput RefLibm.libm DATE_FUEL Example.world 2024 1
    = Some sres /\
    st_ok sres = true /\
    st_stdout sres = stream_header 2 2 366 Example.geo ++ rest.
Proof.
  split.
  - eexists. split; [reflexivity|]. split; [reflexivity|].
    destruct (proj1 (proj2 (stream_failure_writes_nothing RefLibm.libm
                              DATE_FUEL Example.missing 2024 1 _ eq_refl))
                eq_refl) as (Hout & Hcalls & _).
    split; [exact Hout|exact Hcalls].
  - destruct (DriverFacts.stream_run RefLibm.libm DATE_FUEL Example.world
                2024 1 Example.dataset Example.dem eq_refl eq_refl
              ExampleFacts.world_size
                ExampleFacts.world_stream_returns)
      as (mems & log & calls & _ & Hrun).
    destruct (proj2 (proj2 (stream_failure_writes_nothing _ _ _ _ _ _ Hrun))
                eq_refl) as (ds & rest & Ho & Hout).
    injection Ho as <-.
    eexists. exists rest. split; [exact Hrun|].
    split; [reflexivity|exact Hout].
Defined.

(** X5.  The contents of the stream.  In a run that succeeds, the output is the
    header and then one block per day of the year, in order; the block of
    a day is its number and the two arrays; and the arrays hold, for each
    pixel, -1 twice when the pixel is masked, and otherwise the sunrise
    and the sunset that the calculator gives for the coordinates of the
    pixel (column [i % width], row [i / width]) on that day, in minutes. *)
Theorem stream_contents (libm : Libm) (fuel : nat) (world : World)
    (year : Z) (tz : float) (sres : StreamResult) :
  streamBinaryOutput libm fuel world year tz = Some sres ->
  st_ok sres = true ->
  exists ds demData blocks,
    w_open world = Some ds /\
    ds_read ds 0 0 (ds_width ds) (ds_height ds) = Some demData /\
    st_stdout sres
    = stream_header (ds_width ds) (ds_height ds)
        (if isLeapYear year then 366 else 365) (ds_geo ds)
      ++ List.concat blocks /\
    Forall2
      (fun kmd block =>
         exists sunriseBuffer sunsetBuffer : Z -> Z,
           block
           = Wire.int32_bytes (fst kmd)
             ++ flat_map (fun i => Wire.int16_bytes (sunriseBuffer i))
                  (zrange 0 (ds_width ds * ds_height ds))
             ++ flat_map (fun i => Wire.int16_bytes (sunsetBuffer i))
                  (zrange 0 (ds_width ds * ds_height ds)) /\
           forall i, 0 <= i < ds_width ds * ds_height ds ->
             (masked_stream (demData i) (Num.to_f32 (ds_nodata ds)) = true ->
              sunriseBuffer i = -1 /\ sunsetBuffer i = -1) /\
             (masked_stream (demData i) (Num.to_f32 (ds_nodata ds)) = false ->
              exists sunrise sunset,
                calculateSunrise libm fuel tz
                  (snd (pixelToGeo (ds_geo ds) (Z.rem i (ds_width ds))
                          (i ÷ ds_width ds)))
                  (fst (pixelToGeo (ds_geo ds) (Z.rem i (ds_width ds))
                          (i ÷ ds_width ds)))
                  (demData i) year (fst (snd kmd)) (snd (snd kmd))
                = Some sunrise /\
                calculateSunset libm fuel tz
                  (snd (pixelToGeo (ds_geo ds) (Z.rem i (ds_width ds))
                          (i ÷ ds_width ds)))
                  (fst (pixelToGeo (ds_geo ds) (Z.rem i (ds_width ds))
                          (i ÷ ds_width ds)))
                  (demData i) year (fst (snd kmd)) (snd (snd kmd))
                = Some sunset /\
                sunriseBuffer i = to_minutes sunrise /\
                sunsetBuffer i = to_minutes sunset))
      (calendar (isLeapYear year)) blocks.
Proof.
  intros H Hok.
  destruct (StreamFacts.stream_result _ _ _ _ _ _ H)
    as [[Ho ->]|[(ds & Ho & Hr & ->)|
                 (ds & demData & mem' & out & log & calls & Ho & Hr & Hd & ->)]];
    [discriminate Hok|discriminate Hok|].
  destruct (StreamFacts.stream_days_trace _ _ _ _ _ _ _ _ _ _ _ _ _ _ _
              _ _ _ _ Hd) as (mems & HF & Hout & _).
  exists ds, demData,
    (map (fun p => stream_block (ds_width ds * ds_height ds)
                     (fst (fst p)) (snd p))
         (combine (calendar (isLeapYear year)) mems)).
  split; [exact Ho|]. split; [exact Hr|]. split; [exact Hout|].
  clear Hout Hd H. induction HF as [|kmd memk days mems' Hk HF IH].
  - constructor.
  - cbn [combine map fst snd]. constructor; [|exact IH].
    destruct Hk as (mem0 & c0 & c1 & Hpass).
    exists (fun i => memk (true, i)), (fun i => memk (false, i)).
    split; [reflexivity|]. intros i Hi. split.
    + intros Hm.
      exact (proj2 (PixelFacts.stream_pass_masked _ _ _ _ _ _ _ _ _ _ _ _ _
                      _ _ Hpass i Hi Hm)).
    + intros Hm.
      destruct (PixelFacts.stream_pass_unmasked _ _ _ _ _ _ _ _ _ _ _ _ _
                  _ _ Hpass i Hi Hm) as (sr & ss & H1 & H2 & _ & H3 & H4).
      exists sr, ss. repeat split; assumption.
Qed.

Lemma stream_contents_witness :
  exists sres blocks,
    streamBinaryOutput RefLibm.libm DATE_FUEL Example.world 2024 1
    = Some sres /\
    st_stdout sres = stream_header 2 2 366 Example.geo ++ List.concat blocks /\
    List.length blocks = 366%nat.
Proof.
  destruct (DriverFacts.stream_run RefLibm.libm DATE_FUEL Example.world
              2024 1 Example.dataset Example.dem eq_refl eq_refl
              ExampleFacts.world_size
              ExampleFacts.world_stream_returns)
    as (mems & log & calls & _ & Hrun).
  destruct (stream_contents _ _ _ _ _ _ Hrun eq_refl)
    as (ds & demData & blocks & Ho & _ & Hout & HF).
  injection Ho as <-.
  eexists. exists blocks. split; [exact Hrun|]. split; [exact Hout|].
  rewrite <- (Forall2_length HF).
  exact (DriverFacts.calendar_length true).
Defined.

(** X6.  The side channel of the stream.  A run that succeeds reports progress
    after every tenth day and only then, and calls the calculator twice a
    day for every pixel that is not masked. *)
Theorem stream_progress_and_calls (libm : Libm) (fuel : nat) (world : World)
    (year : Z) (tz : float) (sres : StreamResult) :
  streamBinaryOutput libm fuel world year tz = Some sres ->
  st_ok sres = true ->
  exists ds demData,
    w_open world = Some ds /\
    ds_read ds 0 0 (ds_width ds) (ds_height ds) = Some demData /\
    st_log sres
    = map (fun k => ProgressDay k (if isLeapYear year then 366 else 365))
        (filter (fun k => Z.rem k 10 =? 0)
           (zrange 1 (if isLeapYear year then 366 else 365))) /\
    st_calls sres
    = (2 * List.length
             (filter (fun i => negb (masked_stream (demData i)
                                       (Num.to_f32 (ds_nodata ds))))
                (zrange 0 (ds_width ds * ds_height ds)))
       * Z.to_nat (if isLeapYear year then 366 else 365))%nat.
Proof.
  intros H Hok.
  destruct (StreamFacts.stream_result _ _ _ _ _ _ H)
    as [[Ho ->]|[(ds & Ho & Hr & ->)|
                 (ds & demData & mem' & out & log & calls & Ho & Hr & Hd & ->)]];
    [discriminate Hok|discriminate Hok|].
  destruct (StreamFacts.stream_days_trace _ _ _ _ _ _ _ _ _ _ _ _ _ _ _
              _ _ _ _ Hd) as (mems & HF & _ & Hlog & Hcalls).
  exists ds, demData. split; [exact Ho|]. split; [exact Hr|].
  cbn [st_log st_calls]. split.
  - rewrite Hlog. cbn [app]. rewrite StreamFacts.progress_days.
    rewrite (DriverFacts.calendar_days (isLeapYear year)). reflexivity.
  - rewrite Hcalls. cbn [Nat.add].
    rewrite (StreamFacts.list_sum_const _
               (2 * List.length
                      (filter (fun i => negb (masked_stream (demData i)
                                                (Num.to_f32 (ds_nodata ds))))
                         (zrange 0 (ds_width ds * ds_height ds))))).
    + rewrite (DriverFacts.calendar_length (isLeapYear year)). reflexivity.
    + intros kmd Hk.
      destruct (StreamFacts.Forall2_In_l _ _ _ _ HF Hk)
        as (memk & _ & mem0 & c0 & c1 & Hpass).
      eapply StreamFacts.stream_pass_calls. exact Hpass.
Qed.

Lemma stream_progress_and_calls_witness :
  exists sres,
    streamBinaryOutput RefLibm.libm DATE_FUEL Example.world 2024 1
    = Some sres /\
    List.length (st_log sres) = 36%nat /\
    st_calls sres = (2 * 2 * 366)%nat.
Proof.
  destruct (DriverFacts.stream_run RefLibm.libm DATE_FUEL Example.world
              2024 1 Example.dataset Example.dem eq_refl eq_refl
              ExampleFacts.world_size
              ExampleFacts.world_stream_returns)
    as (mems & log & calls & _ & Hrun).
  destruct (stream_progress_and_calls _ _ _ _ _ _ Hrun eq_refl)
    as (ds & demData & Ho & Hr & Hlog & Hcalls).
  injection Ho as <-. injection Hr as <-.
  eexists. split; [exact Hrun|]. split.
  - rewrite Hlog. reflexivity.
  - rewrite Hcalls. reflexivity.
Defined.

(* ================================================================= *)
(** ** More on the raster *)

Module RasterFacts.

Import SolarCalculator DemProcessor Mem.

Local Open Scope Z_scope.

Lemma nth_error_zrange_lt lo n (j : nat) :
  (j < Z.to_nat n)%nat -> nth_error (zrange lo n) j = Some (lo + Z.of_nat j).
Proof.
  intros H. unfold zrange.
  rewrite nth_error_map, nth_error_seq.
  destruct (Nat.ltb_spec j (Z.to_nat n)) as [_|Hge]; [reflexivity|lia].
Qed.




Lemma progress_blocks_app l1 l2 :
  progress_blocks (l1 ++ l2) = progress_blocks l1 ++ progress_blocks l2.
Proof. apply flat_map_app. Qed.

Lemma zrange_succ lo (n : nat) :
  zrange lo (Z.of_nat (S n)) = lo :: zrange (lo + 1) (Z.of_nat n).
Proof.
  unfold zrange. rewrite !Nat2Z.id. cbn [seq map].
  rewrite Z.add_0_r. f_equal. rewrite <- seq_shift, map_map.
  apply map_ext. intros k. lia.
Qed.

Section Blocks.

Variable libm : Libm.
Variable fuel : nat.
Variable world : World.
Variables (tz : float) (ds : Dataset) (year totalBlocks : Z).

(** What the loop over blocks did when it returns. *)
Lemma process_blocks_trace blocks :
  forall buf written log pb calls buf' written1 log1 pb' calls',
  process_blocks libm fuel world tz ds (Num.to_f32 (ds_nodata ds)) year
    (isLeapYear year) ((if isLeapYear year then 366 else 365) * 2)
    totalBlocks blocks (buf, written, log, pb, calls)
  = Some (buf', written1, log1, pb', calls') ->
  exists written' log',
    written1 = written ++ written' /\ log1 = log ++ log' /\
    Forall (fun t => In (tw_y t, tw_x t) blocks /\
                     tw_xsize t = Z.min 512 (ds_width ds - tw_x t) /\
                     tw_ysize t = Z.min 512 (ds_height ds - tw_y t) /\
                     w_write world (tw_x t) (tw_y t) = true /\
                     tile_pass libm fuel year tz ds t) written' /\
    progress_blocks log'
    = map (fun k => (k, totalBlocks))
        (zrange (pb + 1)
           (Z.of_nat (List.length
                        (filter (fun yx => is_some (block_read ds yx))
                           blocks)))).
Proof.
  induction blocks as [|[y x] blocks IH];
    intros buf written log pb calls buf' written1 log1 pb' calls' H.
  - cbn in H. injection H as _ <- <- _ _. exists [], [].
    rewrite !app_nil_r. repeat split. constructor.
  - cbn [process_blocks] in H. unfold process_block in H.
    cbn [filter]. unfold block_read at 1. cbn [fst snd].
    destruct (ds_read ds x y (Z.min 512 (ds_width ds - x))
                (Z.min 512 (ds_height ds - y))) as [demBlock|] eqn:Eread.
    + destruct (for_pixels Z.eqb _ _ buf calls) as [[buf1 calls1]|] eqn:Hpass;
        [|discriminate H].
      cbn [bind] in H.
      destruct (IH _ _ _ _ _ _ _ _ _ _ H)
        as (written' & log' & Hw & Hl & HF & Hp).
      set (tile := mkTile x y (Z.min 512 (ds_width ds - x))
                     (Z.min 512 (ds_height ds - y)) buf1) in *.
      assert (Htile : tile_pass libm fuel year tz ds tile).
      { exists demBlock, buf, calls, calls1.
        split; [exact Eread|exact Hpass]. }
      assert (HF' : Forall
                (fun t => In (tw_y t, tw_x t) ((y, x) :: blocks) /\
                   tw_xsize t = Z.min 512 (ds_width ds - tw_x t) /\
                   tw_ysize t = Z.min 512 (ds_height ds - tw_y t) /\
                   w_write world (tw_x t) (tw_y t) = true /\
                   tile_pass libm fuel year tz ds t) written').
      { eapply Forall_impl; [|exact HF].
        intros t (H1 & H2). split; [right; exact H1|exact H2]. }
      cbn [is_some List.length].
      assert (Hprog : forall pre,
                progress_blocks pre = [] ->
                progress_blocks
                  (pre ++ [ProgressBlock (pb + 1) totalBlocks] ++ log')
                = map (fun k => (k, totalBlocks))
                    (zrange (pb + 1)
                       (Z.of_nat
                          (S (List.length
                                (filter
                                   (fun yx => is_some (block_read ds yx))
                                   blocks)))))).
      { intros pre Hpre. rewrite !progress_blocks_app, Hpre, Hp.
        rewrite zrange_succ. reflexivity. }
      destruct (w_write world x y) eqn:Ew.
      * exists (tile :: written'),
          ([ProgressBlock (pb + 1) totalBlocks] ++ log').
        split; [rewrite Hw, <- !app_assoc; reflexivity|].
        split; [rewrite Hl, <- !app_assoc; reflexivity|].
        split; [|exact (Hprog [] eq_refl)].
        constructor; [|exact HF'].
        cbn [tile tw_x tw_y tw_xsize tw_ysize].
        split; [left; reflexivity|]. repeat split; assumption.
      * exists written',
          ([ErrWriteBlock x y] ++ [ProgressBlock (pb + 1) totalBlocks]
             ++ log').
        split; [rewrite Hw, app_nil_r; reflexivity|].
        split; [rewrite Hl, <- !app_assoc; reflexivity|].
        split; [exact HF'|exact (Hprog [ErrWriteBlock x y] eq_refl)].
    + cbn [bind] in H.
      destruct (IH _ _ _ _ _ _ _ _ _ _ H)
        as (written' & log' & Hw & Hl & HF & Hp).
      exists written', ([ErrReadBlock x y] ++ log').
      split; [exact Hw|].
      split; [rewrite Hl, <- !app_assoc; reflexivity|].
      split; [|rewrite progress_blocks_app; exact Hp].
      eapply Forall_impl; [|exact HF].
      intros t (H1 & H2). split; [right; exact H1|exact H2].
Qed.

End Blocks.

(** A run of [processDEM] that returns, taken apart. *)
Lemma process_result libm fuel world year tz pres :
  processDEM libm fuel world year tz = Some pres ->
  (w_open world = None /\ pres = mkProcess false None [] [ErrOpenInput] 0) \/
  (exists ds, w_open world = Some ds /\ w_gtiff world = false /\
     pres = mkProcess false None [] [ErrNoDriver] 0) \/
  (exists ds, w_open world = Some ds /\ w_gtiff world = true /\
     w_create world = false /\
     pres = mkProcess false None [] [ErrCreateOutput] 0) \/
  (exists ds od buf' written log pb' calls,
     w_open world = Some ds /\ w_gtiff world = true /\
     w_create world = true /\
     createOutputDataset world (ds_width ds) (ds_height ds)
       ((if isLeapYear year then 366 else 365) * 2) (ds_geo ds)
       (ds_projection ds) = (Some od, []) /\
     process_blocks libm fuel world tz ds (Num.to_f32 (ds_nodata ds)) year
       (isLeapYear year) ((if isLeapYear year then 366 else 365) * 2)
       ((ds_width ds + 512 - 1) ÷ 512 * ((ds_height ds + 512 - 1) ÷ 512))
       (block_origins (ds_width ds) (ds_height ds))
       (w_new_float world, [], [], 0, 0%nat)
     = Some (buf', written, log, pb', calls) /\
     pres = mkProcess true (Some od) written log calls).
Proof.
  unfold processDEM. intros H.
  destruct (w_open world) as [ds|] eqn:Ho.
  - right. cbv zeta in H. unfold createOutputDataset in H |- *.
    destruct (w_gtiff world) eqn:Hg; cbn [negb] in H |- *.
    + right. destruct (w_create world) eqn:Hc; cbn [negb] in H |- *.
      * right.
        destruct (process_blocks _ _ _ _ _ _ _ _ _ _ _ _)
          as [[[[[buf' written] log] pb'] calls]|] eqn:E; [|discriminate H].
        cbn [bind] in H. injection H as <-.
        eexists ds, _, buf', written, log, pb', calls.
        split; [reflexivity|]. split; [reflexivity|]. split; [reflexivity|].
        split; [reflexivity|]. split; [exact E|reflexivity].
      * left. injection H as <-. exists ds. repeat split.
    + left. injection H as <-. exists ds. repeat split.
  - left. injection H as <-. split; reflexivity.
Qed.

End RasterFacts.

(** X7.  [processDEM] fails exactly when the input cannot be opened, the GTiff
    driver is missing or the output cannot be created, checked in that
    order; a failed run reports the one error, has no output dataset,
    writes no tile and calls the calculator never. *)
Theorem raster_failure_modes (libm : Libm) (fuel : nat) (world : World)
    (year : Z) (tz : float) (pres : ProcessResult) :
  processDEM libm fuel world year tz = Some pres ->
  (pr_ok pres = false <->
   w_open world = None \/ w_gtiff world = false \/ w_create world = false) /\
  (pr_ok pres = false ->
   pr_dataset pres = None /\ pr_written pres = [] /\ pr_calls pres = 0%nat /\
   pr_log pres
   = [match w_open world with
      | None => ErrOpenInput
      | Some _ => if w_gtiff world then ErrCreateOutput else ErrNoDriver
      end]).
Proof.
  intros H.
  destruct (RasterFacts.process_result _ _ _ _ _ _ H)
    as [[Ho ->]|[(ds & Ho & Hg & ->)|[(ds & Ho & Hg & Hc & ->)|
         (ds & od & buf' & written & log & pb' & calls & Ho & Hg & Hc & _
          & _ & ->)]]];
    cbn [pr_ok pr_dataset pr_written pr_calls pr_log]; rewrite Ho.
  - split; [split; [intros _; left; reflexivity|reflexivity]|].
    intros _. repeat split.
  - rewrite Hg. split; [split; [intros _; right; left; reflexivity
                               |reflexivity]|].
    intros _. repeat split.
  - rewrite Hg, Hc. split; [split; [intros _; right; right; reflexivity
                                   |reflexivity]|].
    intros _. repeat split.
  - rewrite Hg, Hc. split; [|discriminate].
    split; [discriminate|]. intros [E|[E|E]]; discriminate E.
Qed.

Lemma raster_failure_modes_witness :
  exists pres,
    processDEM RefLibm.libm DATE_FUEL Example.missing 2024 1 = Some pres /\
    pr_ok pres = false /\ pr_written pres = [] /\
    pr_log pres = [ErrOpenInput].
Proof.
  eexists. split; [reflexivity|]. split; [reflexivity|].
  destruct (proj2 (raster_failure_modes RefLibm.libm DATE_FUEL
                     Example.missing 2024 1 _ eq_refl) eq_refl)
    as (_ & Hw & _ & Hl).
  split; [exact Hw|exact Hl].
Defined.

(** X8.  The bands of the output.  When [processDEM] creates its output, the
    dataset has the size, the geotransform and the projection of the
    input and [2 * daysInYear] bands, every band with the no-data value
    -9999; and for each day [k] of the year, the band at index
    [(k - 1) * 2] of the buffer, where the sunrise of day [k] is stored,
    is described as the sunrise of day [k], and the next band as its
    sunset. *)
Theorem output_bands (libm : Libm) (fuel : nat) (world : World)
    (year : Z) (tz : float) (pres : ProcessResult) (od : OutDataset) :
  processDEM libm fuel world year tz = Some pres ->
  pr_dataset pres = Some od ->
  let daysInYear := if isLeapYear year then 366 else 365 in
  exists ds,
    w_open world = Some ds /\
    od_width od = ds_width ds /\ od_height od = ds_height ds /\
    od_geo od = ds_geo ds /\ od_projection od = ds_projection ds /\
    od_numBands od = daysInYear * 2 /\
    List.length (od_bands od) = Z.to_nat (daysInYear * 2) /\
    forall k, 1 <= k <= daysInYear ->
      nth_error (od_bands od) (Z.to_nat ((k - 1) * 2))
      = Some (NODATA_VALUE, (k, true)) /\
      nth_error (od_bands od) (Z.to_nat ((k - 1) * 2 + 1))
      = Some (NODATA_VALUE, (k, false)).
Proof.
  intros H Hd daysInYear.
  destruct (RasterFacts.process_result _ _ _ _ _ _ H)
    as [[Ho ->]|[(ds & Ho & Hg & ->)|[(ds & Ho & Hg & Hc & ->)|
         (ds & od' & buf' & written & log & pb' & calls & Ho & Hg & Hc & Hod
          & _ & ->)]]];
    try discriminate Hd.
  cbn [pr_dataset] in Hd. injection Hd as ->.
  unfold createOutputDataset in Hod. rewrite Hg, Hc in Hod.
  cbn [negb] in Hod. injection Hod as <-.
  cbn [od_width od_height od_geo od_projection od_numBands od_bands].
  exists ds. fold daysInYear. repeat split.
  - exact Ho.
  - rewrite length_map, WireFacts.zrange_length. reflexivity.
  - rewrite nth_error_map, RasterFacts.nth_error_zrange_lt
      by (unfold daysInYear in *; destruct (isLeapYear year); lia).
    cbn [option_map]. rewrite Z2Nat.id by lia.
    assert (E1 : (1 + (k - 1) * 2 - 1) ÷ 2 + 1 = k)
      by (Z.to_euclidean_division_equations; lia).
    assert (E2 : Z.rem (1 + (k - 1) * 2) 2 = 1)
      by (Z.to_euclidean_division_equations; lia).
    rewrite E1, E2. reflexivity.
  - rewrite nth_error_map, RasterFacts.nth_error_zrange_lt
      by (unfold daysInYear in *; destruct (isLeapYear year); lia).
    cbn [option_map]. rewrite Z2Nat.id by lia.
    assert (E1 : (1 + ((k - 1) * 2 + 1) - 1) ÷ 2 + 1 = k)
      by (Z.to_euclidean_division_equations; lia).
    assert (E2 : Z.rem (1 + ((k - 1) * 2 + 1)) 2 = 0)
      by (Z.to_euclidean_division_equations; lia).
    rewrite E1, E2. reflexivity.
Qed.

Lemma output_bands_witness :
  exists pres od,
    processDEM RefLibm.libm DATE_FUEL Example.faulty 2024 1 = Some pres /\
    pr_dataset pres = Some od /\
    od_numBands od = 732 /\
    nth_error (od_bands od) (Z.to_nat ((60 - 1) * 2))
    = Some (NODATA_VALUE, (60, true)).
Proof.
  destruct (DriverFacts.raster_run RefLibm.libm DATE_FUEL Example.faulty
              2024 1 Example.strip eq_refl eq_refl eq_refl
              ExampleFacts.faulty_raster_returns)
    as (od & written & log & calls & Hp & _).
  destruct (output_bands _ _ _ _ _ _ od Hp eq_refl)
    as (ds & _ & _ & _ & _ & _ & Hn & _ & Hb).
  eexists. exists od. split; [exact Hp|]. split; [reflexivity|].
  split; [exact Hn|]. apply (Hb 60). cbn. lia.
Defined.



(** X10.  The tiles of the raster.  In a run of [processDEM] that succeeds,
    every tile written sits at a block origin, has the size of its block
    clipped to the raster, and holds the result of the pass over the
    elevations read for its window: for a masked pixel the no-data value
    in every band, and for any other pixel, in the two bands of each day,
    the sunrise and the sunset that the calculator gives for the
    coordinates of the pixel in the whole raster, rounded to binary32. *)
Theorem raster_tile_contents (libm : Libm) (fuel : nat) (world : World)
    (year : Z) (tz : float) (pres : ProcessResult) :
  processDEM libm fuel world year tz = Some pres ->
  pr_ok pres = true ->
  exists ds,
    w_open world = Some ds /\
    forall t, In t (pr_written pres) ->
      In (tw_y t, tw_x t) (block_origins (ds_width ds) (ds_height ds)) /\
      tw_xsize t = Z.min 512 (ds_width ds - tw_x t) /\
      tw_ysize t = Z.min 512 (ds_height ds - tw_y t) /\
      exists demBlock,
        ds_read ds (tw_x t) (tw_y t) (tw_xsize t) (tw_ysize t)
        = Some demBlock /\
        forall i, 0 <= i < tw_ysize t * tw_xsize t ->
          (masked_raster (demBlock i) (Num.to_f32 (ds_nodata ds)) = true ->
           forall b, 0 <= b < (if isLeapYear year then 366 else 365) * 2 ->
             tw_data t (b * (tw_xsize t * tw_ysize t) + i) = NODATA_VALUE) /\
          (masked_raster (demBlock i) (Num.to_f32 (ds_nodata ds)) = false ->
           forall k m d, In (k, (m, d)) (calendar (isLeapYear year)) ->
           exists sunrise sunset,
             calculateSunrise libm fuel tz
               (snd (pixelToGeo (ds_geo ds) (tw_x t + Z.rem i (tw_xsize t))
                       (tw_y t + i ÷ tw_xsize t)))
               (fst (pixelToGeo (ds_geo ds) (tw_x t + Z.rem i (tw_xsize t))
                       (tw_y t + i ÷ tw_xsize t)))
               (demBlock i) year m d = Some sunrise /\
             calculateSunset libm fuel tz
               (snd (pixelToGeo (ds_geo ds) (tw_x t + Z.rem i (tw_xsize t))
                       (tw_y t + i ÷ tw_xsize t)))
               (fst (pixelToGeo (ds_geo ds) (tw_x t + Z.rem i (tw_xsize t))
                       (tw_y t + i ÷ tw_xsize t)))
               (demBlock i) year m d = Some sunset /\
             tw_data t ((k - 1) * 2 * (tw_xsize t * tw_ysize t) + i)
             = Num.to_f32 sunrise /\
             tw_data t (((k - 1) * 2 + 1) * (tw_xsize t * tw_ysize t) + i)
             = Num.to_f32 sunset).
Proof.
  intros H Hok.
  destruct (RasterFacts.process_result _ _ _ _ _ _ H)
    as [[Ho ->]|[(ds & Ho & Hg & ->)|[(ds & Ho & Hg & Hc & ->)|
         (ds & od' & buf' & written & log & pb' & calls & Ho & Hg & Hc & Hod
          & Hrun & ->)]]];
    try discriminate Hok.
  exists ds. split; [exact Ho|]. cbn [pr_written]. intros t Ht.
  destruct (RasterFacts.process_blocks_trace _ _ _ _ _ _ _ _ _ _ _ _ _ _ _
              _ _ _ Hrun) as (written' & log' & Hw & _ & HF & _).
  cbn [app] in Hw. subst written'.
  rewrite Forall_forall in HF.
  destruct (HF t Ht) as (Hin & Hxs & Hys & _ & demBlock & mem & c0 & c1
                         & Hread & Hpass).
  split; [exact Hin|]. split; [exact Hxs|]. split; [exact Hys|].
  exists demBlock. split; [exact Hread|]. intros i Hi. split.
  - intros Hm.
    exact (proj2 (PixelFacts.raster_pass_masked _ _ _ _ _ _ _ _ _ _ _ _ _ _
                    _ _ Hpass i Hi Hm)).
  - intros Hm.
    exact (proj2 (PixelFacts.raster_pass_unmasked _ _ _ _ _ _ _ _ _ _ _ _ _
                    _ _ _ Hpass i Hi Hm)).
Qed.

(** The one tile of the 2 x 2 raster in 2024: band 5 of the masked pixel
    0, and the two bands of 1 March, day 61, of pixel 2. *)
Lemma raster_tile_contents_witness :
  exists pres t sunrise sunset,
    processDEM RefLibm.libm DATE_FUEL Example.world 2024 1 = Some pres /\
    pr_written pres = [t] /\
    tw_x t = 0 /\ tw_y t = 0 /\ tw_xsize t = 2 /\ tw_ysize t = 2 /\
    tw_data t (5 * (2 * 2) + 0) = NODATA_VALUE /\
    calculateSunrise RefLibm.libm DATE_FUEL 1
      (snd (pixelToGeo Example.geo 0 1)) (fst (pixelToGeo Example.geo 0 1))
      350 2024 3 1 = Some sunrise /\
    calculateSunset RefLibm.libm DATE_FUEL 1
      (snd (pixelToGeo Example.geo 0 1)) (fst (pixelToGeo Example.geo 0 1))
      350 2024 3 1 = Some sunset /\
    tw_data t ((61 - 1) * 2 * (2 * 2) + 2) = Num.to_f32 sunrise /\
    tw_data t (((61 - 1) * 2 + 1) * (2 * 2) + 2) = Num.to_f32 sunset /\
    (0 <=? sunrise)%float = true /\ (sunrise <? sunset)%float = true /\
    (sunset <? 24)%float = true.
Proof.
  destruct (DriverFacts.raster_run RefLibm.libm DATE_FUEL Example.world
              2024 1 Example.dataset eq_refl eq_refl eq_refl
              ExampleFacts.world_raster_returns)
    as (od & written & log & calls & Hp & _ & Hw & _).
  assert (Hf : filter (block_written Example.world Example.dataset)
                 (block_origins (ds_width Example.dataset)
                    (ds_height Example.dataset)) = [(0, 0)])
    by reflexivity.
  rewrite Hf in Hw. clear Hf.
  destruct written as [|t [|t' rest]]; [discriminate Hw| |discriminate Hw].
  cbn [map] in Hw. injection Hw as Hy Hx.
  destruct (raster_tile_contents _ _ _ _ _ _ Hp eq_refl) as (ds & Ho & Ht).
  injection Ho as <-.
  destruct (Ht t (or_introl eq_refl))
    as (_ & Hxs & Hys & demBlock & Hread & Hpix).
  rewrite Hx in Hxs. rewrite Hy in Hys.
  change (tw_xsize t = 2) in Hxs. change (tw_ysize t = 2) in Hys.
  change (Some Example.dem = Some demBlock) in Hread.
  injection Hread as <-.
  rewrite Hxs, Hys, Hx, Hy in Hpix.
  destruct (Hpix 0 ltac:(lia)) as [Hmask _].
  assert (Hnd := Hmask eq_refl 5 ltac:(change (0 <= 5 < 732); lia)).
  destruct (Hpix 2 ltac:(lia)) as [_ Hun].
  assert (Hin : In (61, (3, 1)) (calendar (isLeapYear 2024)))
    by (apply (nth_error_In _ 60); reflexivity).
  destruct (Hun eq_refl 61 3 1 Hin)
    as (sunrise & sunset & Hsr & Hss & Hd1 & Hd2).
  change (calculateSunrise RefLibm.libm DATE_FUEL 1
            (snd (pixelToGeo Example.geo 0 1))
            (fst (pixelToGeo Example.geo 0 1)) 350 2024 3 1 = Some sunrise)
    in Hsr.
  change (calculateSunset RefLibm.libm DATE_FUEL 1
            (snd (pixelToGeo Example.geo 0 1))
            (fst (pixelToGeo Example.geo 0 1)) 350 2024 3 1 = Some sunset)
    in Hss.
  pose proof ExampleFacts.world_march_times as Htimes.
  rewrite Hsr, Hss in Htimes. cbv beta iota in Htimes.
  apply andb_prop in Htimes. destruct Htimes as [Htimes H24].
  apply andb_prop in Htimes. destruct Htimes as [H0 Hlt].
  exists (mkProcess true (Some od) [t] log calls), t, sunrise, sunset.
  exact (conj Hp (conj eq_refl (conj Hx (conj Hy (conj Hxs (conj Hys
           (conj Hnd (conj Hsr (conj Hss (conj Hd1 (conj Hd2
           (conj H0 (conj Hlt H24))))))))))))).
Defined.

(** X11.  Progress of the raster.  In a run of [processDEM] that succeeds, the
    progress reports count the blocks that could be read, from 1 on, each
    against the total number of blocks: a block whose read fails is
    skipped without being counted, a block whose write fails is
    counted. *)
Theorem raster_progress (libm : Libm) (fuel : nat) (world : World)
    (year : Z) (tz : float) (pres : ProcessResult) :
  processDEM libm fuel world year tz = Some pres ->
  pr_ok pres = true ->
  exists ds,
    w_open world = Some ds /\
    progress_blocks (pr_log pres)
    = map (fun k => (k, ((ds_width ds + 512 - 1) ÷ 512)
                        * ((ds_height ds + 512 - 1) ÷ 512)))
        (zrange 1
           (Z.of_nat
              (List.length
                 (filter (fun yx => is_some (block_read ds yx))
                    (block_origins (ds_width ds) (ds_height ds)))))).
Proof.
  intros H Hok.
  destruct (RasterFacts.process_result _ _ _ _ _ _ H)
    as [[Ho ->]|[(ds & Ho & Hg & ->)|[(ds & Ho & Hg & Hc & ->)|
         (ds & od' & buf' & written & log & pb' & calls & Ho & Hg & Hc & Hod
          & Hrun & ->)]]];
    try discriminate Hok.
  exists ds. split; [exact Ho|]. cbn [pr_log].
  destruct (RasterFacts.process_blocks_trace _ _ _ _ _ _ _ _ _ _ _ _ _ _ _
              _ _ _ Hrun) as (written' & log' & _ & Hl & _ & Hp).
  cbn [app] in Hl. subst log'. exact Hp.
Qed.

Lemma raster_progress_witness :
  exists pres,
    processDEM RefLibm.libm DATE_FUEL Example.faulty 2024 1 = Some pres /\
    progress_blocks (pr_log pres) = [(1, 3); (2, 3)].
Proof.
  destruct (DriverFacts.raster_run RefLibm.libm DATE_FUEL Example.faulty
              2024 1 Example.strip eq_refl eq_refl eq_refl
              ExampleFacts.faulty_raster_returns)
    as (od & written & log & calls & Hp & _).
  destruct (raster_progress _ _ _ _ _ _ Hp eq_refl) as (ds & Ho & Hl).
  injection Ho as <-.
  eexists. split; [exact Hp|]. rewrite Hl. reflexivity.
Defined.

(* ================================================================= *)
(** ** The layout of the two outputs *)

Module LayoutFacts.

Import DemProcessor.

Lemma slice_app {A : Type} (a b c : list A) (n m : nat) :
  List.length a = n -> List.length b = m ->
  Wire.slice n m (a ++ b ++ c) = b.
Proof.
  intros <- <-. unfold Wire.slice.
  rewrite skipn_app, skipn_all, Nat.sub_diag. cbn [skipn app].
  rewrite firstn_app, Nat.sub_diag, firstn_all. cbn [firstn].
  apply app_nil_r.
Qed.

(** The third integer of the header, bytes 13 to 16. *)
Lemma stream_header_days width height days g rest :
  Wire.slice 13 4 (stream_header width height days g ++ rest)
  = Wire.int32_bytes days.
Proof.
  replace (stream_header width height days g ++ rest)
    with ((Wire.magic ++ Wire.int32_bytes width ++ Wire.int32_bytes height)
          ++ Wire.int32_bytes days
          ++ (flat_map Wire.double_bytes (geo_list g) ++ rest))
    by (unfold stream_header; now rewrite <- !app_assoc).
  apply slice_app.
  - rewrite !length_app. unfold Wire.int32_bytes.
    rewrite !WireFacts.le_bytes_length. reflexivity.
  - unfold Wire.int32_bytes. apply WireFacts.le_bytes_length.
Qed.

(** The six doubles of the header, bytes 17 to 64. *)
Lemma stream_header_geo width height days g rest :
  Wire.slice 17 48 (stream_header width height days g ++ rest)
  = flat_map Wire.double_bytes (geo_list g).
Proof.
  rewrite stream_header_split, <- app_assoc.
  apply slice_app.
  - rewrite !length_app. unfold Wire.int32_bytes.
    rewrite !WireFacts.le_bytes_length. reflexivity.
  - rewrite (WireFacts.flat_map_length_const _ 8)
      by apply WireFacts.double_bytes_length.
    reflexivity.
Qed.

Lemma stream_header_decode width height days g rest :
  Wire.doubles_of_bytes 6 (skipn 17 (stream_header width height days g ++ rest))
  = geo_list g.
Proof.
  rewrite stream_header_split, skipn_header.
  - apply (WireFacts.doubles_of_bytes_spec (geo_list g)).
  - rewrite !length_app. unfold Wire.int32_bytes.
    rewrite !WireFacts.le_bytes_length. reflexivity.
Qed.

(** The dataset of a run of [processDEM] is the one [createOutputDataset]
    made from the input. *)
Lemma process_dataset libm fuel world year tz pres od :
  processDEM libm fuel world year tz = Some pres ->
  pr_dataset pres = Some od ->
  exists ds,
    w_open world = Some ds /\
    od = mkOut (ds_width ds) (ds_height ds)
           ((if isLeapYear year then 366 else 365) * 2) (ds_geo ds)
           (ds_projection ds) (od_bands od).
Proof.
  intros H Hd.
  destruct (RasterFacts.process_result _ _ _ _ _ _ H)
    as [[Ho ->]|[(ds & Ho & Hg & ->)|[(ds & Ho & Hg & Hc & ->)|
         (ds & od' & buf' & written & log & pb' & calls & Ho & Hg & Hc & Hod
          & _ & ->)]]];
    try discriminate Hd.
  cbn [pr_dataset] in Hd. injection Hd as ->.
  unfold createOutputDataset in Hod. rewrite Hg, Hc in Hod.
  cbn [negb] in Hod. injection Hod as <-.
  exists ds. split; [exact Ho|reflexivity].
Qed.

End LayoutFacts.

(** C7.  In both modes the number of days of the year is 366 exactly when
    [(year % 4 == 0 && year % 100 != 0) || (year % 400 == 0)], that is in
    the leap years of the Gregorian calendar, and 365 otherwise.  In every
    stream that is written it is the third integer of the header and the
    number of blocks; in every output raster that is created it is half the
    number of bands.  Such runs exist: the stream is written when the
    raster opens and is read, its pixel count is an [int] and the
    calculator returns; the raster is created when the input opens, the
    driver is there and the output can be created.  2024 and 2000 have 366
    days, 2023 and 1900 have 365. *)
Theorem days_in_year (libm : Libm) (fuel : nat) (world : World) (year : Z)
    (tz : float) :
  let daysInYear := if isLeapYear year then 366 else 365 in
  (daysInYear = 366 <-> Spec.leap year) /\
  (daysInYear = 365 <-> ~ Spec.leap year) /\
  (forall sres,
     streamBinaryOutput libm fuel world year tz = Some sres ->
     st_ok sres = true ->
     exists ds,
       w_open world = Some ds /\
       Wire.slice 13 4 (st_stdout sres) = Wire.int32_bytes daysInYear /\
       List.length (st_stdout sres)
       = (65 + Z.to_nat daysInYear
               * (4 + 4 * Z.to_nat (ds_width ds * ds_height ds)))%nat) /\
  (forall ds demData,
     w_open world = Some ds ->
     ds_read ds 0 0 (ds_width ds) (ds_height ds) = Some demData ->
     0 <= ds_width ds * ds_height ds <= INT_MAX ->
     stream_returns libm fuel world year tz = true ->
     exists sres,
       streamBinaryOutput libm fuel world year tz = Some sres /\
       st_ok sres = true) /\
  (forall pres od,
     processDEM libm fuel world year tz = Some pres ->
     pr_dataset pres = Some od ->
     od_numBands od = daysInYear * 2) /\
  (forall ds,
     w_open world = Some ds ->
     w_gtiff world = true -> w_create world = true ->
     raster_returns libm fuel world year tz = true ->
     exists pres od,
       processDEM libm fuel world year tz = Some pres /\
       pr_dataset pres = Some od) /\
  isLeapYear 2024 = true /\ isLeapYear 2000 = true /\
  isLeapYear 2023 = false /\ isLeapYear 1900 = false.
Proof.
  intros daysInYear.
  pose proof (isLeapYear_spec year) as Hleap.
  split; [|split; [|split; [|split; [|split; [|split;
    [|repeat split; reflexivity]]]]]].
  - unfold daysInYear. destruct (isLeapYear year).
    + split; [intros _; now apply Hleap|reflexivity].
    + split; [discriminate|]. intros H. apply Hleap in H. discriminate.
  - unfold daysInYear. destruct (isLeapYear year).
    + split; [discriminate|]. intros H. exfalso. apply H. now apply Hleap.
    + split; [|reflexivity]. intros _ H. apply Hleap in H. discriminate.
  - intros sres H Hok.
    destruct (StreamFacts.stream_success _ _ _ _ _ _ H Hok)
      as (ds & demData & mems & Ho & _ & _ & HF & Hout).
    exists ds. split; [exact Ho|]. rewrite Hout. fold daysInYear. split.
    + apply LayoutFacts.stream_header_days.
    + rewrite length_app, DriverFacts.stream_header_length.
      rewrite (concat_length_const _
                 (4 + 4 * Z.to_nat (ds_width ds * ds_height ds))).
      * rewrite length_map, length_combine.
        rewrite <- (Forall2_length HF), Nat.min_id.
        rewrite DriverFacts.calendar_length. reflexivity.
      * intros l Hl. apply in_map_iff in Hl. destruct Hl as (p & <- & _).
        rewrite DriverFacts.stream_block_length. lia.
  - intros ds demData Hopen Hread Hsize Hsr.
    destruct (DriverFacts.stream_run libm fuel world year tz ds demData
                Hopen Hread Hsize Hsr) as (mems & log & calls & _ & Hrun).
    eexists. split; [exact Hrun|reflexivity].
  - intros pres od H Hd.
    destruct (LayoutFacts.process_dataset _ _ _ _ _ _ _ H Hd)
      as (ds & _ & ->).
    reflexivity.
  - intros ds Hopen Hdrv Hcreate Hrr.
    destruct (DriverFacts.raster_run libm fuel world year tz ds
                Hopen Hdrv Hcreate Hrr)
      as (od & written & log & calls & Hrun & _).
    eexists. exists od. split; [exact Hrun|reflexivity].
Qed.

Lemma days_in_year_witness :
  exists sres pres od,
    streamBinaryOutput RefLibm.libm DATE_FUEL Example.world 2024 1
    = Some sres /\
    Wire.slice 13 4 (st_stdout sres) = Wire.int32_bytes 366 /\
    List.length (st_stdout sres) = (65 + 366 * (4 + 4 * 4))%nat /\
    processDEM RefLibm.libm DATE_FUEL Example.world 2024 1 = Some pres /\
    pr_dataset pres = Some od /\ od_numBands od = 732.
Proof.
  destruct (days_in_year RefLibm.libm DATE_FUEL Example.world 2024 1)
    as (_ & _ & Hstream & Hsrun & Hraster & Hrrun & _).
  destruct (Hsrun Example.dataset Example.dem eq_refl eq_refl
              ExampleFacts.world_size ExampleFacts.world_stream_returns)
    as (sres & Hs & Hok).
  destruct (Hstream sres Hs Hok) as (ds & Ho & Hdays & Hlen).
  injection Ho as <-.
  destruct (Hrrun Example.dataset eq_refl eq_refl eq_refl
              ExampleFacts.world_raster_returns) as (pres & od & Hp & Hod).
  exists sres, pres, od.
  exact (conj Hs (conj Hdays (conj Hlen (conj Hp (conj Hod
           (Hraster pres od Hp Hod)))))).
Defined.

(** C8.  The six geotransform coefficients read from the input raster are
    recorded unchanged in both outputs.  In every stream that is written,
    bytes 17 to 64 are the six coefficients of the input as doubles, and
    decoding them gives the coefficients back; every output raster that is
    created carries the geotransform of the input.  Such runs exist, under
    the conditions of each mode alone. *)
Theorem geotransform_round_trip (libm : Libm) (fuel : nat) (world : World)
    (year : Z) (tz : float) :
  (forall sres,
     streamBinaryOutput libm fuel world year tz = Some sres ->
     st_ok sres = true ->
     exists ds,
       w_open world = Some ds /\
       Wire.slice 17 48 (st_stdout sres)
       = flat_map Wire.double_bytes (geo_list (ds_geo ds)) /\
       Wire.doubles_of_bytes 6 (skipn 17 (st_stdout sres))
       = geo_list (ds_geo ds)) /\
  (forall ds demData,
     w_open world = Some ds ->
     ds_read ds 0 0 (ds_width ds) (ds_height ds) = Some demData ->
     0 <= ds_width ds * ds_height ds <= INT_MAX ->
     stream_returns libm fuel world year tz = true ->
     exists sres,
       streamBinaryOutput libm fuel world year tz = Some sres /\
       st_ok sres = true) /\
  (forall pres od,
     processDEM libm fuel world year tz = Some pres ->
     pr_dataset pres = Some od ->
     exists ds, w_open world = Some ds /\ od_geo od = ds_geo ds) /\
  (forall ds,
     w_open world = Some ds ->
     w_gtiff world = true -> w_create world = true ->
     raster_returns libm fuel world year tz = true ->
     exists pres od,
       processDEM libm fuel world year tz = Some pres /\
       pr_ok pres = true /\ pr_dataset pres = Some od).
Proof.
  split; [|split; [|split]].
  - intros sres H Hok.
    destruct (StreamFacts.stream_success _ _ _ _ _ _ H Hok)
      as (ds & demData & mems & Ho & _ & _ & _ & Hout).
    exists ds. split; [exact Ho|]. rewrite Hout. split.
    + apply LayoutFacts.stream_header_geo.
    + apply LayoutFacts.stream_header_decode.
  - intros ds demData Hopen Hread Hsize Hsr.
    destruct (DriverFacts.stream_run libm fuel world year tz ds demData
                Hopen Hread Hsize Hsr) as (mems & log & calls & _ & Hrun).
    eexists. split; [exact Hrun|reflexivity].
  - intros pres od H Hd.
    destruct (LayoutFacts.process_dataset _ _ _ _ _ _ _ H Hd)
      as (ds & Ho & ->).
    exists ds. split; [exact Ho|reflexivity].
  - intros ds Hopen Hdrv Hcreate Hrr.
    destruct (DriverFacts.raster_run libm fuel world year tz ds
                Hopen Hdrv Hcreate Hrr)
      as (od & written & log & calls & Hrun & _).
    eexists. exists od. split; [exact Hrun|]. split; reflexivity.
Qed.

Lemma geotransform_round_trip_witness :
  exists sres pres od,
    streamBinaryOutput RefLibm.libm DATE_FUEL Example.world 2024 1
    = Some sres /\
    Wire.doubles_of_bytes 6 (skipn 17 (st_stdout sres))
    = geo_list Example.geo /\
    processDEM RefLibm.libm DATE_FUEL Example.world 2024 1 = Some pres /\
    pr_dataset pres = Some od /\ od_geo od = Example.geo.
Proof.
  destruct (geotransform_round_trip RefLibm.libm DATE_FUEL Example.world
              2024 1) as (Hstream & Hsrun & Hraster & Hrrun).
  destruct (Hsrun Example.dataset Example.dem eq_refl eq_refl
              ExampleFacts.world_size ExampleFacts.world_stream_returns)
    as (sres & Hs & Hok).
  destruct (Hstream sres Hs Hok) as (ds & Ho & _ & Hg).
  injection Ho as <-.
  destruct (Hrrun Example.dataset eq_refl eq_refl eq_refl
              ExampleFacts.world_raster_returns)
    as (pres & od & Hp & _ & Hod).
  destruct (Hraster pres od Hp Hod) as (ds & Ho & Hgeo).
  injection Ho as <-.
  exists sres, pres, od.
  exact (conj Hs (conj Hg (conj Hp (conj Hod Hgeo)))).
Defined.

(** C4, as the code has it.  For a raster whose pixel count is an [int],
    the stream is the header, written once, and then one block per day of
    the year in increasing day order.  The header is the five bytes of
    "SOLAR", the width, the height and the number of days as 32-bit
    integers, and the six geotransform coefficients as doubles: 65 bytes.
    The block of day [j + 1] is that index as a 32-bit integer, then the
    sunrise array, then the sunset array, as 16-bit integers, and nothing
    else: [2 * width * height * 2] bytes after the 4-byte index.  The two
    arrays are those of the day: at a masked pixel both hold -1, at any
    other pixel the first holds the sunrise and the second the sunset of
    the calculator at the coordinates of the pixel, in minutes. *)
Theorem stream_layout (libm : Libm) (fuel : nat) (world : World) (year : Z)
    (tz : float) (ds : Dataset) (demData : Z -> float) :
  w_open world = Some ds ->
  ds_read ds 0 0 (ds_width ds) (ds_height ds) = Some demData ->
  0 <= ds_width ds * ds_height ds <= INT_MAX ->
  stream_returns libm fuel world year tz = true ->
  let totalPixels := ds_width ds * ds_height ds in
  let pixels := zrange 0 totalPixels in
  let daysInYear := if isLeapYear year then 366 else 365 in
  exists sres header blocks,
    streamBinaryOutput libm fuel world year tz = Some sres /\
    st_ok sres = true /\
    st_stdout sres = header ++ List.concat blocks /\
    header = Wire.magic ++ Wire.int32_bytes (ds_width ds)
             ++ Wire.int32_bytes (ds_height ds)
             ++ Wire.int32_bytes daysInYear
             ++ flat_map Wire.double_bytes (geo_list (ds_geo ds)) /\
    List.length header = 65%nat /\
    List.length blocks = Z.to_nat daysInYear /\
    forall j block, nth_error blocks j = Some block ->
      exists (month day : Z) (sunriseBuffer sunsetBuffer : Z -> Z),
        nth_error (calendar (isLeapYear year)) j
        = Some (Z.of_nat j + 1, (month, day)) /\
        block = Wire.int32_bytes (Z.of_nat j + 1)
                ++ flat_map (fun i => Wire.int16_bytes (sunriseBuffer i))
                     pixels
                ++ flat_map (fun i => Wire.int16_bytes (sunsetBuffer i))
                     pixels /\
        List.length block = (4 + 2 * Z.to_nat totalPixels * 2)%nat /\
        forall i, 0 <= i < totalPixels ->
          (masked_stream (demData i) (Num.to_f32 (ds_nodata ds)) = true ->
           sunriseBuffer i = -1 /\ sunsetBuffer i = -1) /\
          (masked_stream (demData i) (Num.to_f32 (ds_nodata ds)) = false ->
           exists sunrise sunset,
             calculateSunrise libm fuel tz
               (snd (pixelToGeo (ds_geo ds) (Z.rem i (ds_width ds))
                       (i ÷ ds_width ds)))
               (fst (pixelToGeo (ds_geo ds) (Z.rem i (ds_width ds))
                       (i ÷ ds_width ds)))
               (demData i) year month day = Some sunrise /\
             calculateSunset libm fuel tz
               (snd (pixelToGeo (ds_geo ds) (Z.rem i (ds_width ds))
                       (i ÷ ds_width ds)))
               (fst (pixelToGeo (ds_geo ds) (Z.rem i (ds_width ds))
                       (i ÷ ds_width ds)))
               (demData i) year month day = Some sunset /\
             sunriseBuffer i = to_minutes sunrise /\
             sunsetBuffer i = to_minutes sunset).
Proof.
  intros Hopen Hread Hsize Hsr totalPixels pixels daysInYear.
  destruct (DriverFacts.stream_run libm fuel world year tz ds demData
              Hopen Hread Hsize Hsr) as (mems0 & log & calls & _ & Hrun).
  destruct (StreamFacts.stream_success _ _ _ _ _ _ Hrun eq_refl)
    as (ds' & demData' & mems & Ho & Hr & _ & HF & Hout).
  rewrite Hopen in Ho. injection Ho as <-.
  rewrite Hread in Hr. injection Hr as <-.
  eexists. eexists. eexists. split; [exact Hrun|].
  split; [reflexivity|]. split; [exact Hout|]. split; [reflexivity|].
  split; [apply DriverFacts.stream_header_length|].
  split.
  - rewrite length_map, length_combine.
    rewrite <- (Forall2_length HF), Nat.min_id.
    apply DriverFacts.calendar_length.
  - intros j block Hj. rewrite nth_error_map in Hj.
    destruct (nth_error (combine _ mems) j) as [[kmd mem]|] eqn:E;
      [|discriminate].
    cbn [option_map fst snd] in Hj. inversion Hj as [Hb]. clear Hj.
    assert (Hc : nth_error (calendar (isLeapYear year)) j = Some kmd).
    { exact (nth_error_combine_l _ _ _ _ _ E). }
    assert (Hk : fst kmd = Z.of_nat j + 1).
    { pose proof (f_equal (option_map fst) Hc) as H.
      rewrite <- nth_error_map, DriverFacts.calendar_days in H.
      cbn [option_map] in H. apply WireFacts.nth_error_zrange in H. lia. }
    destruct (StreamFacts.Forall2_combine_In _ _ _ _ _ HF
                (nth_error_In _ _ E)) as (mem0 & c0 & c1 & Hpass).
    destruct kmd as [k [month day]]. cbn [fst snd] in Hk, Hpass. subst k.
    exists month, day, (fun i => mem (true, i)), (fun i => mem (false, i)).
    split; [exact Hc|]. split; [reflexivity|].
    split; [rewrite DriverFacts.stream_block_length; lia|].
    intros i Hi. split.
    + intros Hm.
      exact (proj2 (PixelFacts.stream_pass_masked _ _ _ _ _ _ _ _ _ _ _ _ _
                      _ _ Hpass i Hi Hm)).
    + intros Hm.
      destruct (PixelFacts.stream_pass_unmasked _ _ _ _ _ _ _ _ _ _ _ _ _
                  _ _ Hpass i Hi Hm) as (sr & ss & H1 & H2 & _ & H3 & H4).
      exists sr, ss. repeat split; assumption.
Qed.

(** The stream of the 2 x 2 raster in 2024: the first block is that of
    1 January, its first pixel is masked. *)
Lemma stream_layout_witness :
  exists sres header blocks block (sunriseBuffer sunsetBuffer : Z -> Z),
    streamBinaryOutput RefLibm.libm DATE_FUEL Example.world 2024 1
    = Some sres /\
    st_stdout sres = header ++ List.concat blocks /\
    List.length header = 65%nat /\ List.length blocks = 366%nat /\
    nth_error blocks 0 = Some block /\
    block = Wire.int32_bytes 1
            ++ flat_map (fun i => Wire.int16_bytes (sunriseBuffer i))
                 (zrange 0 4)
            ++ flat_map (fun i => Wire.int16_bytes (sunsetBuffer i))
                 (zrange 0 4) /\
    sunriseBuffer 0 = -1 /\ sunsetBuffer 0 = -1.
Proof.
  destruct (stream_layout RefLibm.libm DATE_FUEL Example.world 2024 1
              Example.dataset Example.dem eq_refl eq_refl
              ExampleFacts.world_size ExampleFacts.world_stream_returns)
    as (sres & header & blocks & Hs & _ & Hout & _ & Hh & Hb & Hblocks).
  destruct blocks as [|block blocks]; [discriminate Hb|].
  destruct (Hblocks 0%nat block eq_refl)
    as (month & day & sunriseBuffer & sunsetBuffer & _ & Hblock & _ & Hpix).
  destruct (proj1 (Hpix 0 ltac:(cbn; lia)) eq_refl) as [H1 H2].
  exists sres, header, (block :: blocks), block, sunriseBuffer, sunsetBuffer.
  exact (conj Hs (conj Hout (conj Hh (conj Hb (conj eq_refl
           (conj Hblock (conj H1 H2))))))).
Defined.

(** On the 2 x 2 raster the 366 blocks of 2024 take 4 + 16 bytes each:
    not 4 + 8 + 16, and not 4 + 4 + 16 as they would with a count after
    the day index. *)
Lemma stream_block_size_counterexample :
  exists sres,
    streamBinaryOutput RefLibm.libm DATE_FUEL Example.world 2024 1
    = Some sres /\
    Z.of_nat (List.length (st_stdout sres)) = 65 + 366 * (4 + 2 * 2 * 2 * 2) /\
    Z.of_nat (List.length (st_stdout sres))
    <> 65 + 366 * (4 + (8 + 2 * 2 * 2 * 2)) /\
    Z.of_nat (List.length (st_stdout sres))
    <> 65 + 366 * (4 + (4 + 2 * 2 * 2 * 2)).
Proof.
  pose proof ExampleFacts.world_stream_length as H.
  destruct (streamBinaryOutput RefLibm.libm DATE_FUEL Example.world 2024 1)
    as [sres|]; [|discriminate H].
  exists sres. split; [reflexivity|].
  cbn [option_map] in H. injection H as H1. rewrite H1.
  split; [reflexivity|]. split; lia.
Qed.

(* ================================================================= *)
(** ** The command line *)

Module MainFacts.

Import DemProcessor Main.

Local Open Scope Z_scope.

(** The months and days of the loops of the driver. *)
Lemma calendar_dates isLeap k m d :
  In (k, (m, d)) (calendar isLeap) -> 1 <= m <= 12 /\ 1 <= d <= 31.
Proof.
  intros H.
  assert (C : forallb (fun kmd => (1 <=? fst (snd kmd))
                                  && (fst (snd kmd) <=? 12)
                                  && (1 <=? snd (snd kmd))
                                  && (snd (snd kmd) <=? 31))
                (calendar isLeap) = true)
    by (destruct isLeap; vm_compute; reflexivity).
  rewrite forallb_forall in C. specialize (C _ H). cbn [fst snd] in C.
  lia.
Qed.

(** The loop over the arguments keeps a year and a number of threads
    that are in range. *)
Lemma parse_keeps libc (n : nat) : forall args c r,
  (List.length args <= n)%nat ->
  parse libc args c = Parsed r ->
  (1900 <= year c <= 2100 -> 1900 <= year r <= 2100) /\
  (1 <= numThreads c -> 1 <= numThreads r).
Proof.
  induction n as [|n IH]; intros args c r Hlen H.
  - destruct args; [|cbn in Hlen; lia].
    cbn in H. injection H as <-. split; intros; assumption.
  - destruct args as [|arg rest].
    { cbn in H. injection H as <-. split; intros; assumption. }
    cbn [parse] in H. cbn [List.length] in Hlen.
    destruct ((arg =? "--help") || (arg =? "-h"))%string; [discriminate H|].
    destruct rest as [|value rest'].
    + destruct (arg =? "--stream")%string; [|discriminate H].
      cbn in H. injection H as <-. split; intros; assumption.
    + cbn [List.length] in Hlen.
      destruct (arg =? "--input")%string;
        [refine (IH rest' _ _ _ H); lia|].
      destruct (arg =? "--output")%string;
        [refine (IH rest' _ _ _ H); lia|].
      destruct (arg =? "--stream")%string;
        [refine (IH (value :: rest') _ _ _ H); cbn [List.length]; lia|].
      destruct (arg =? "--year")%string.
      { cbv zeta in H.
        destruct ((atoi libc value <? 1900) || (atoi libc value >? 2100))
          eqn:E; [discriminate H|].
        destruct (IH rest' _ _ ltac:(lia) H) as [Hy Ht]. cbn [year numThreads] in *.
        split; [intros _; apply Hy; lia|exact Ht]. }
      destruct (arg =? "--threads")%string.
      { cbv zeta in H.
        destruct (atoi libc value <? 1) eqn:E; [discriminate H|].
        destruct (IH rest' _ _ ltac:(lia) H) as [Hy Ht]. cbn [year numThreads] in *.
        split; [exact Hy|intros _; apply Ht; lia]. }
      destruct (arg =? "--timezone")%string;
        [refine (IH rest' _ _ _ H); lia|].
      discriminate H.
Qed.

(** The arguments are read from left to right: after a prefix that is
    accepted, the rest is read from the settings the prefix leaves. *)
Lemma parse_app_len libc (n : nat) : forall a1 a2 c c',
  (List.length a1 <= n)%nat ->
  parse libc a1 c = Parsed c' ->
  parse libc (a1 ++ a2) c = parse libc a2 c'.
Proof.
  induction n as [|n IH]; intros a1 a2 c c' Hlen H.
  - destruct a1; [|cbn in Hlen; lia].
    cbn in H. injection H as <-. reflexivity.
  - destruct a1 as [|arg rest].
    { cbn in H. injection H as <-. reflexivity. }
    cbn [List.length] in Hlen. cbn [app]. cbn [parse] in H |- *.
    destruct ((arg =? "--help") || (arg =? "-h"))%string; [discriminate H|].
    destruct rest as [|value rest'].
    + destruct (arg =? "--stream")%string eqn:Es; [|discriminate H].
      apply String.eqb_eq in Es. subst arg.
      cbn in H. injection H as <-. cbn [app].
      destruct a2; reflexivity.
    + cbn [List.length] in Hlen. cbn [app].
      destruct (arg =? "--input")%string;
        [refine (IH rest' _ _ _ _ H); lia|].
      destruct (arg =? "--output")%string;
        [refine (IH rest' _ _ _ _ H); lia|].
      destruct (arg =? "--stream")%string;
        [refine (IH (value :: rest') _ _ _ _ H); cbn [List.length]; lia|].
      destruct (arg =? "--year")%string.
      { cbv zeta in H |- *.
        destruct ((atoi libc value <? 1900) || (atoi libc value >? 2100));
          [discriminate H|].
        refine (IH rest' _ _ _ _ H); lia. }
      destruct (arg =? "--threads")%string.
      { cbv zeta in H |- *.
        destruct (atoi libc value <? 1); [discriminate H|].
        refine (IH rest' _ _ _ _ H); lia. }
      destruct (arg =? "--timezone")%string;
        [refine (IH rest' _ _ _ _ H); lia|].
      discriminate H.
Qed.

Lemma empty_spec s : empty s = true <-> s = EmptyString.
Proof. destruct s; cbn; split; intros H; congruence. Qed.

End MainFacts.

(** X12.  What [main] hands to the processor has been checked.  When [main]
    starts one of the two modes, whatever [atoi] and [atof] return, the
    year is between 1900 and 2100, the number of threads is at least 1,
    the input path is not empty, and in raster mode the output path is not
    empty; so every date that the loops of the driver give the calculator
    is one for which the loops of the calculator end. *)
Theorem main_checks_settings (libc : Main.Libc) (args : list string)
    (c : Main.Config) :
  Main.action libc args = Main.Stream c \/
  Main.action libc args = Main.Raster c ->
  1900 <= Main.year c <= 2100 /\
  1 <= Main.numThreads c /\
  Main.inputPath c <> EmptyString /\
  (Main.action libc args = Main.Raster c ->
   Main.streamMode c = false /\ Main.outputPath c <> EmptyString) /\
  (Main.action libc args = Main.Stream c -> Main.streamMode c = true) /\
  forall k m d, In (k, (m, d)) (calendar (isLeapYear (Main.year c))) ->
    valid_date (Main.year c) m d.
Proof.
  intros H. unfold Main.action in H |- *.
  destruct (Main.parse libc args Main.defaults) as [| | | |r] eqn:E;
    try (destruct H as [H|H]; discriminate H).
  destruct (MainFacts.parse_keeps libc _ _ _ _ (le_n _) E) as [Hy Ht].
  cbn [Main.year Main.numThreads Main.defaults] in Hy, Ht.
  specialize (Hy ltac:(lia)). specialize (Ht ltac:(lia)).
  destruct (Main.empty (Main.inputPath r)) eqn:Ei;
    [destruct H as [H|H]; discriminate H|].
  destruct (Main.streamMode r) eqn:Es; cbn [negb andb] in H |- *.
  - destruct H as [H|H]; [|discriminate H]. injection H as <-.
    split; [exact Hy|]. split; [exact Ht|].
    split; [intros N; apply MainFacts.empty_spec in N; congruence|].
    split; [discriminate|]. split; [intros _; exact Es|].
    intros k m d Hk. unfold valid_date. split; [exact Hy|].
    exact (MainFacts.calendar_dates _ _ _ _ Hk).
  - destruct (Main.empty (Main.outputPath r)) eqn:Eo;
      [destruct H as [H|H]; discriminate H|].
    destruct H as [H|H]; [discriminate H|]. injection H as <-.
    split; [exact Hy|]. split; [exact Ht|].
    split; [intros N; apply MainFacts.empty_spec in N; congruence|].
    split; [intros _; split; [exact Es|];
            intros N; apply MainFacts.empty_spec in N; congruence|].
    split; [discriminate|].
    intros k m d Hk. unfold valid_date. split; [exact Hy|].
    exact (MainFacts.calendar_dates _ _ _ _ Hk).
Qed.

Lemma main_checks_settings_witness :
  exists c,
    Main.action {| Main.atoi := fun _ => 2024; Main.atof := fun _ => 2%float |}
      ["--input"; "dem.tif"; "--stream"; "--year"; "2024"]%string
    = Main.Stream c /\
    1900 <= Main.year c <= 2100 /\ 1 <= Main.numThreads c.
Proof.
  eexists. split; [reflexivity|].
  destruct (main_checks_settings
              {| Main.atoi := fun _ => 2024; Main.atof := fun _ => 2%float |}
              ["--input"; "dem.tif"; "--stream"; "--year"; "2024"]%string
              _ (or_introl eq_refl)) as (Hy & Ht & _).
  split; [exact Hy|exact Ht].
Defined.

(** X13.  The arguments are read from left to right.  When a list of arguments
    is accepted and leaves the settings [c'], any arguments after it are
    read from [c'] on: a later option overrides an earlier one, an error
    in a later argument is still found, and an option that needs a value
    is refused as an unknown argument when it comes last. *)
Theorem parse_left_to_right (libc : Main.Libc) (a1 a2 : list string)
    (c c' : Main.Config) :
  Main.parse libc a1 c = Main.Parsed c' ->
  Main.parse libc (a1 ++ a2) c = Main.parse libc a2 c' /\
  (forall o, In o ["--input"; "--output"; "--year"; "--threads";
                   "--timezone"]%string ->
     Main.parse libc (a1 ++ [o]) c = Main.UnknownArgument o) /\
  (forall y, 1900 <= Main.atoi libc y <= 2100 ->
     Main.parse libc (a1 ++ ["--year"; y]%string) c
     = Main.Parsed (Main.mkConfig (Main.inputPath c') (Main.outputPath c')
                      (Main.streamMode c') (Main.atoi libc y)
                      (Main.numThreads c') (Main.timezoneOffset c'))) /\
  (forall y rest, ~ 1900 <= Main.atoi libc y <= 2100 ->
     Main.parse libc (a1 ++ ["--year"; y]%string ++ rest) c
     = Main.YearError).
Proof.
  intros H.
  pose proof (fun a2 => MainFacts.parse_app_len libc _ a1 a2 c c' (le_n _) H)
    as P.
  split; [exact (P a2)|]. split; [|split].
  - intros o Ho. rewrite P.
    cbn [In] in Ho.
    destruct Ho as [<-|[<-|[<-|[<-|[<-|[]]]]]]; reflexivity.
  - intros y Hy. rewrite P. cbn [Main.parse].
    change (("--year" =? "--help") || ("--year" =? "-h"))%string with false.
    change ("--year" =? "--input")%string with false.
    change ("--year" =? "--output")%string with false.
    change ("--year" =? "--stream")%string with false.
    change ("--year" =? "--year")%string with true.
    cbv iota zeta.
    replace ((Main.atoi libc y <? 1900) || (Main.atoi libc y >? 2100))
      with false by lia.
    reflexivity.
  - intros y rest Hy. rewrite P. cbn [app Main.parse].
    change (("--year" =? "--help") || ("--year" =? "-h"))%string with false.
    change ("--year" =? "--input")%string with false.
    change ("--year" =? "--output")%string with false.
    change ("--year" =? "--stream")%string with false.
    change ("--year" =? "--year")%string with true.
    cbv iota zeta.
    replace ((Main.atoi libc y <? 1900) || (Main.atoi libc y >? 2100))
      with true by lia.
    reflexivity.
Qed.

Lemma parse_left_to_right_witness :
  Main.parse {| Main.atoi := fun _ => 1850; Main.atof := fun _ => 2%float |}
    (["--input"; "dem.tif"; "--stream"]%string
       ++ ["--year"; "1850"]%string ++ ["--help"]%string)
    Main.defaults
  = Main.YearError.
Proof.
  refine (proj2 (proj2 (proj2 (parse_left_to_right
            {| Main.atoi := fun _ => 1850; Main.atof := fun _ => 2%float |}
            ["--input"; "dem.tif"; "--stream"]%string [] Main.defaults _
            eq_refl))) "1850"%string ["--help"%string] _).
  cbn. lia.
Defined.

(** X14.  The exit code of [main] in the two modes.  In stream mode it is 0
    exactly when the input opens and its elevations can be read.  In
    raster mode it is 0 exactly when the input opens, the driver exists
    and the output is created: tiles that fail to read or to write do not
    change it. *)
Theorem main_exit_code (libc : Main.Libc) (libm : Libm) (fuel : nat)
    (env : string -> string -> World) (args : list string) (code : Z) :
  Main.main libc libm fuel env args = Some code ->
  (code = 0 \/ code = 1) /\
  (forall c, Main.action libc args = Main.Stream c ->
     let world := env (Main.inputPath c) (Main.outputPath c) in
     code = 0 <->
     exists ds demData, w_open world = Some ds /\
       ds_read ds 0 0 (ds_width ds) (ds_height ds) = Some demData) /\
  (forall c, Main.action libc args = Main.Raster c ->
     let world := env (Main.inputPath c) (Main.outputPath c) in
     code = 0 <->
     (exists ds, w_open world = Some ds) /\
     w_gtiff world = true /\ w_create world = true).
Proof.
  unfold Main.main. intros H.
  destruct (Main.action libc args) as [e|c|c] eqn:Ea.
  - injection H as <-. split; [|split; intros c Hc; discriminate Hc].
    unfold Main.action in Ea.
    destruct (Main.parse libc args Main.defaults) as [| | | |r];
      try (injection Ea as <-; auto).
    destruct (Main.empty (Main.inputPath r)); [injection Ea as <-; auto|].
    destruct (negb (Main.streamMode r) && Main.empty (Main.outputPath r));
      [injection Ea as <-; auto|].
    destruct (Main.streamMode r); discriminate Ea.
  - destruct (streamBinaryOutput libm fuel _ (Main.year c)
                (Main.timezoneOffset c)) as [r|] eqn:Er; [|discriminate H].
    cbn [bind] in H. injection H as <-.
    split; [destruct (st_ok r); auto|].
    split; [|intros c0 Hc; discriminate Hc].
    intros c0 Hc. injection Hc as <-. cbv zeta.
    destruct (StreamFacts.stream_result _ _ _ _ _ _ Er)
      as [[Ho ->]|[(ds & Ho & Hr & ->)|
          (ds & demData & mem' & out & log & calls & Ho & Hr & Hd & ->)]];
      cbn [st_ok].
    + split; [discriminate|]. intros (ds & demData & Ho' & _). congruence.
    + split; [discriminate|]. intros (ds' & demData & Ho' & Hr').
      rewrite Ho in Ho'. injection Ho' as <-. congruence.
    + split; [|reflexivity]. intros _. exists ds, demData.
      split; assumption.
  - destruct (processDEM libm fuel _ (Main.year c) (Main.timezoneOffset c))
      as [r|] eqn:Er; [|discriminate H].
    cbn [bind] in H. injection H as <-.
    split; [destruct (pr_ok r); auto|].
    split; [intros c0 Hc; discriminate Hc|].
    intros c0 Hc. injection Hc as <-. cbv zeta.
    destruct (RasterFacts.process_result _ _ _ _ _ _ Er)
      as [[Ho ->]|[(ds & Ho & Hg & ->)|[(ds & Ho & Hg & Hc & ->)|
           (ds & od' & buf' & written & log & pb' & calls & Ho & Hg & Hc
            & _ & _ & ->)]]];
      cbn [pr_ok].
    + split; [discriminate|]. intros [[ds Ho'] _]. congruence.
    + split; [discriminate|]. intros (_ & Hg' & _). congruence.
    + split; [discriminate|]. intros (_ & _ & Hc'). congruence.
    + split; [|reflexivity]. intros _.
      split; [exists ds; exact Ho|]. split; assumption.
Qed.

(** A strip of three tiles of which one cannot be read and one cannot be
    written: the exit code is 0. *)
Lemma main_exit_code_witness :
  Main.main {| Main.atoi := fun _ => 2024; Main.atof := fun _ => 1%float |}
    RefLibm.libm DATE_FUEL (fun _ _ => Example.faulty)
    ["--input"; "strip.tif"; "--output"; "out.tif"; "--year"; "2024"]%string
  = Some 0 /\
  (exists ds, w_open Example.faulty = Some ds) /\
  w_gtiff Example.faulty = true /\ w_create Example.faulty = true.
Proof.
  destruct (DriverFacts.raster_run RefLibm.libm DATE_FUEL Example.faulty
              2024 1 Example.strip eq_refl eq_refl eq_refl
              ExampleFacts.faulty_raster_returns)
    as (od & written & log & calls & Hp & _).
  assert (Hm : Main.main
                 {| Main.atoi := fun _ => 2024;
                    Main.atof := fun _ => 1%float |}
                 RefLibm.libm DATE_FUEL (fun _ _ => Example.faulty)
                 ["--input"; "strip.tif"; "--output"; "out.tif";
                  "--year"; "2024"]%string = Some 0).
  { unfold Main.main.
    change (Main.action _ _)
      with (Main.Raster (Main.mkConfig "strip.tif" "out.tif" false 2024 96
                           1%float)).
    cbn [Main.inputPath Main.outputPath Main.year Main.timezoneOffset].
    rewrite Hp. reflexivity. }
  split; [exact Hm|].
  exact (proj1 (proj2 (proj2 (main_exit_code _ _ _ _ _ _ Hm)) _ eq_refl)
           eq_refl).
Defined.

(* ================================================================= *)
(** ** Minutes of the stream *)

Module MinutesFacts.

Import FloatDefs FloatFacts.

Local Open Scope Z_scope.

(** A bound that is a multiple of the unit of the result survives the
    rounding: below [B * 2 ^ d] units before, at most that after. *)
Lemma binary_round_aux_upper s z e l B d :
  0 <= z -> 0 <= d -> z < B * 2 ^ d ->
  fexp64 (Zdigits2 z + e) - e <= d ->
  match binary_round_aux prec emax s z e l with
  | S754_finite _ m e'' => e <= e'' /\ Z.pos m * 2 ^ (e'' - e) <= B * 2 ^ d
  | _ => True
  end.
Proof.
  intros Hz Hd HB Hn. unfold binary_round_aux, shr_fexp.
  set (n1 := fexp64 (Zdigits2 z + e) - e) in *.
  pose proof (shr_spec (shr_record_of_loc z l) e n1) as H1.
  rewrite shr_record_of_loc_m in H1. specialize (H1 Hz).
  destruct (shr (shr_record_of_loc z l) e n1) as [r1 e1].
  cbn [fst snd] in H1. destruct H1 as [He1 Hm1].
  set (N1 := Z.max 0 n1) in *.
  assert (HN1 : 0 <= N1 <= d) by (unfold N1; lia).
  assert (Hp1 : 0 < 2 ^ N1) by (apply Z.pow_pos_nonneg; lia).
  assert (Hsplit : B * 2 ^ d = 2 ^ N1 * (B * 2 ^ (d - N1))).
  { replace d with (N1 + (d - N1)) at 1 by lia.
    rewrite Z.pow_add_r by lia. ring. }
  assert (HB1 : shr_m r1 + 1 <= B * 2 ^ (d - N1)).
  { rewrite Hm1.
    assert (z / 2 ^ N1 < B * 2 ^ (d - N1))
      by (apply Z.div_lt_upper_bound; [exact Hp1|rewrite <- Hsplit; exact HB]).
    lia. }
  assert (Hm1' : 0 <= shr_m r1) by (rewrite Hm1; apply Z.div_pos; lia).
  pose proof (round_nearest_even_bounds (shr_m r1) (loc_of_shr_record r1))
    as Hr.
  set (z2 := round_nearest_even (shr_m r1) (loc_of_shr_record r1)) in *.
  set (n2 := fexp64 (Zdigits2 z2 + e1) - e1).
  assert (Hz2 : 0 <= z2) by lia.
  pose proof (shr_spec (shr_record_of_loc z2 loc_Exact) e1 n2) as H2.
  rewrite shr_record_of_loc_m in H2. specialize (H2 Hz2).
  destruct (shr (shr_record_of_loc z2 loc_Exact) e1 n2) as [r2 e2].
  cbn [fst snd] in H2. destruct H2 as [He2 Hm2].
  set (N2 := Z.max 0 n2) in *.
  assert (HN2 : 0 <= N2) by (unfold N2; lia).
  assert (Hp2 : 0 < 2 ^ N2) by (apply Z.pow_pos_nonneg; lia).
  destruct (shr_m r2) as [|p|p] eqn:Ep; try exact I.
  destruct (e2 <=? emax - prec); [|exact I].
  split; [lia|].
  replace (e2 - e) with (N2 + N1) by lia.
  rewrite Z.pow_add_r by lia.
  assert (Hdiv : 2 ^ N2 * Z.pos p <= z2)
    by (rewrite Hm2; apply Z.mul_div_le; exact Hp2).
  rewrite Hsplit.
  assert (Z.pos p * 2 ^ N2 <= B * 2 ^ (d - N1)) by lia.
  nia.
Qed.

(** An integer below 2^53 goes to a double and back unchanged. *)
Lemma trunc_of_int q : 0 <= q < 2 ^ 53 -> Num.trunc (Num.of_int q) = q.
Proof.
  intros Hq. unfold Num.of_int, Num.trunc, binary_normalize.
  destruct q as [|p|p]; [| |lia].
  - rewrite Prim2SF_SF2Prim by reflexivity. reflexivity.
  - set (c := fexp64 (Z.pos (digits2_pos p) + 0)).
    assert (Hd : 1 <= Z.pos (digits2_pos p) <= 53).
    { split; [lia|].
      change (Z.pos (digits2_pos p)) with (Zdigits2 (Z.pos p)).
      apply Zdigits2_lt; lia. }
    assert (Hc : c = Z.pos (digits2_pos p) - 53)
      by (unfold c; rewrite fexp64_eq; lia).
    assert (Hpow : 0 < 2 ^ (- c)) by (apply Z.pow_pos_nonneg; lia).
    set (z := Z.pos p * 2 ^ (0 - c)).
    assert (Hz : 0 < z) by (unfold z; replace (0 - c) with (- c) by lia; lia).
    rewrite (binary_round_exact false p 0 z Hz);
      [|left; split; [fold c; lia|fold c; reflexivity]|fold c; lia].
    fold c.
    assert (Hzd : Z.pos (digits2_pos (Z.to_pos z)) = Z.pos (digits2_pos p) - c).
    { change (Z.pos (digits2_pos (Z.to_pos z)))
        with (Zdigits2 (Z.pos (Z.to_pos z))).
      rewrite Z2Pos.id by exact Hz. unfold z.
      rewrite Z.mul_comm, Zdigits2_mul_pow2 by lia.
      change (Zdigits2 (Z.pos p)) with (Z.pos (digits2_pos p)). lia. }
    rewrite Prim2SF_SF2Prim.
    + destruct (0 <=? c) eqn:E0.
      * apply Z.leb_le in E0. assert (c = 0) by lia.
        rewrite Z.shiftl_mul_pow2 by lia. rewrite Z2Pos.id by exact Hz.
        unfold z. replace (0 - c) with 0 by lia. replace c with 0 by lia.
        cbn. lia.
      * apply Z.leb_gt in E0.
        rewrite Z.shiftr_div_pow2 by lia. rewrite Z2Pos.id by exact Hz.
        unfold z. replace (0 - c) with (- c) by lia.
        apply Z.div_mul. lia.
    + unfold SpecFloat.valid_binary, bounded, canonical_mantissa.
      rewrite Hzd. rewrite (fexp64_eq (Z.pos (digits2_pos p) - c + c)).
      apply andb_true_intro. split; [apply Z.eqb_eq|apply Z.leb_le];
        change (emax - prec) with 971; lia.
Qed.

Lemma Prim2SF_60 : Prim2SF 60 = S754_finite false 8444249301319680 (-47).
Proof. reflexivity. Qed.

(** A time below 24 hours is at most 1440 minutes after the rounded
    product by 60. *)
Lemma mul60_upper t mx ex :
  Prim2SF t = S754_finite false mx ex -> (t <? 24)%float = true ->
  match Prim2SF (t * 60)%float with
  | S754_zero s => s = false
  | S754_finite false mv ev =>
      (0 <= ev -> Z.pos mv * 2 ^ ev <= 1440) /\
      (ev < 0 -> Z.pos mv <= 1440 * 2 ^ (- ev))
  | _ => False
  end.
Proof.
  intros Ht H24.
  pose proof (Prim2SF_valid t) as Hv. rewrite Ht in Hv.
  change (bounded prec emax mx ex = true) in Hv.
  apply bounded_inv in Hv. destruct Hv as (Hex & Hmx & _).
  rewrite ltb_spec, Prim2SF_24, Ht in H24.
  unfold SFltb, SFcompare, F24 in H24.
  assert (Hlt : ex < -48 \/ (ex = -48 /\ Z.pos mx < Z.pos m24)).
  { destruct (Z.compare_spec ex (-48)) as [E|E|E]; [|left; exact E|
                                                     discriminate H24].
    right. split; [exact E|]. rewrite compare_cont_Z in H24.
    destruct (Z.compare_spec (Z.pos mx) (Z.pos m24)); try discriminate H24.
    assumption. }
  clear H24.
  rewrite mul_spec, Ht, Prim2SF_60. unfold SF64mul, SFmul. cbn [xorb].
  set (z := Z.pos (mx * 8444249301319680)).
  set (e := ex + -47).
  assert (Hz : z = Z.pos mx * 8444249301319680) by reflexivity.
  assert (Hz0 : 0 <= z) by lia.
  assert (Hd : 0 <= 52 - ex) by lia.
  assert (Hp : 2 ^ 100 <= 2 ^ (52 - ex)) by (apply Z.pow_le_mono_r; lia).
  assert (HB : z < 45 * 2 ^ (52 - ex)).
  { destruct Hlt as [E|[E Hm]].
    - assert (2 ^ 101 <= 2 ^ (52 - ex)) by (apply Z.pow_le_mono_r; lia).
      change (2 ^ 101) with 2535301200456458802993406410752 in *.
      change (2 ^ 53) with 9007199254740992 in Hmx. lia.
    - subst ex. change (2 ^ (52 - -48)) with 1267650600228229401496703205376.
      unfold m24 in Hm. lia. }
  assert (Hdig : Zdigits2 z <= 106).
  { apply Zdigits2_lt; [lia|lia|].
    change (2 ^ 53) with 9007199254740992 in Hmx.
    change (2 ^ 106) with 81129638414606681695789005144064. lia. }
  assert (Hn : fexp64 (Zdigits2 z + e) - e <= 52 - ex)
    by (rewrite fexp64_eq; unfold e; lia).
  pose proof (binary_round_aux_upper false z e loc_Exact 45 (52 - ex)
                Hz0 Hd HB Hn) as Hup.
  pose proof (binary_round_aux_shape false z e loc_Exact Hz0) as Hsh.
  cbv zeta in Hsh.
  assert (HE : Z.max e (fexp64 (Zdigits2 z + e)) <= 0)
    by (rewrite fexp64_eq; unfold e; lia).
  destruct (binary_round_aux prec emax false z e loc_Exact)
    as [s'|s'| |s' mv ev].
  - exact Hsh.
  - lia.
  - exact Hsh.
  - destruct Hsh as (-> & _ & _). destruct Hup as [Hev Hup].
    assert (Hsplit : 45 * 2 ^ (52 - ex) = 1440 * 2 ^ (- e)).
    { unfold e. replace (52 - ex) with (5 + - (ex + -47)) by lia.
      rewrite Z.pow_add_r by lia. change (2 ^ 5) with 32. lia. }
    rewrite Hsplit in Hup.
    assert (Hpe : 0 < 2 ^ (- e)) by (apply Z.pow_pos_nonneg; unfold e; lia).
    split.
    + intros H0. replace (ev - e) with (ev + - e) in Hup by lia.
      rewrite Z.pow_add_r in Hup by (unfold e; lia).
      assert (0 < 2 ^ ev) by (apply Z.pow_pos_nonneg; lia).
      apply (Z.mul_le_mono_pos_r _ _ (2 ^ (- e))); [exact Hpe|].
      rewrite <- Z.mul_assoc. exact Hup.
    + intros H0. replace (- e) with ((ev - e) + - ev) in Hup by lia.
      rewrite Z.pow_add_r in Hup by lia.
      assert (0 < 2 ^ (ev - e)) by (apply Z.pow_pos_nonneg; lia).
      apply (Z.mul_le_mono_pos_r _ _ (2 ^ (ev - e))); [assumption|].
      lia.
Qed.

Lemma wrap16_small z : -32768 <= z < 32768 -> Num.wrap 16 z = z.
Proof.
  intros H. unfold Num.wrap. change (2 ^ (16 - 1)) with 32768.
  change (2 ^ 16) with 65536. rewrite Z.mod_small by lia. lia.
Qed.

End MinutesFacts.

(** X15.  The minutes of the stream.  A time of at least 0 and below 24 hours
    is written as a whole number of minutes from 0 to 1440, the product by
    60 rounded to the nearest integer, and the conversion to 16 bits does
    not overflow; a time below 0, the sentinel -9999 among them, is
    written as -1. *)
Theorem minutes_in_range (t : float) :
  ((t <? 0)%float = true -> to_minutes t = -1) /\
  to_minutes NO_EVENT = -1 /\
  ((0 <=? t)%float = true -> (t <? 24)%float = true ->
   0 <= to_minutes t <= 1440 /\
   to_minutes t = Num.trunc (Num.round (t * 60)%float)).
Proof.
  split; [intros H; unfold to_minutes; rewrite H; reflexivity|].
  split; [reflexivity|]. intros H0 H24.
  unfold to_minutes. rewrite (CalcFacts.ltb_false_of_leb _ _ H0).
  unfold Num.to_int16.
  assert (R : 0 <= Num.trunc (Num.round (t * 60)%float) <= 1440).
  { pose proof (FloatFacts.nonneg_of_leb t H0) as Hn.
    destruct (Prim2SF t) as [s|s| |s mx ex] eqn:Et.
    - assert (E : Prim2SF (t * 60)%float = S754_zero s).
      { rewrite mul_spec, Et, MinutesFacts.Prim2SF_60.
        destruct s; reflexivity. }
      unfold Num.round. rewrite E. unfold Num.trunc. rewrite E. lia.
    - rewrite ltb_spec, Et, FloatFacts.Prim2SF_24 in H24.
      destruct s; [contradiction|discriminate H24].
    - contradiction.
    - destruct s; [contradiction|].
      pose proof (MinutesFacts.mul60_upper t mx ex Et H24) as Hu.
      unfold Num.round.
      destruct (Prim2SF (t * 60)%float) as [s'|s'| |s' mv ev] eqn:Ev;
        try contradiction.
      + unfold Num.trunc. rewrite Ev. lia.
      + destruct s'; [contradiction|]. destruct Hu as [Hpos Hneg].
        destruct (0 <=? ev) eqn:E0.
        * apply Z.leb_le in E0. unfold Num.trunc. rewrite Ev.
          rewrite (proj2 (Z.leb_le 0 ev) E0).
          rewrite Z.shiftl_mul_pow2 by lia. specialize (Hpos E0).
          assert (0 < 2 ^ ev) by (apply Z.pow_pos_nonneg; lia). nia.
        * apply Z.leb_gt in E0. specialize (Hneg E0).
          assert (Hp : 0 < 2 ^ (- ev)) by (apply Z.pow_pos_nonneg; lia).
          assert (Hh : 0 < 2 ^ (- ev - 1)) by (apply Z.pow_pos_nonneg; lia).
          assert (H2 : 2 ^ (- ev) = 2 * 2 ^ (- ev - 1)).
          { replace (- ev) with (1 + (- ev - 1)) at 1 by lia.
            rewrite Z.pow_add_r by lia. reflexivity. }
          set (q := Z.shiftr (Z.pos mv + Z.shiftl 1 (- ev - 1)) (- ev)).
          assert (Hq : 0 <= q <= 1440).
          { unfold q. rewrite Z.shiftr_div_pow2, Z.shiftl_mul_pow2 by lia.
            rewrite Z.mul_1_l. split.
            - apply Z.div_pos; lia.
            - assert (L : (Z.pos mv + 2 ^ (- ev - 1)) / 2 ^ (- ev) < 1441)
                by (apply Z.div_lt_upper_bound; lia).
              lia. }
          change (SF2Prim (binary_normalize prec emax q 0 false))
            with (Num.of_int q).
          rewrite MinutesFacts.trunc_of_int
            by (change (2 ^ 53) with 9007199254740992; lia).
          exact Hq. }
  rewrite MinutesFacts.wrap16_small by lia.
  split; [exact R|reflexivity].
Qed.

(** A quarter past six is 375 minutes, and a time within half a minute of
    midnight is written as 1440. *)
Lemma minutes_in_range_witness :
  to_minutes 6.25 = 375 /\ to_minutes 23.9999 = 1440 /\
  0 <= to_minutes 23.9999 <= 1440.
Proof.
  split; [reflexivity|]. split; [reflexivity|].
  exact (proj1 (proj2 (proj2 (minutes_in_range 23.9999)) eq_refl eq_refl)).
Defined.

(* ================================================================= *)
(** ** The two modes side by side *)

Module AgreeFacts.

Import SolarCalculator DemProcessor.

Local Open Scope Z_scope.

(** Row-major indices: the column and the row of an index. *)
Lemma row_major width gx gy :
  0 <= gx < width -> 0 <= gy ->
  Z.rem (gy * width + gx) width = gx /\ (gy * width + gx) ÷ width = gy.
Proof.
  intros Hx Hy.
  assert (0 <= gy * width) by nia.
  rewrite Z.rem_mod_nonneg, Z.quot_div_nonneg by lia.
  rewrite Z.add_comm, Z.mod_add, Z.div_add by lia.
  rewrite Z.mod_small, Z.div_small by lia. lia.
Qed.

Lemma example_raster_pixel :
  is_some (raster_pixel RefLibm.libm DATE_FUEL 1 Example.dem (-9999)%float
             Example.geo 2024 (isLeapYear 2024) 732 0 0 2 2
             ((1 - 0) * 2 + (0 - 0))) = true.
Proof. vm_compute. reflexivity. Qed.

Lemma example_stream_pixel :
  is_some (stream_pixel RefLibm.libm DATE_FUEL 1 Example.dem (-9999)%float
             2 Example.geo 2024 3 1 (1 * 2 + 0)) = true.
Proof. vm_compute. reflexivity. Qed.

(** While the local time is infinite the loops of [calculateSolarTime]
    go on. *)
Lemma loop_sub_infinity fuel :
  while_loop fuel (fun s => 24 <=? s)%float (fun s => s - 24)%float infinity
  = None.
Proof. induction fuel as [|n IH]; [reflexivity|exact IH]. Qed.

Lemma loop_add_neg_infinity fuel :
  while_loop fuel (fun s => s <? 0)%float (fun s => s + 24)%float
    neg_infinity = None.
Proof. induction fuel as [|n IH]; [reflexivity|exact IH]. Qed.

End AgreeFacts.

(** X16.  The two modes compute the same times.  For a pixel of the raster at
    column [gx] and row [gy] that neither mode masks, the stream (which
    finds it at index [gy * width + gx]) and the raster (which finds it in
    the block at [(x, y)] at index [(gy - y) * cbx + (gx - x)]) call the
    calculator with the same coordinates, those of [pixelToGeo] at
    [(gx, gy)]; the stream writes the two times in minutes and the raster
    writes the same two times rounded to binary32, in the two bands of
    the day. *)
Theorem modes_agree (libm : Libm) (fuel : nat) (tz : float)
    (demData demBlock : Z -> float) (demNodata : float) (g : GeoTransform)
    (year width x y cbx cby gx gy k m d : Z)
    (ws : list ((bool * Z) * Z)) (wr : list (Z * float)) (cs cr : nat) :
  let si := gy * width + gx in
  let ri := (gy - y) * cbx + (gx - x) in
  0 <= gx < width -> 0 <= gy -> x <= gx < x + cbx -> y <= gy ->
  demData si = demBlock ri ->
  masked_stream (demData si) demNodata = false ->
  In (k, (m, d)) (calendar (isLeapYear year)) ->
  stream_pixel libm fuel tz demData demNodata width g year m d si
  = Some (ws, cs) ->
  raster_pixel libm fuel tz demBlock demNodata g year (isLeapYear year)
    ((if isLeapYear year then 366 else 365) * 2) x y cbx cby ri
  = Some (wr, cr) ->
  exists sunrise sunset,
    calculateSunrise libm fuel tz (snd (pixelToGeo g gx gy))
      (fst (pixelToGeo g gx gy)) (demData si) year m d = Some sunrise /\
    calculateSunset libm fuel tz (snd (pixelToGeo g gx gy))
      (fst (pixelToGeo g gx gy)) (demData si) year m d = Some sunset /\
    ws = [((true, si), to_minutes sunrise);
          ((false, si), to_minutes sunset)] /\
    In ((k - 1) * 2 * (cbx * cby) + ri, Num.to_f32 sunrise) wr /\
    In (((k - 1) * 2 + 1) * (cbx * cby) + ri, Num.to_f32 sunset) wr.
Proof.
  intros si ri Hgx Hgy Hx Hy Hdem Hm Hk Hs Hr.
  destruct (AgreeFacts.row_major width gx gy Hgx Hgy) as [S1 S2].
  destruct (AgreeFacts.row_major cbx (gx - x) (gy - y) ltac:(lia) ltac:(lia))
    as [R1 R2].
  fold si in S1, S2. fold ri in R1, R2.
  assert (Hmr : masked_raster (demBlock ri) demNodata = false).
  { unfold masked_stream in Hm. unfold masked_raster. rewrite <- Hdem.
    destruct (is_nan (demData si)); [discriminate Hm|].
    destruct (demData si =? demNodata)%float; [discriminate Hm|reflexivity]. }
  unfold stream_pixel in Hs. rewrite Hm, S1, S2 in Hs.
  unfold raster_pixel in Hr. rewrite Hmr, R1, R2 in Hr.
  replace (x + (gx - x)) with gx in Hr by lia.
  replace (y + (gy - y)) with gy in Hr by lia.
  rewrite <- Hdem in Hr.
  unfold pixelToGeo in Hs, Hr |- *. cbn [fst snd] in Hs, Hr |- *.
  destruct (PixelFacts.raster_days_values _ _ _ _ _ _ _ _ _ _ _ _ Hr k m d Hk)
    as (sr & ss & H1 & H2 & H3 & H4).
  rewrite H1, H2 in Hs. cbn [bind] in Hs. injection Hs as <- _.
  exists sr, ss. split; [exact H1|]. split; [exact H2|].
  split; [reflexivity|]. split; assumption.
Qed.

Lemma modes_agree_witness :
  exists ws cs wr sunrise,
    stream_pixel RefLibm.libm DATE_FUEL 1 Example.dem (-9999)%float 2
      Example.geo 2024 3 1 (1 * 2 + 0) = Some (ws, cs) /\
    hd_error ws = Some ((true, 1 * 2 + 0), to_minutes sunrise) /\
    In ((61 - 1) * 2 * (2 * 2) + ((1 - 0) * 2 + (0 - 0)), Num.to_f32 sunrise)
       wr.
Proof.
  pose proof AgreeFacts.example_stream_pixel as Ss.
  pose proof AgreeFacts.example_raster_pixel as Sr.
  destruct (stream_pixel RefLibm.libm DATE_FUEL 1 Example.dem (-9999)%float
              2 Example.geo 2024 3 1 (1 * 2 + 0)) as [[ws cs]|] eqn:Es;
    [clear Ss|discriminate Ss].
  destruct (raster_pixel RefLibm.libm DATE_FUEL 1 Example.dem (-9999)%float
              Example.geo 2024 (isLeapYear 2024) 732 0 0 2 2
              ((1 - 0) * 2 + (0 - 0))) as [[wr cr]|] eqn:Er;
    [clear Sr|discriminate Sr].
  assert (Hk : In (61, (3, 1)) (calendar (isLeapYear 2024))).
  { apply (nth_error_In _ 60). vm_compute. reflexivity. }
  destruct (modes_agree RefLibm.libm DATE_FUEL 1 Example.dem Example.dem
              (-9999)%float Example.geo 2024 2 0 0 2 2 0 1 61 3 1 ws wr cs cr
              ltac:(lia) ltac:(lia) ltac:(lia) ltac:(lia) eq_refl eq_refl
              Hk Es Er) as (sr & ss & _ & _ & Hws & Hin & _).
  exists ws, cs, wr, sr. subst ws.
  split; [reflexivity|]. split; [reflexivity|exact Hin].
Defined.

(** X17.  The ends of the loops of [calculateSolarTime].  A NaN goes through
    both loops untouched, whatever the fuel; an infinite time is never
    brought into range: the loops do not end, whatever the fuel. *)
Theorem normalizeHours_not_finite (fuel : nat) (t : float) :
  (is_nan t = true -> normalizeHours fuel t = Some t) /\
  (forall s, Prim2SF t = S754_infinity s -> normalizeHours fuel t = None).
Proof.
  split.
  - intros H. unfold is_nan in H. unfold normalizeHours.
    assert (E : Prim2SF t = S754_nan).
    { rewrite FloatAxioms.eqb_spec in H. unfold SFeqb in H.
      destruct (Prim2SF t) as [s|s| |s m e]; try reflexivity;
        rewrite PixelFacts.SFcompare_refl in H
          by (intros N; discriminate N); discriminate H. }
    assert (C1 : (t <? 0.0)%float = false)
      by (rewrite ltb_spec, E; reflexivity).
    assert (C2 : (24.0 <=? t)%float = false)
      by (rewrite leb_spec, E; reflexivity).
    rewrite (FloatFacts.while_loop_exit fuel _ _ t C1). cbn [bind].
    exact (FloatFacts.while_loop_exit fuel _ _ t C2).
  - intros s H. rewrite <- (SF2Prim_Prim2SF t), H. unfold normalizeHours.
    destruct s.
    + change (SF2Prim (S754_infinity true)) with neg_infinity.
      rewrite AgreeFacts.loop_add_neg_infinity. reflexivity.
    + change (SF2Prim (S754_infinity false)) with infinity.
      rewrite (FloatFacts.while_loop_exit fuel _ _ infinity eq_refl).
      cbn [bind]. apply AgreeFacts.loop_sub_infinity.
Qed.

Lemma normalizeHours_not_finite_witness :
  normalizeHours 1000 nan = Some nan /\ normalizeHours 1000 infinity = None.
Proof.
  split.
  - exact (proj1 (normalizeHours_not_finite 1000 nan) eq_refl).
  - exact (proj2 (normalizeHours_not_finite 1000 infinity) false eq_refl).
Defined.
